(** * TPC-H Query 5 (query5.cpp): a shallow embedding and its properties

    Rows are [std::map<std::string, std::string>] (column name to text), tables
    are vectors of rows.  A [double] is a binary64 number ([float], the
    primitive IEEE 754 type): revenue is multiplied, added and compared as
    the machine does it, rounding, infinities and NaN included, every
    operation rounded on its own (no fused multiply-add, no wider
    intermediate format).  [std::stod] is a parameter of the development,
    [std::sort] a parameter with its contract, and so is the host's answer
    when a thread is asked for.
    Exceptions and undefined behaviour are explicit results; running out of
    memory is not modelled.  executeQuery5 runs its threads one after the
    other; a step relation interleaves them, and every complete schedule is
    shown to give the same mapping.

    The development has three parts: the definitions, the properties that
    the specification of the program states, and further properties of the
    loader, the command line, the engine and the ranker read off the code. *)

From Stdlib Require Import ZArith QArith Qcanon Strings.String Strings.Ascii.
From Stdlib Require Import Floats.
From stdpp Require Import sorting numbers.
From stdpp Require Import base tactics option list gmap strings.

Local Open Scope string_scope.
Local Open Scope Z_scope.

(** ** Exceptions, termination, undefined behaviour *)

Inductive exn : Type :=
  | out_of_range       (* std::map::at on a missing key, std::stoi/stod range *)
  | invalid_argument   (* std::stoi / std::stod: no conversion *)
  | length_error       (* std::vector of a size above max_size *)
  | system_error.      (* std::thread: the thread could not be started *)

Inductive failure : Type :=
  | Throws (e : exn)      (* the exception leaves the function *)
  | Terminate (e : exn)   (* an exception escapes a std::thread: std::terminate *)
  | Undefined.            (* the C++ standard gives the step no meaning *)

Inductive result (A : Type) : Type :=
  | Ok (a : A)
  | Err (f : failure).
Arguments Ok {A} a.
Arguments Err {A} f.

#[global] Instance result_ret : MRet result := λ A a, Ok a.
#[global] Instance result_bind : MBind result := λ A B f r,
  match r with Ok a => f a | Err e => Err e end.

Definition is_Ok {A} (r : result A) : Prop :=
  match r with Ok _ => True | Err _ => False end.

(** A range-for loop whose body may throw: the state is threaded through the
    elements in order, the first failure ends the loop. *)
Fixpoint for_each {A S : Type} (body : S → A → result S) (l : list A) (s : S)
    : result S :=
  match l with
  | [] => Ok s
  | x :: l' => s' ← body s x; for_each body l' s'
  end.

(** ** Rows and the standard containers *)

Abbreviation Row := (gmap string string).

(** [row.at(col)]: throws std::out_of_range when the column is missing. *)
Definition row_at (r : Row) (col : string) : result string :=
  match r !! col with
  | Some v => Ok v
  | None => Err (Throws out_of_range)
  end.

(** [m[k]] on a non-const std::map: a missing key is inserted with the
    value-initialised mapped value, and the map changes. *)
Definition subscript {V : Type} (dflt : V) (m : gmap string V) (k : string)
    : V * gmap string V :=
  match m !! k with
  | Some v => (v, m)
  | None => (dflt, <[k := dflt]> m)
  end.

(** Two doubles are the same value when they are the same binary64 datum:
    0.0 and -0.0 differ, and NaN is one value. *)
#[global] Instance float_eq_dec : EqDecision float.
Proof.
  intros x y. destruct (Leibniz.eqb x y) eqn:E.
  - left. by apply Leibniz.eqb_spec.
  - right. intros H. apply Leibniz.eqb_spec in H. congruence.
Defined.

(** [m[k] += v] on a std::map<std::string, double>: a missing key is
    inserted with 0.0 first, and the sum is rounded to a double. *)
Definition add_at (m : gmap string float) (k : string) (v : float)
    : gmap string float :=
  <[k := (default 0 (m !! k) + v)%float]> m.

(** std::string's [operator<] and [operator>=]: [compare] is lexicographic
    on the bytes read as unsigned values, a proper prefix being smaller. *)
Definition str_lt (a b : string) : bool :=
  match String.compare a b with Lt => true | _ => false end.

Definition str_ge (a b : string) : bool :=
  match String.compare a b with Lt => false | _ => true end.

(** Iteration over a std::map visits the pairs in ascending key order. *)
Definition key_le {V : Type} (p q : string * V) : Prop := String.le p.1 q.1.

#[global] Instance key_le_dec {V} : RelDecision (@key_le V).
Proof. intros p q. unfold key_le. apply _. Defined.

Definition map_items {V : Type} (m : gmap string V) : list (string * V) :=
  merge_sort key_le (map_to_list m).

(** ** The row store: split, loadTable, readTPCHData *)

(** [split]: tokens are read with std::getline up to [delimiter].  A token
    is produced at every delimiter, and at the end of the text when
    characters were read since the last delimiter. *)
Fixpoint split_from (token s : string) (delimiter : ascii) : list string :=
  match s with
  | EmptyString => if String.eqb token "" then [] else [token]
  | String c s' =>
      if Ascii.eqb c delimiter then token :: split_from "" s' delimiter
      else split_from (token ++ String c "") s' delimiter
  end.

Definition split (s : string) (delimiter : ascii) : list string :=
  split_from "" s delimiter.

(** [row[columns[i]] = values[i]] for every column index. *)
Definition load_row (columns values : list string) : Row :=
  foldl (λ (row : Row) cv, <[cv.1 := cv.2]> row) ∅ (zip columns values).

(** One turn of the reading loop of loadTable. *)
Definition loadTable_line (columns : list string) (table_data : list Row)
    (line : string) : list Row :=
  if String.eqb line "" then table_data
  else
    let values := split line "|" in
    if (length values <? length columns)%nat then table_data
    else (table_data ++ [load_row columns values])%list.

(** loadTable.  [file] is the text of the file, [None] when it cannot be
    opened; the lines are read with std::getline, that is split at the line
    feed.  The rows are appended to the caller's vector. *)
Definition loadTable (file : option string) (table_data : list Row)
    (columns : list string) : bool * list Row :=
  match file with
  | None => (false, table_data)
  | Some text =>
      (true, foldl (loadTable_line columns) table_data (split text "010"))
  end.

Definition customer_columns : list string :=
  ["c_custkey"; "c_name"; "c_address"; "c_nationkey"; "c_phone"; "c_acctbal";
   "c_mktsegment"; "c_comment"].
Definition orders_columns : list string :=
  ["o_orderkey"; "o_custkey"; "o_orderstatus"; "o_totalprice"; "o_orderdate";
   "o_orderpriority"; "o_clerk"; "o_shippriority"; "o_comment"].
Definition lineitem_columns : list string :=
  ["l_orderkey"; "l_partkey"; "l_suppkey"; "l_linenumber"; "l_quantity";
   "l_extendedprice"; "l_discount"; "l_tax"; "l_returnflag"; "l_linestatus";
   "l_shipdate"; "l_commitdate"; "l_receiptdate"; "l_shipinstruct";
   "l_shipmode"; "l_comment"].
Definition supplier_columns : list string :=
  ["s_suppkey"; "s_name"; "s_address"; "s_nationkey"; "s_phone"; "s_acctbal";
   "s_comment"].
Definition nation_columns : list string :=
  ["n_nationkey"; "n_name"; "n_regionkey"; "n_comment"].
Definition region_columns : list string :=
  ["r_regionkey"; "r_name"; "r_comment"].

(** The six vectors readTPCHData fills. *)
Record Tables : Type := mkTables {
  t_customer : list Row;
  t_orders : list Row;
  t_lineitem : list Row;
  t_supplier : list Row;
  t_nation : list Row;
  t_region : list Row
}.

Definition last_char (s : string) : option ascii :=
  last (list_ascii_of_string s).

(** readTPCHData.  [fs] gives the text of the file at a path.  The tables
    loaded before a file fails to open stay loaded.  [table_path.back()] on
    an empty path has no defined meaning. *)
Definition readTPCHData (fs : string → option string) (table_path : string)
    (t : Tables) : result (bool * Tables) :=
  match last_char table_path with
  | None => Err Undefined
  | Some c =>
    let path_suffix := if Ascii.eqb c "/" then "" else "/" in
    let at_ name := fs (table_path ++ path_suffix ++ name) in
    let '(ok, c_data) := loadTable (at_ "customer.tbl") (t_customer t)
                           customer_columns in
    let t := mkTables c_data (t_orders t) (t_lineitem t)
               (t_supplier t) (t_nation t) (t_region t) in
    if negb ok then Ok (false, t) else
    let '(ok, o_data) := loadTable (at_ "orders.tbl") (t_orders t)
                           orders_columns in
    let t := mkTables (t_customer t) o_data (t_lineitem t)
               (t_supplier t) (t_nation t) (t_region t) in
    if negb ok then Ok (false, t) else
    let '(ok, l_data) := loadTable (at_ "lineitem.tbl") (t_lineitem t)
                           lineitem_columns in
    let t := mkTables (t_customer t) (t_orders t) l_data
               (t_supplier t) (t_nation t) (t_region t) in
    if negb ok then Ok (false, t) else
    let '(ok, s_data) := loadTable (at_ "supplier.tbl") (t_supplier t)
                           supplier_columns in
    let t := mkTables (t_customer t) (t_orders t) (t_lineitem t)
               s_data (t_nation t) (t_region t) in
    if negb ok then Ok (false, t) else
    let '(ok, n_data) := loadTable (at_ "nation.tbl") (t_nation t)
                           nation_columns in
    let t := mkTables (t_customer t) (t_orders t) (t_lineitem t)
               (t_supplier t) n_data (t_region t) in
    if negb ok then Ok (false, t) else
    let '(ok, r_data) := loadTable (at_ "region.tbl") (t_region t)
                           region_columns in
    let t := mkTables (t_customer t) (t_orders t) (t_lineitem t)
               (t_supplier t) (t_nation t) r_data in
    if negb ok then Ok (false, t) else Ok (true, t)
  end.

(** ** 1-5. The dimension filter of executeQuery5 *)

(** Step 1: the keys of the regions named [r_name]. *)
Definition region_body (r_name : string) (valid_region_keys : list string)
    (r : Row) : result (list string) :=
  name ← row_at r "r_name";
  if String.eqb name r_name then
    k ← row_at r "r_regionkey";
    Ok (valid_region_keys ++ [k])%list
  else Ok valid_region_keys.

Definition filter_regions (r_name : string) (region_data : list Row)
    : result (list string) :=
  for_each (region_body r_name) region_data [].

(** Step 2: nation key to nation name, for the nations of those regions. *)
Definition nation_inner (n : Row) (nation_key_to_name : gmap string string)
    (r_key : string) : result (gmap string string) :=
  rk ← row_at n "n_regionkey";
  if String.eqb rk r_key then
    name ← row_at n "n_name";
    key ← row_at n "n_nationkey";
    Ok (<[key := name]> nation_key_to_name)
  else Ok nation_key_to_name.

Definition nation_body (valid_region_keys : list string)
    (nation_key_to_name : gmap string string) (n : Row)
    : result (gmap string string) :=
  for_each (nation_inner n) valid_region_keys nation_key_to_name.

Definition filter_nations (valid_region_keys : list string)
    (nation_data : list Row) : result (gmap string string) :=
  for_each (nation_body valid_region_keys) nation_data ∅.

(** Steps 3 and 4: customer (supplier) key to nation key, for the customers
    (suppliers) of those nations.  [key_col] and [nation_col] are the two
    column names of the table. *)
Definition member_body (key_col nation_col : string)
    (nation_key_to_name : gmap string string) (valid : gmap string string)
    (c : Row) : result (gmap string string) :=
  nk ← row_at c nation_col;
  match nation_key_to_name !! nk with
  | Some _ =>
      v ← row_at c nation_col;
      k ← row_at c key_col;
      Ok (<[k := v]> valid)
  | None => Ok valid
  end.

Definition filter_customers (nation_key_to_name : gmap string string)
    (customer_data : list Row) : result (gmap string string) :=
  for_each (member_body "c_custkey" "c_nationkey" nation_key_to_name)
           customer_data ∅.

Definition filter_suppliers (nation_key_to_name : gmap string string)
    (supplier_data : list Row) : result (gmap string string) :=
  for_each (member_body "s_suppkey" "s_nationkey" nation_key_to_name)
           supplier_data ∅.

(** Step 5: order key to customer key, for the orders dated in
    [start_date, end_date) whose customer is valid. *)
Definition order_body (start_date end_date : string)
    (valid_customers : gmap string string) (valid_orders : gmap string string)
    (o : Row) : result (gmap string string) :=
  o_date ← row_at o "o_orderdate";
  if str_ge o_date start_date && str_lt o_date end_date then
    c_key ← row_at o "o_custkey";
    match valid_customers !! c_key with
    | Some _ =>
        k ← row_at o "o_orderkey";
        Ok (<[k := c_key]> valid_orders)
    | None => Ok valid_orders
    end
  else Ok valid_orders.

Definition filter_orders (start_date end_date : string)
    (valid_customers : gmap string string) (orders_data : list Row)
    : result (gmap string string) :=
  for_each (order_body start_date end_date valid_customers) orders_data ∅.

(** ** 6. The line-item scan *)

(** What the worker lambda captures by reference: the four lookup maps (two
    of them are read with [operator[]], which may insert) and the vector of
    per-thread accumulators. *)
Record Locals : Type := mkLocals {
  nation_key_to_name : gmap string string;
  valid_customers : gmap string string;
  valid_suppliers : gmap string string;
  valid_orders : gmap string string;
  thread_results : list (gmap string float)
}.

(** size_t arithmetic is modulo 2^64. *)
Definition size_t_wrap (z : Z) : Z := z mod 2 ^ 64.

(** An exception that leaves the function run by a std::thread ends the
    process through std::terminate. *)
Definition in_thread {A : Type} (r : result A) : result A :=
  match r with
  | Err (Throws e) => Err (Terminate e)
  | _ => r
  end.

(** The first and one-past-last index handed to thread [i]. *)
Definition chunk_start (chunk_size i : Z) : Z := size_t_wrap (i * chunk_size).

Definition chunk_end (num_threads total_items chunk_size i : Z) : Z :=
  if i =? num_threads - 1 then total_items
  else size_t_wrap ((i + 1) * chunk_size).

Section engine.

(** [std::stod]: the double it reads from the text (any double, NaN and
    the infinities among them), or the exception it throws
    (std::invalid_argument, std::out_of_range). *)
Variable stod : string → exn + float.

Definition call_stod (s : string) : result float :=
  match stod s with
  | inl e => Err (Throws e)
  | inr q => Ok q
  end.

(** The body of the worker's loop at index [i]. *)
Definition worker_body (lineitem_data : list Row) (thread_id : Z)
    (st : Locals) (i : Z) : result Locals :=
  match lineitem_data !! Z.to_nat i with
  | None => Err Undefined
  | Some item =>
    o_key ← row_at item "l_orderkey";
    s_key ← row_at item "l_suppkey";
    match valid_orders st !! o_key with
    | None => Ok st
    | Some c_key =>
      match valid_suppliers st !! s_key with
      | None => Ok st
      | Some s_nation =>
        let '(c_nation, vc) := subscript "" (valid_customers st) c_key in
        if String.eqb c_nation s_nation then
          p ← row_at item "l_extendedprice";
          price ← call_stod p;
          d ← row_at item "l_discount";
          discount ← call_stod d;
          let revenue := (price * (1 - discount))%float in
          let '(n_name, nkn) := subscript "" (nation_key_to_name st) s_nation in
          match thread_results st !! Z.to_nat thread_id with
          | None => Err Undefined
          | Some acc =>
              Ok (mkLocals nkn vc (valid_suppliers st) (valid_orders st)
                    (<[Z.to_nat thread_id := add_at acc n_name revenue]>
                       (thread_results st)))
          end
        else
          Ok (mkLocals (nation_key_to_name st) vc (valid_suppliers st)
                (valid_orders st) (thread_results st))
      end
    end
  end.

(** [for (size_t i = start_idx; i < end_idx; ++i)]. *)
Definition worker (lineitem_data : list Row) (thread_id start_idx end_idx : Z)
    (st : Locals) : result Locals :=
  for_each (worker_body lineitem_data thread_id)
           (seqZ start_idx (end_idx - start_idx)) st.

(** One turn of the launch loop, [threads.emplace_back(worker, i, start,
    end)]; [started] tells whether the host creates the thread.  When it
    does not, the constructor of std::thread throws std::system_error in the
    caller: at the first turn the exception leaves executeQuery5, at a later
    turn the threads already in the vector are destroyed while joinable,
    which is std::terminate.  Every thread writes its own accumulator only,
    so a thread that was started is run to its end before the next turn. *)
Definition launch_turn (started : bool) (lineitem_data : list Row)
    (num_threads total_items chunk_size : Z) (st : Locals) (i : Z)
    : result Locals :=
  let start := chunk_start chunk_size i in
  let end_ := chunk_end num_threads total_items chunk_size i in
  if started then in_thread (worker lineitem_data i start end_ st)
  else if i =? 0 then Err (Throws system_error)
  else Err (Terminate system_error).

(** The turn of a thread that the host creates. *)
Definition launch_body : list Row → Z → Z → Z → Locals → Z → result Locals :=
  launch_turn true.

(** The aggregation loops at the end of executeQuery5. *)
Definition merge_pair (results : gmap string float) (pair : string * float)
    : gmap string float :=
  add_at results pair.1 pair.2.

Definition merge_map (results partial_map : gmap string float) : gmap string float :=
  foldl merge_pair results (map_items partial_map).

Definition merge_results (results : gmap string float)
    (parts : list (gmap string float)) : gmap string float :=
  foldl merge_map results parts.

(** Steps 1 to 5 together. *)
Definition dimension_filter (r_name start_date end_date : string)
    (customer_data orders_data supplier_data nation_data region_data : list Row)
    : result Locals :=
  valid_region_keys ← filter_regions r_name region_data;
  nkn ← filter_nations valid_region_keys nation_data;
  vc ← filter_customers nkn customer_data;
  vs ← filter_suppliers nkn supplier_data;
  vo ← filter_orders start_date end_date vc orders_data;
  Ok (mkLocals nkn vc vs vo []).

(** executeQuery5 on a host that creates the thread of turn [i] when
    [starts i] holds.  [results] is the caller's map, updated in place; the
    function returns [true] whenever it returns. *)
Definition executeQuery5_on (starts : Z → bool)
    (r_name start_date end_date : string) (num_threads : Z)
    (customer_data orders_data lineitem_data supplier_data nation_data
       region_data : list Row)
    (results : gmap string float) : result (bool * gmap string float) :=
  dims ← dimension_filter r_name start_date end_date customer_data orders_data
            supplier_data nation_data region_data;
  if num_threads <? 0 then Err (Throws length_error) else
  let st := mkLocals (nation_key_to_name dims) (valid_customers dims)
              (valid_suppliers dims) (valid_orders dims)
              (replicate (Z.to_nat num_threads) ∅) in
  let total_items := Z.of_nat (length lineitem_data) in
  if num_threads =? 0 then Err Undefined else
  let chunk_size := total_items / num_threads in
  st' ← for_each (λ st i, launch_turn (starts i) lineitem_data num_threads
                            total_items chunk_size st i)
          (seqZ 0 num_threads) st;
  Ok (true, merge_results results (thread_results st')).

(** executeQuery5 when the host creates every thread it is asked for. *)
Definition executeQuery5
    : string → string → string → Z → list Row → list Row → list Row →
      list Row → list Row → list Row → gmap string float →
      result (bool * gmap string float) :=
  executeQuery5_on (λ _, true).

End engine.

(** ** The result ranker: outputResults *)

(** What [std::sort] asks of its comparison and promises of its output.
    The comparison has to be a strict weak ordering on the values of the
    range; when it is not, nothing is promised.  A range is sorted with
    respect to [comp] when no later element compares before an earlier one;
    how equivalent elements are ordered is left open. *)
Definition strict_weak_order {A : Type} (comp : A → A → bool) (l : list A)
    : Prop :=
  (∀ x, x ∈ l → comp x x = false) ∧
  (∀ x y z, x ∈ l → y ∈ l → z ∈ l →
            comp x y = true → comp y z = true → comp x z = true) ∧
  (∀ x y z, x ∈ l → y ∈ l → z ∈ l →
            comp x y = false → comp y x = false →
            comp y z = false → comp z y = false →
            comp x z = false ∧ comp z x = false).

Definition sorted_by {A : Type} (comp : A → A → bool) (l : list A) : Prop :=
  ∀ (i j : nat) x y, (i < j)%nat → l !! i = Some x → l !! j = Some y →
                     comp y x = false.

Definition sort_contract (sort : ∀ A : Type, (A → A → bool) → list A → list A)
    : Prop :=
  ∀ (A : Type) (comp : A → A → bool) (l : list A),
    strict_weak_order comp l →
    sort A comp l ≡ₚ l ∧ sorted_by comp (sort A comp l).

(** The lambda handed to std::sort: [a.second > b.second] on doubles, which
    is false whenever one of the two is NaN. *)
Definition by_revenue_desc (a b : string * float) : bool :=
  (b.2 <? a.2)%float.

Section ranker.

Variable std_sort : ∀ A : Type, (A → A → bool) → list A → list A.

(** outputResults.  [opens] says whether the output file could be opened.
    The second component is the text written, one (name, revenue) pair per
    line and in this order; the rendering of a revenue with four decimals is
    not modelled.  [None]: nothing was written. *)
Definition outputResults (opens : bool) (results : gmap string float)
    : bool * option (list (string * float)) :=
  if opens then
    let sorted_results := map_items results in
    let sorted_results := std_sort _ by_revenue_desc sorted_results in
    (true, Some sorted_results)
  else (false, None).

End ranker.

(** ** Command line: parseArgs *)

(** [isspace] in the C locale and the value of a decimal digit. *)
Definition is_space (a : ascii) : bool :=
  let n := Z.of_N (N_of_ascii a) in (n =? 32) || ((9 <=? n) && (n <=? 13)).

Definition digit (a : ascii) : option Z :=
  let n := Z.of_N (N_of_ascii a) in
  if (48 <=? n) && (n <=? 57) then Some (n - 48) else None.

Fixpoint skip_space (s : string) : string :=
  match s with
  | String a s' => if is_space a then skip_space s' else s
  | EmptyString => s
  end.

(** The longest prefix of decimal digits, as a number; [acc] is [None] until
    a digit was read. *)
Fixpoint digits (s : string) (acc : option Z) : option Z :=
  match s with
  | String a s' =>
      match digit a with
      | Some d => digits s' (Some (10 * default 0 acc + d))
      | None => acc
      end
  | EmptyString => acc
  end.

(** [std::stoi(s)] in base 10: leading white space, an optional sign, then
    digits; text after the digits is ignored.  No digit: invalid_argument;
    a value outside [int]: out_of_range. *)
Definition stoi (s : string) : result Z :=
  let s := skip_space s in
  let '(neg, body) :=
    match s with
    | String "-" t => (true, t)
    | String "+" t => (false, t)
    | _ => (false, s)
    end in
  match digits body None with
  | None => Err (Throws invalid_argument)
  | Some v =>
      let v := if (neg : bool) then - v else v in
      if (- 2 ^ 31 <=? v) && (v <? 2 ^ 31) then Ok v
      else Err (Throws out_of_range)
  end.

(** The six variables parseArgs receives by reference. *)
Record Args : Type := mkArgs {
  arg_r_name : string;
  arg_start_date : string;
  arg_end_date : string;
  arg_num_threads : Z;
  arg_table_path : string;
  arg_result_path : string
}.

(** The loop of parseArgs over argv[i], argv[i+1], ...: a known flag that
    has a successor consumes it; any other word is stepped over. *)
Fixpoint parse_flags (rest : list string) (a : Args) : result Args :=
  match rest with
  | [] => Ok a
  | arg :: rest' =>
    match rest' with
    | [] => Ok a
    | v :: rest'' =>
      if String.eqb arg "--r_name" then
        parse_flags rest''
          (mkArgs v (arg_start_date a) (arg_end_date a) (arg_num_threads a)
                  (arg_table_path a) (arg_result_path a))
      else if String.eqb arg "--start_date" then
        parse_flags rest''
          (mkArgs (arg_r_name a) v (arg_end_date a) (arg_num_threads a)
                  (arg_table_path a) (arg_result_path a))
      else if String.eqb arg "--end_date" then
        parse_flags rest''
          (mkArgs (arg_r_name a) (arg_start_date a) v (arg_num_threads a)
                  (arg_table_path a) (arg_result_path a))
      else if String.eqb arg "--threads" then
        n ← stoi v;
        parse_flags rest''
          (mkArgs (arg_r_name a) (arg_start_date a) (arg_end_date a) n
                  (arg_table_path a) (arg_result_path a))
      else if String.eqb arg "--table_path" then
        parse_flags rest''
          (mkArgs (arg_r_name a) (arg_start_date a) (arg_end_date a)
                  (arg_num_threads a) v (arg_result_path a))
      else if String.eqb arg "--result_path" then
        parse_flags rest''
          (mkArgs (arg_r_name a) (arg_start_date a) (arg_end_date a)
                  (arg_num_threads a) (arg_table_path a) v)
      else parse_flags rest' a
    end
  end.

Definition empty (s : string) : bool := String.eqb s "".

(** The validation at the end of parseArgs. *)
Definition args_rejected (a : Args) : bool :=
  empty (arg_r_name a) || empty (arg_start_date a) || empty (arg_end_date a)
  || empty (arg_table_path a) || empty (arg_result_path a)
  || (arg_num_threads a <=? 0).

(** parseArgs: [argv] is the whole vector, argv[0] included; [a] holds the
    six variables as the caller initialised them. *)
Definition parseArgs (argv : list string) (a : Args) : result (bool * Args) :=
  a' ← parse_flags (tail argv) a;
  if args_rejected a' then Ok (false, a') else Ok (true, a').

(** ** The driver *)

Inductive run : Type :=
  | ConfigurationError
  | EngineRan (r : result (bool * gmap string float)).

(** Modelled from the spec: the driver (main), which calls parseArgs and
    then the engine, is not among the sources.  Section 7: a configuration
    error is fatal and detected before the engine starts; no rows are
    processed.  The tables stand for what the loader returned. *)
Definition query_run (stod : string → exn + float) (argv : list string) (a : Args)
    (customer_data orders_data lineitem_data supplier_data nation_data
       region_data : list Row) : result run :=
  '(ok, a') ← parseArgs argv a;
  if (ok : bool) then
    Ok (EngineRan
          (executeQuery5 stod (arg_r_name a') (arg_start_date a')
             (arg_end_date a') (arg_num_threads a') customer_data orders_data
             lineitem_data supplier_data nation_data region_data ∅))
  else Ok ConfigurationError.

(** ** The query as the specification words it *)

(** A field of a record of the row store. *)
Definition fld (r : Row) (col : string) : string := default "" (r !! col).

(** Every record of a table carries the columns the query reads. *)
Definition has_cols (cols : list string) (r : Row) : Prop :=
  Forall (λ c, is_Some (r !! c)) cols.

Definition unique_keys (col : string) (table : list Row) : Prop :=
  NoDup ((λ r, fld r col) <$> table).

(** order_date in [start_date, end_date), dates compared as text. *)
Definition in_window (start_date end_date d : string) : Prop :=
  String.compare start_date d ≠ Gt ∧ String.compare d end_date = Lt.

Definition Qc_sum (l : list Qc) : Qc := foldr Qcplus 0%Qc l.

(** The number a double stands for: sign, mantissa and exponent of a finite
    double give a rational.  NaN and the infinities stand for no number and
    are given 0 here. *)
Definition exact (x : float) : Qc :=
  match Prim2SF x with
  | S754_finite s m e =>
      let v := if 0 <=? e then Qc_of_Z (Z.pos m * 2 ^ e)
               else (Qc_of_Z (Z.pos m) / Qc_of_Z (2 ^ (- e)))%Qc in
      if s then (- v)%Qc else v
  | _ => 0%Qc
  end.

(** The rows at the indices [a], ..., [b - 1]. *)
Definition rows_between (a b : Z) (items : list Row) : list Row :=
  take (Z.to_nat (b - a)) (drop (Z.to_nat a) items).

(** The rows of the range handed to thread [i]. *)
Definition thread_rows (num_threads : Z) (items : list Row) (i : Z)
    : list Row :=
  let total_items := Z.of_nat (length items) in
  let chunk_size := total_items / num_threads in
  rows_between (chunk_start chunk_size i)
               (chunk_end num_threads total_items chunk_size i) items.

(** [results[name] += part] when a thread map holds [name], as a function
    of the two entries. *)
Definition add_part (total part : option float) : option float :=
  match part with
  | Some v => Some (default 0 total + v)%float
  | None => total
  end.

Section query_spec.

Variable stod : string → exn + float.
Variables r_name start_date end_date : string.
Variables customer_data orders_data lineitem_data supplier_data nation_data
  region_data : list Row.

(** The nation [nation_key] is called [name] and lies in a region called
    [r_name]. *)
Definition nation_in_region (nation_key name : string) : Prop :=
  Exists (λ n, fld n "n_nationkey" = nation_key ∧ fld n "n_name" = name ∧
     Exists (λ r, fld r "r_name" = r_name ∧
                  fld r "r_regionkey" = fld n "n_regionkey") region_data)
    nation_data.

(** The line item's order lies in the date window, the order's customer and
    the line item's supplier have the same nation, and that nation lies in
    the target region and is called [name]. *)
Definition qualifies (name : string) (li : Row) : Prop :=
  Exists (λ o, fld o "o_orderkey" = fld li "l_orderkey" ∧
     in_window start_date end_date (fld o "o_orderdate") ∧
     Exists (λ c, fld c "c_custkey" = fld o "o_custkey" ∧
        Exists (λ s, fld s "s_suppkey" = fld li "l_suppkey" ∧
                     fld s "s_nationkey" = fld c "c_nationkey" ∧
                     nation_in_region (fld s "s_nationkey") name)
          supplier_data)
       customer_data)
    orders_data.

#[global] Instance qualifies_dec name li : Decision (qualifies name li).
Proof. unfold qualifies, nation_in_region, in_window. apply _. Defined.

(** extended_price × (1 − discount) in double arithmetic, as the worker
    computes it. *)
Definition revenue_of (li : Row) : float :=
  match stod (fld li "l_extendedprice"), stod (fld li "l_discount") with
  | inr price, inr discount => (price * (1 - discount))%float
  | _, _ => 0%float
  end.

(** extended_price × (1 − discount) over the numbers the two doubles stand
    for, with no rounding. *)
Definition exact_revenue (li : Row) : Qc :=
  match stod (fld li "l_extendedprice"), stod (fld li "l_discount") with
  | inr price, inr discount => (exact price * (1 - exact discount))%Qc
  | _, _ => 0%Qc
  end.

(** The revenue the specification gives a nation name: the sum over the
    qualifying line items, and no entry when there is none. *)
Definition spec_revenue (name : string) : option Qc :=
  match filter (qualifies name) lineitem_data with
  | [] => None
  | items => Some (Qc_sum (exact_revenue <$> items))
  end.

(** The sum a worker holds for [name] after the rows [rows]: the revenues
    of the qualifying rows, added in row order to 0.0 and rounded at every
    addition; no entry when no row qualifies. *)
Definition worker_revenue (name : string) (rows : list Row) : option float :=
  match filter (qualifies name) rows with
  | [] => None
  | items => Some (foldl (λ acc li, (acc + revenue_of li)%float) 0%float items)
  end.

(** The revenue of [name] in double arithmetic with [num_threads] workers:
    the sum of every worker over the rows of its range, and these sums added
    in worker order to 0.0. *)
Definition double_revenue (num_threads : Z) (name : string) : option float :=
  foldl add_part None
    ((λ i, worker_revenue name (thread_rows num_threads lineitem_data i))
       <$> seqZ 0 num_threads).

End query_spec.

(** [std::stod] reads the text [s] as a number. *)
Definition reads (stod : string → exn + float) (s : string) : Prop :=
  match stod s with inr _ => True | inl _ => False end.

(** Both numeric columns of a line item read as numbers. *)
Definition numeric (stod : string → exn + float) (li : Row) : Prop :=
  reads stod (fld li "l_extendedprice") ∧ reads stod (fld li "l_discount").

#[global] Instance numeric_dec stod li : Decision (numeric stod li).
Proof. unfold numeric, reads. repeat case_match; apply _. Defined.

(** The tables as the loader delivers them: every row has the columns the
    query reads. *)
Record well_formed (customer_data orders_data lineitem_data supplier_data
    nation_data region_data : list Row) : Prop := {
  wf_customer : Forall (has_cols ["c_custkey"; "c_nationkey"]) customer_data;
  wf_orders :
    Forall (has_cols ["o_orderkey"; "o_custkey"; "o_orderdate"]) orders_data;
  wf_lineitem :
    Forall (has_cols ["l_orderkey"; "l_suppkey"; "l_extendedprice"; "l_discount"])
           lineitem_data;
  wf_supplier : Forall (has_cols ["s_suppkey"; "s_nationkey"]) supplier_data;
  wf_nation :
    Forall (has_cols ["n_nationkey"; "n_name"; "n_regionkey"]) nation_data;
  wf_region : Forall (has_cols ["r_regionkey"; "r_name"]) region_data
}.

(** ** The scan row by row *)

(** The revenues listed under [k], in the order of the list, and their sum
    added one by one to [a]. *)
Definition revenues_under (k : string) (cs : list (string * float))
    : list float :=
  snd <$> filter (λ p, p.1 = k) cs.

Definition keyed_total (a : float) (k : string) (cs : list (string * float))
    : float :=
  foldl (λ acc v, (acc + v)%float) a (revenues_under k cs).

(** The two facts that keep [valid_customers[c_key]] and
    [nation_key_to_name[s_nation]] from inserting. *)
Definition lookups_guarded (d : Locals) : Prop :=
  (∀ o c, valid_orders d !! o = Some c → is_Some (valid_customers d !! c)) ∧
  (∀ s n, valid_suppliers d !! s = Some n →
          is_Some (nation_key_to_name d !! n)).

Definition with_results (d : Locals) (tr : list (gmap string float)) : Locals :=
  mkLocals (nation_key_to_name d) (valid_customers d) (valid_suppliers d)
           (valid_orders d) tr.

Definition thread_failure (f : failure) : failure :=
  match f with Throws e => Terminate e | _ => f end.

Section scan.

Variable stod : string → exn + float.

(** What one line item adds, read off the lookup maps without changing
    them: nothing, a revenue under a nation name, or an exception. *)
Definition contribution (d : Locals) (item : Row)
    : result (option (string * float)) :=
  o_key ← row_at item "l_orderkey";
  s_key ← row_at item "l_suppkey";
  match valid_orders d !! o_key with
  | None => Ok None
  | Some c_key =>
    match valid_suppliers d !! s_key with
    | None => Ok None
    | Some s_nation =>
      if String.eqb (default "" (valid_customers d !! c_key)) s_nation then
        p ← row_at item "l_extendedprice";
        price ← call_stod stod p;
        t ← row_at item "l_discount";
        discount ← call_stod stod t;
        Ok (Some (default "" (nation_key_to_name d !! s_nation),
                  (price * (1 - discount))%float))
      else Ok None
    end
  end.

Fixpoint contribs (d : Locals) (items : list Row)
    : result (list (string * float)) :=
  match items with
  | [] => Ok []
  | x :: l =>
      c ← contribution d x;
      cs ← contribs d l;
      Ok (option_list c ++ cs)%list
  end.

(** The accumulator of a thread that has gone through [rows] without an
    exception: the contributions added one by one to an empty map. *)
Definition tally (d : Locals) (rows : list Row) : gmap string float :=
  match contribs d rows with
  | Ok cs => foldl merge_pair ∅ cs
  | Err _ => ∅
  end.

End scan.

(** The ranges of all threads, and the accumulators the threads hold at
    the join, in thread order. *)
Definition thread_ranges (num_threads : Z) (items : list Row)
    : list (list Row) :=
  thread_rows num_threads items <$> seqZ 0 num_threads.

Definition thread_sums (stod : string → exn + float) (d : Locals)
    (num_threads : Z) (items : list Row) : list (gmap string float) :=
  tally stod d <$> thread_ranges num_threads items.

(** The index at which thread [k] starts; [k = num_threads] gives the end
    of the last range. *)
Definition bound (num_threads total_items : Z) (k : Z) : Z :=
  if k =? num_threads then total_items else k * (total_items / num_threads).

(** ** The dimension filter on well-formed tables *)

(** One turn of a filter loop on a record that has its columns: the pair
    (key column, value column) is stored when the record passes [P]. *)
Definition put_if (P : Row → Prop) `{∀ r, Decision (P r)}
    (key_col val_col : string) (m : gmap string string) (r : Row)
    : gmap string string :=
  if decide (P r) then <[fld r key_col := fld r val_col]> m else m.

Definition region_keys (r_name : string) (region_data : list Row) : list string :=
  (λ r, fld r "r_regionkey") <$> filter (λ r, fld r "r_name" = r_name) region_data.

Definition nation_names (keys : list string) (nation_data : list Row)
    : gmap string string :=
  foldl (put_if (λ n, fld n "n_regionkey" ∈ keys) "n_nationkey" "n_name")
        ∅ nation_data.

Definition members (key_col nation_col : string) (nkn : gmap string string)
    (table : list Row) : gmap string string :=
  foldl (put_if (λ c, is_Some (nkn !! fld c nation_col)) key_col nation_col)
        ∅ table.

Definition order_passes (start_date end_date : string)
    (vc : gmap string string) (o : Row) : Prop :=
  (str_ge (fld o "o_orderdate") start_date
   && str_lt (fld o "o_orderdate") end_date = true) ∧
  is_Some (vc !! fld o "o_custkey").

#[global] Instance order_passes_dec s e vc o : Decision (order_passes s e vc o).
Proof. unfold order_passes. apply _. Defined.

Definition window_orders (start_date end_date : string)
    (vc : gmap string string) (orders_data : list Row) : gmap string string :=
  foldl (put_if (order_passes start_date end_date vc) "o_orderkey" "o_custkey")
        ∅ orders_data.

(** A line item passes the join filters of the worker. *)
Definition joins (d : Locals) (item : Row) : Prop :=
  ∃ c_key s_nation,
    valid_orders d !! fld item "l_orderkey" = Some c_key ∧
    valid_suppliers d !! fld item "l_suppkey" = Some s_nation ∧
    valid_customers d !! c_key = Some s_nation.

Definition values_in (target m : gmap string string) : Prop :=
  ∀ k v, m !! k = Some v → is_Some (target !! v).

(** The five lookup structures the filter builds from well-formed tables. *)
Definition dimensions (r_name start_date end_date : string)
    (customer_data orders_data supplier_data nation_data region_data : list Row)
    : Locals :=
  let nkn := nation_names (region_keys r_name region_data) nation_data in
  let vc := members "c_custkey" "c_nationkey" nkn customer_data in
  mkLocals nkn vc
    (members "s_suppkey" "s_nationkey" nkn supplier_data)
    (window_orders start_date end_date vc orders_data)
    [].

(** ** The order of doubles

    [<] on doubles through sign, exponent and mantissa: a double that is
    not NaN is placed by a triple of integers, compared from the left. *)
Definition rank (x : float) : Z * Z * Z :=
  match Prim2SF x with
  | S754_nan => (3, 0, 0)
  | S754_infinity true => (-2, 0, 0)
  | S754_infinity false => (2, 0, 0)
  | S754_zero _ => (0, 0, 0)
  | S754_finite true m e => (-1, - e, - Z.pos m)
  | S754_finite false m e => (1, e, Z.pos m)
  end.

Definition before (a b : Z * Z * Z) : Prop :=
  a.1.1 < b.1.1 ∨
  (a.1.1 = b.1.1 ∧ (a.1.2 < b.1.2 ∨ (a.1.2 = b.1.2 ∧ a.2 < b.2))).

(** No revenue of the mapping is NaN. *)
Definition no_nan (results : gmap string float) : Prop :=
  ∀ name v, results !! name = Some v → is_nan v = false.

#[global] Instance no_nan_dec results : Decision (no_nan results).
Proof.
  refine (cast_if (decide (map_Forall (λ _ v, is_nan v = false) results)));
    unfold no_nan; by rewrite map_Forall_lookup in *.
Defined.

(** ** A sorting function that meets std::sort's contract

    Insertion sort by [comp]; it instantiates [std_sort] in the examples. *)
Fixpoint insert_by {A : Type} (comp : A → A → bool) (x : A) (l : list A)
    : list A :=
  match l with
  | [] => [x]
  | y :: l' => if comp y x then y :: insert_by comp x l' else x :: y :: l'
  end.

Definition insertion_sort (A : Type) (comp : A → A → bool) (l : list A)
    : list A :=
  foldr (insert_by comp) [] l.

(** The same sort fed the range back to front: equivalent elements come
    out in the opposite order. *)
Definition insertion_sort_rev (A : Type) (comp : A → A → bool) (l : list A)
    : list A :=
  insertion_sort A comp (reverse l).

(** The words the flag loop of parseArgs hands to std::stoi: the successors
    of --threads at the positions the loop reads as flags. *)
Fixpoint threads_values (rest : list string) : list string :=
  match rest with
  | [] => []
  | arg :: rest' =>
    match rest' with
    | [] => []
    | v :: rest'' =>
      if String.eqb arg "--r_name" || String.eqb arg "--start_date"
         || String.eqb arg "--end_date" then threads_values rest''
      else if String.eqb arg "--threads" then v :: threads_values rest''
      else if String.eqb arg "--table_path" || String.eqb arg "--result_path"
      then threads_values rest''
      else threads_values rest'
    end
  end.

(** The configuration is unusable: a text left empty or a thread count that
    is not positive. *)
Definition args_missing (a : Args) : Prop :=
  arg_r_name a = "" ∨ arg_start_date a = "" ∨ arg_end_date a = "" ∨
  arg_table_path a = "" ∨ arg_result_path a = "" ∨ arg_num_threads a ≤ 0.

(** ** The threads interleaved

    Between launch and join the threads run concurrently.  A state of the
    pool is the captured objects together with the next index of every
    thread; a step is one turn of one thread's loop, whichever thread that
    is.  A turn writes the thread's own accumulator only, so taking whole
    turns as steps loses no interleaving.  An exception in a turn ends the
    process. *)
Record Pool : Type := mkPool {
  pool_locals : Locals;
  pool_next : list Z
}.

Section pool.

Variable stod : string → exn + float.
Variable lineitem_data : list Row.
Variables num_threads total_items chunk_size : Z.

Inductive pool_step : Pool → result Pool → Prop :=
  | pool_turn (p : Pool) (i : nat) (pc : Z) :
      pool_next p !! i = Some pc →
      pc < chunk_end num_threads total_items chunk_size (Z.of_nat i) →
      pool_step p
        (st' ← in_thread (worker_body stod lineitem_data (Z.of_nat i)
                            (pool_locals p) pc);
         Ok (mkPool st' (<[i := pc + 1]> (pool_next p)))).

(** Any number of turns, none of which throws. *)
Inductive pool_runs : Pool → Pool → Prop :=
  | pool_runs_here (p : Pool) : pool_runs p p
  | pool_runs_turn (p p' p'' : Pool) :
      pool_step p (Ok p') → pool_runs p' p'' → pool_runs p p''.

(** All threads launched on [st], none has taken a turn. *)
Definition pool_start (st : Locals) : Pool :=
  mkPool st (chunk_start chunk_size <$> seqZ 0 num_threads).

(** Every thread has reached the end of its range: the joins return. *)
Definition pool_done (p : Pool) : Prop :=
  ∀ (i : nat) pc, pool_next p !! i = Some pc →
    chunk_end num_threads total_items chunk_size (Z.of_nat i) ≤ pc.

End pool.

(** What holds of the pool at any moment: the lookup maps are the filter's,
    and the accumulator of thread [i] holds the contributions of the rows
    from the start of its range up to its next index, none of which threw. *)
Definition pool_inv (stod : string → exn + float) (d : Locals)
    (lineitem_data : list Row) (num_threads : Z) (p : Pool) : Prop :=
  let lo := bound num_threads (Z.of_nat (length lineitem_data)) in
  ∃ tr, pool_locals p = with_results d tr ∧
    length tr = Z.to_nat num_threads ∧
    length (pool_next p) = Z.to_nat num_threads ∧
    ∀ (i : nat), (i < Z.to_nat num_threads)%nat →
      ∃ pc cs, pool_next p !! i = Some pc ∧
        lo (Z.of_nat i) ≤ pc ≤ lo (Z.of_nat i + 1) ∧
        contribs stod d (rows_between (lo (Z.of_nat i)) pc lineitem_data) = Ok cs ∧
        tr !! i = Some (foldl merge_pair ∅ cs).

(** ** Decision procedures for the examples *)

#[global] Instance exn_eq_dec : EqDecision exn.
Proof. solve_decision. Defined.

#[global] Instance failure_eq_dec : EqDecision failure.
Proof. solve_decision. Defined.

#[global] Instance result_eq_dec `{EqDecision A} : EqDecision (result A).
Proof. solve_decision. Defined.

#[global] Instance has_cols_dec cols r : Decision (has_cols cols r).
Proof. unfold has_cols. apply _. Defined.

#[global] Instance unique_keys_dec col table : Decision (unique_keys col table).
Proof. unfold unique_keys. apply _. Defined.

#[global] Instance in_window_dec s e dt : Decision (in_window s e dt).
Proof. unfold in_window. apply _. Defined.

(** Closed decidable statements are settled by evaluation. *)
Ltac by_evaluation := apply (bool_decide_unpack _); vm_compute; exact I.

(** ** std::stod

    [std::stod(s)] as libstdc++ has it: [strtod] in the C locale, then
    std::invalid_argument when nothing was converted and std::out_of_range
    when [strtod] reports a range error.  [strtod] skips white space, takes
    an optional sign and then a decimal numeral (digits with an optional
    point, then an optional exponent [e], sign, digits), a hexadecimal
    numeral ([0x], hexadecimal digits with an optional point, then an
    optional binary exponent [p], sign, digits), [inf] or [nan], letters in
    either case; the text after that is ignored.  The value is rounded to
    the nearest double, ties to even.  The range error is a value too large
    for a double, or one below the smallest normal double that is not a
    double itself. *)
Definition hex_digit (a : ascii) : option Z :=
  let n := Z.of_N (N_of_ascii a) in
  if (48 <=? n) && (n <=? 57) then Some (n - 48)
  else if (97 <=? n) && (n <=? 102) then Some (n - 87)
  else if (65 <=? n) && (n <=? 70) then Some (n - 55)
  else None.

Fixpoint take_digits (dig : ascii → option Z) (s : string) : list Z * string :=
  match s with
  | String a s' =>
      match dig a with
      | Some d => let '(ds, r) := take_digits dig s' in (d :: ds, r)
      | None => ([], s)
      end
  | EmptyString => ([], s)
  end.

Definition digits_value (base : Z) (ds : list Z) : Z :=
  foldl (λ acc d, base * acc + d) 0 ds.

Definition lower (a : ascii) : ascii :=
  let n := N_of_ascii a in
  if ((65 <=? n) && (n <=? 90))%N then ascii_of_N (n + 32) else a.

Fixpoint prefix_ci (p s : string) : bool :=
  match p, s with
  | EmptyString, _ => true
  | String a p', String b s' => Ascii.eqb a (lower b) && prefix_ci p' s'
  | String _ _, EmptyString => false
  end.

Definition take_sign (s : string) : bool * string :=
  match s with
  | String "-" t => (true, t)
  | String "+" t => (false, t)
  | _ => (false, s)
  end.

(** Digits, an optional point, digits: the digits read as one number, how
    many of them follow the point, and the rest of the text.  No digit at
    all: no numeral. *)
Definition mantissa (dig : ascii → option Z) (base : Z) (s : string)
    : option (Z * Z * string) :=
  let '(ip, rest) := take_digits dig s in
  let '(fp, rest) :=
    match rest with
    | String "." t => take_digits dig t
    | _ => ([], rest)
    end in
  match ip, fp with
  | [], [] => None
  | _, _ => Some (digits_value base (ip ++ fp), Z.of_nat (length fp), rest)
  end.

(** The exponent part: the letter [mark], an optional sign and at least one
    decimal digit; anything else is no exponent. *)
Definition exponent (mark : ascii) (s : string) : Z :=
  match s with
  | String a t =>
      if Ascii.eqb (lower a) mark then
        let '(neg, t) := take_sign t in
        match take_digits digit t with
        | ([], _) => 0
        | (ds, _) => if (neg : bool) then - digits_value 10 ds
                     else digits_value 10 ds
        end
      else 0
  | EmptyString => 0
  end.

(** The double nearest to [m * base ^ k], or the range error. *)
Definition to_double (neg : bool) (m base k : Z) : exn + float :=
  match m with
  | Z.pos _ =>
      let n := if 0 <=? k then m * base ^ k else m in
      let d := if 0 <=? k then 1 else base ^ (- k) in
      let r := SFdiv prec emax (S754_finite neg (Z.to_pos n) 0)
                     (S754_finite false (Z.to_pos d) 0) in
      match r with
      | S754_finite _ rm re =>
          let is_exact :=
            if 0 <=? re then Z.pos rm * 2 ^ re * d =? n
            else Z.pos rm * d =? n * 2 ^ (- re) in
          if (Z.pos rm <? 2 ^ 52) && negb is_exact then inl out_of_range
          else inr (SF2Prim r)
      | _ => inl out_of_range
      end
  | _ => inr (if neg then (-0)%float else 0%float)
  end.

Definition std_stod (s : string) : exn + float :=
  let '(neg, body) := take_sign (skip_space s) in
  if prefix_ci "inf" body then inr (if neg then neg_infinity else infinity)
  else if prefix_ci "nan" body then inr nan
  else
    let hex :=
      match body with
      | String "0" (String x t) =>
          if Ascii.eqb (lower x) "x" then mantissa hex_digit 16 t else None
      | _ => None
      end in
    match hex with
    | Some (m, k, rest) => to_double neg m 2 (exponent "p" rest - 4 * k)
    | None =>
        match mantissa digit 10 body with
        | Some (m, k, rest) => to_double neg m 10 (exponent "e" rest - k)
        | None => inl invalid_argument
        end
    end.

(** ** Concrete data for the examples *)

Definition row (fields : list (string * string)) : Row := list_to_map fields.

Module Sample.

Definition region_data : list Row :=
  [ row [("r_regionkey", "2"); ("r_name", "ASIA"); ("r_comment", "")];
    row [("r_regionkey", "3"); ("r_name", "EUROPE"); ("r_comment", "")] ].

Definition nation_data : list Row :=
  [ row [("n_nationkey", "8"); ("n_name", "INDIA"); ("n_regionkey", "2")];
    row [("n_nationkey", "18"); ("n_name", "CHINA"); ("n_regionkey", "2")];
    row [("n_nationkey", "6"); ("n_name", "FRANCE"); ("n_regionkey", "3")] ].

Definition customer_data : list Row :=
  [ row [("c_custkey", "1"); ("c_nationkey", "8")];
    row [("c_custkey", "2"); ("c_nationkey", "18")];
    row [("c_custkey", "3"); ("c_nationkey", "6")] ].

Definition supplier_data : list Row :=
  [ row [("s_suppkey", "10"); ("s_nationkey", "8")];
    row [("s_suppkey", "20"); ("s_nationkey", "18")];
    row [("s_suppkey", "30"); ("s_nationkey", "6")] ].

Definition orders_data : list Row :=
  [ row [("o_orderkey", "100"); ("o_custkey", "1"); ("o_orderdate", "1994-03-01")];
    row [("o_orderkey", "200"); ("o_custkey", "2"); ("o_orderdate", "1994-12-31")];
    row [("o_orderkey", "300"); ("o_custkey", "2"); ("o_orderdate", "1995-01-01")];
    row [("o_orderkey", "400"); ("o_custkey", "3"); ("o_orderdate", "1994-06-15")] ].

Definition lineitem (o s price discount : string) : Row :=
  row [("l_orderkey", o); ("l_suppkey", s); ("l_extendedprice", price);
       ("l_discount", discount)].

Definition lineitem_data : list Row :=
  [ lineitem "100" "10" "100.0" "0.1";
    lineitem "200" "20" "50.00" "0.00";
    lineitem "100" "20" "70.0" "0.5";
    lineitem "300" "20" "10.0" "0.0";
    lineitem "100" "10" "10" "0.5";
    lineitem "400" "30" "999" "0";
    lineitem "200" "20" "200" "0.25" ].

(** The third line item of [lineitem_data] joins nothing (its supplier is of
    another nation than its customer); here its price does not read. *)
Definition lineitem_corrupt_unmatched : list Row :=
  [ lineitem "100" "10" "100.0" "0.1";
    lineitem "200" "20" "50.00" "0.00";
    lineitem "100" "20" "n/a" "0.5" ].

(** The lookup structures of the sample for region ASIA and the year 1994. *)
Definition d : Locals :=
  dimensions "ASIA" "1994-01-01" "1995-01-01" customer_data orders_data
    supplier_data nation_data region_data.

(** The line items of [lineitem_corrupt_unmatched], the third now of
    supplier 10 and so joining. *)
Definition lineitem_corrupt_matched : list Row :=
  [ lineitem "100" "10" "100.0" "0.1";
    lineitem "200" "20" "50.00" "0.00";
    lineitem "100" "10" "n/a" "0.5" ].

(** Three nations with one qualifying line item each. *)
Definition scenario_results : gmap string float :=
  <["A" := 50%float]> (<["B" := 200%float]> (<["C" := 10%float]> ∅)).

(** Three line items of order 100 and supplier 10 (INDIA), the price of the
    first being 10^16. *)
Definition lineitem_large : list Row :=
  [ lineitem "100" "10" "10000000000000000" "0";
    lineitem "100" "10" "1" "0";
    lineitem "100" "10" "1" "0" ].

(** A charge of 10^16, its reversal and one more line item. *)
Definition lineitem_cancel : list Row :=
  [ lineitem "100" "10" "10000000000000000" "0";
    lineitem "100" "10" "-10000000000000000" "0";
    lineitem "100" "10" "1" "0" ].

(** Two charges near the largest double and the reversal of one. *)
Definition lineitem_huge : list Row :=
  [ lineitem "100" "10" "1.7e308" "0";
    lineitem "100" "10" "1.7e308" "0";
    lineitem "100" "10" "-1.7e308" "0" ].

(** A mapping in which one revenue is NaN. *)
Definition results_with_nan : gmap string float :=
  <["A" := 5%float]> (<["B" := 1%float]> (<["C" := nan]>
    (<["D" := 2%float]> ∅))).

(** A customer key that occurs twice, first with nation 8, then with 18. *)
Definition customer_twice : list Row :=
  [ row [("c_custkey", "1"); ("c_nationkey", "8")];
    row [("c_custkey", "1"); ("c_nationkey", "18")] ].

End Sample.

(** ** The text of a .tbl file

    dbgen writes one record per line and ends every field, the last one
    included, with the separator. *)
Definition free_of (d : ascii) (s : string) : Prop :=
  d ∉ list_ascii_of_string s.

#[global] Instance free_of_dec d s : Decision (free_of d s).
Proof. unfold free_of. apply _. Defined.

(** Every token followed by the delimiter. *)
Definition terminated (d : ascii) (tokens : list string) : string :=
  foldr (λ t rest, t ++ String d rest) "" tokens.

Definition tbl_line (fields : list string) : string := terminated "|" fields.

Definition tbl_text (records : list (list string)) : string :=
  terminated "010" (tbl_line <$> records).

(** A line loadTable keeps: it is not empty and has a value for every
    column. *)
Definition loadable (columns fields : list string) : Prop :=
  fields ≠ [] ∧ (length columns ≤ length fields)%nat.

#[global] Instance loadable_dec columns fields : Decision (loadable columns fields).
Proof. unfold loadable. apply _. Defined.

(** The files readTPCHData reads, in its order, with their columns, and the
    six vectors in the same order. *)
Definition tbl_files : list (string * list string) :=
  [("customer.tbl", customer_columns); ("orders.tbl", orders_columns);
   ("lineitem.tbl", lineitem_columns); ("supplier.tbl", supplier_columns);
   ("nation.tbl", nation_columns); ("region.tbl", region_columns)].

Definition tables_list (t : Tables) : list (list Row) :=
  [t_customer t; t_orders t; t_lineitem t; t_supplier t; t_nation t;
   t_region t].

(** The directory readTPCHData puts before a file name: the path, with a
    slash added unless it ends with one. *)
Definition tbl_dir (table_path : string) : string :=
  if decide (last_char table_path = Some "/"%char) then table_path
  else table_path ++ "/".

(** The turns the threads of a pool have left before all are done. *)
Definition turns_left (num_threads total_items chunk_size : Z) (p : Pool)
    : nat :=
  sum_list
    (imap (λ (i : nat) pc,
             Z.to_nat (chunk_end num_threads total_items chunk_size
                         (Z.of_nat i) - pc))
          (pool_next p)).

(** The options parseArgs knows, a command line made of options with their
    values only, and the value the last occurrence of an option gives it. *)
Definition flags : list string :=
  ["--r_name"; "--start_date"; "--end_date"; "--threads"; "--table_path";
   "--result_path"].

Definition option_words (options : list (string * string)) : list string :=
  options ≫= λ o, [o.1; o.2].

Definition given (flag : string) (options : list (string * string))
    : option string :=
  snd <$> last (filter (λ o, o.1 = flag) options).

(** ** A data directory for the examples *)

Module Fixtures.

Definition region_tbl : string :=
  tbl_text [["2"; "ASIA"; "ges"]; ["3"; "EUROPE"; "ly"]].

Definition nation_tbl : string :=
  tbl_text [["8"; "INDIA"; "2"; "ss"]; ["18"; "CHINA"; "2"; "c"];
            ["6"; "FRANCE"; "3"; "refully"]].

Definition customer_tbl : string :=
  tbl_text
    [["1"; "Customer#1"; "a1"; "8"; "18-1"; "711.56"; "BUILDING"; "to"];
     ["2"; "Customer#2"; "a2"; "18"; "28-2"; "121.65"; "AUTOMOBILE"; "l"];
     ["3"; "Customer#3"; "a3"; "6"; "16-3"; "7498.12"; "MACHINERY"; "d"]].

Definition supplier_tbl : string :=
  tbl_text
    [["10"; "Supplier#10"; "s1"; "8"; "18-10"; "5755.94"; "each"];
     ["20"; "Supplier#20"; "s2"; "18"; "28-20"; "4032.68"; "blithely"];
     ["30"; "Supplier#30"; "s3"; "6"; "16-30"; "4192.40"; "furiously"]].

Definition orders_tbl : string :=
  tbl_text
    [["100"; "1"; "O"; "173665.47"; "1994-03-01"; "5-LOW"; "Clerk#1"; "0"; "n"];
     ["200"; "2"; "O"; "46929.18"; "1994-12-31"; "1-URGENT"; "Clerk#2"; "0"; "s"];
     ["300"; "2"; "F"; "193846.25"; "1995-01-01"; "5-LOW"; "Clerk#3"; "0"; "y"]].

Definition lineitem_record (o s price discount : string) : list string :=
  [o; "155"; s; "1"; "17"; price; discount; "0.02"; "N"; "O"; "1994-03-13";
   "1994-02-12"; "1994-03-22"; "DELIVER IN PERSON"; "TRUCK"; "egular"].

Definition lineitem_tbl : string :=
  tbl_text
    [lineitem_record "100" "10" "100.0" "0.1";
     lineitem_record "200" "20" "50.00" "0.00";
     lineitem_record "100" "20" "70.0" "0.5";
     lineitem_record "300" "20" "10.0" "0.0"].

Definition fs (path : string) : option string :=
  if String.eqb path "data/customer.tbl" then Some customer_tbl
  else if String.eqb path "data/orders.tbl" then Some orders_tbl
  else if String.eqb path "data/lineitem.tbl" then Some lineitem_tbl
  else if String.eqb path "data/supplier.tbl" then Some supplier_tbl
  else if String.eqb path "data/nation.tbl" then Some nation_tbl
  else if String.eqb path "data/region.tbl" then Some region_tbl
  else None.

Definition no_tables : Tables := mkTables [] [] [] [] [] [].

(** What readTPCHData makes of the directory. *)
Definition loaded : Tables :=
  match readTPCHData fs "data" no_tables with
  | Ok (_, t) => t
  | Err _ => no_tables
  end.

(** A region without its name, and a line item without its order key. *)
Definition region_without_name : list Row :=
  [row [("r_regionkey", "2")]].

Definition item_without_key : Row :=
  row [("l_suppkey", "10"); ("l_extendedprice", "1"); ("l_discount", "0")].

(** The state of two threads over the sample before and after the first
    turn of thread 0. *)
Definition two_threads : Locals := with_results Sample.d [∅; ∅].

Definition after_turn : Locals :=
  match worker_body std_stod Sample.lineitem_data 0 two_threads 0 with
  | Ok st => st
  | Err _ => two_threads
  end.

(** The sample's revenues added to a map that holds two entries. *)
Definition earlier_results : gmap string float :=
  <["INDIA" := 10%float]> (<["PERU" := 1%float]> ∅).

Definition sample_out : gmap string float :=
  match executeQuery5 std_stod "ASIA" "1994-01-01" "1995-01-01" 2
          Sample.customer_data Sample.orders_data Sample.lineitem_data
          Sample.supplier_data Sample.nation_data Sample.region_data
          earlier_results with
  | Ok (_, out) => out
  | Err _ => ∅
  end.

(** The revenues of the sample, from an empty map. *)
Definition sample_fresh : gmap string float :=
  match executeQuery5 std_stod "ASIA" "1994-01-01" "1995-01-01" 3
          Sample.customer_data Sample.orders_data Sample.lineitem_data
          Sample.supplier_data Sample.nation_data Sample.region_data ∅ with
  | Ok (_, out) => out
  | Err _ => ∅
  end.

(** A command line that gives the region twice. *)
Definition options : list (string * string) :=
  [("--threads", "4"); ("--r_name", "EUROPE"); ("--start_date", "1994-01-01");
   ("--end_date", "1995-01-01"); ("--table_path", "data");
   ("--r_name", "ASIA"); ("--result_path", "out.txt")].

Definition no_args : Args := mkArgs "" "" "" 0 "" "".

Definition parsed : Args :=
  mkArgs "ASIA" "1994-01-01" "1995-01-01" 4 "data" "out.txt".

End Fixtures.

(** * Properties *)

(** ** The result monad and loops *)

Lemma row_at_has (r : Row) (cols : list string) (c : string) :
  has_cols cols r → c ∈ cols → row_at r c = Ok (fld r c).
Proof.
  intros Hc Hin. unfold has_cols in Hc. rewrite Forall_forall in Hc.
  destruct (Hc c Hin) as [v Hv]. unfold row_at, fld. by rewrite Hv.
Qed.

(** ** Accumulating revenue in a map *)

Lemma revenues_under_cons k k' v cs :
  revenues_under k ((k', v) :: cs) =
    if decide (k' = k) then v :: revenues_under k cs else revenues_under k cs.
Proof.
  unfold revenues_under. rewrite filter_cons. simpl.
  destruct (decide (k' = k)); done.
Qed.

Lemma revenues_under_absent k cs : k ∉ cs.*1 → revenues_under k cs = [].
Proof.
  induction cs as [|[k' v] cs IH]; intros Hk; [done|].
  rewrite revenues_under_cons. simpl in Hk. rewrite not_elem_of_cons in Hk.
  destruct Hk as [Hne Hk]. rewrite decide_False by done. by apply IH.
Qed.

Lemma revenues_under_present k cs : k ∈ cs.*1 → revenues_under k cs ≠ [].
Proof.
  induction cs as [|[k' v] cs IH]; intros Hk; [by apply elem_of_nil in Hk|].
  rewrite revenues_under_cons. simpl in Hk.
  destruct (decide (k' = k)) as [->|Hne]; [done|].
  apply elem_of_cons in Hk as [?|Hk]; [congruence|by apply IH].
Qed.

(** With every key listed once, a key has one revenue. *)
Lemma revenues_under_unique k v cs :
  NoDup cs.*1 → (k, v) ∈ cs → revenues_under k cs = [v].
Proof.
  induction cs as [|[k' v'] cs IH]; intros Hnd Hin; [by apply elem_of_nil in Hin|].
  rewrite fmap_cons in Hnd. apply NoDup_cons in Hnd as [Hk' Hnd].
  rewrite revenues_under_cons.
  apply elem_of_cons in Hin as [Heq|Hin].
  - simplify_eq. rewrite decide_True by done.
    by rewrite revenues_under_absent.
  - rewrite decide_False; [by apply IH|].
    intros ->. apply Hk'. apply list_elem_of_fmap. by exists (k, v).
Qed.

Lemma add_at_lookup m k v k' :
  add_at m k v !! k' =
    if decide (k = k') then Some (default 0 (m !! k) + v)%float else m !! k'.
Proof. unfold add_at. apply lookup_insert. Qed.

(** [m[k] += v] over a list of pairs: a key that occurs gets the old value
    (0.0 when absent) with its revenues added one by one, in the order of
    the list; the others stay. *)
Lemma foldl_merge_pair_lookup cs m k :
  foldl merge_pair m cs !! k =
    if decide (k ∈ cs.*1)
    then Some (keyed_total (default 0%float (m !! k)) k cs)
    else m !! k.
Proof.
  revert m. induction cs as [|[k' v] cs IH]; intros m.
  - reflexivity.
  - cbn [foldl fmap list_fmap fst]. rewrite IH. unfold merge_pair. cbn [fst snd].
    unfold keyed_total. rewrite revenues_under_cons, add_at_lookup.
    destruct (decide (k' = k)) as [->|Hne].
    + rewrite (decide_True (P := k ∈ k :: cs.*1)) by apply list_elem_of_here.
      destruct (decide (k ∈ cs.*1)) as [Hin|Hnin]; [done|].
      by rewrite (revenues_under_absent _ _ Hnin).
    + destruct (decide (k ∈ cs.*1)) as [Hin|Hnin].
      * rewrite decide_True by (by apply list_elem_of_further). done.
      * rewrite decide_False; [done|]. rewrite not_elem_of_cons. done.
Qed.

Lemma map_items_perm {V} (m : gmap string V) : map_items m ≡ₚ map_to_list m.
Proof. unfold map_items. apply merge_sort_Permutation. Qed.

Lemma elem_of_map_items {V} (m : gmap string V) k v :
  (k, v) ∈ map_items m ↔ m !! k = Some v.
Proof. rewrite map_items_perm. apply elem_of_map_to_list. Qed.

Lemma map_items_NoDup {V} (m : gmap string V) : NoDup (map_items m).*1.
Proof. rewrite map_items_perm. apply NoDup_fst_map_to_list. Qed.

(** Merging a thread map into [m]: [m[k] += v] for every entry of it. *)
Lemma merge_map_lookup (m p : gmap string float) k :
  merge_map m p !! k = add_part (m !! k) (p !! k).
Proof.
  unfold merge_map. rewrite foldl_merge_pair_lookup. unfold keyed_total.
  destruct (p !! k) as [v|] eqn:Hp; cbn [add_part].
  - apply elem_of_map_items in Hp.
    rewrite decide_True by (apply list_elem_of_fmap; by exists (k, v)).
    by rewrite (revenues_under_unique k v _ (map_items_NoDup p) Hp).
  - rewrite decide_False; [done|].
    intros ([k' v] & -> & Hin)%list_elem_of_fmap.
    apply elem_of_map_items in Hin. cbn in Hp. congruence.
Qed.

Lemma merge_results_cons r p tr :
  merge_results r (p :: tr) = merge_results (merge_map r p) tr.
Proof. reflexivity. Qed.

(** The aggregation, entry by entry: the thread maps are added in thread
    order to what [results] holds. *)
Lemma merge_results_fold (parts : list (gmap string float)) :
  ∀ (results : gmap string float) (name : string),
  merge_results results parts !! name =
    foldl add_part (results !! name) ((λ p, p !! name) <$> parts).
Proof.
  induction parts as [|p parts IH]; intros results name; [done|].
  by rewrite merge_results_cons, IH, merge_map_lookup.
Qed.

Lemma foldl_add_part_None total parts :
  Forall (λ p, p = None) parts → foldl add_part total parts = total.
Proof. induction 1 as [|p parts -> _ IH]; [done|]. apply IH. Qed.

Lemma foldl_add_part_is_Some parts : ∀ total,
  is_Some (foldl add_part total parts) ↔
  is_Some total ∨ Exists is_Some parts.
Proof.
  induction parts as [|p parts IH]; intros total; cbn [foldl].
  - rewrite Exists_nil. tauto.
  - rewrite IH, Exists_cons. destruct p as [v|]; cbn [add_part].
    + split; [intros _; right; left; by eexists|intros _; left; by eexists].
    + split; [tauto|]. intros [?|[[? [=]]|?]]; tauto.
Qed.

(** The names of the merged map: those [results] held and those of the
    thread maps. *)
Lemma merge_results_names parts (results : gmap string float) name :
  is_Some (merge_results results parts !! name) ↔
  is_Some (results !! name) ∨ Exists (λ p, is_Some (p !! name)) parts.
Proof.
  rewrite merge_results_fold, foldl_add_part_is_Some.
  by rewrite Exists_fmap.
Qed.

(** An entry that no thread map holds stays as it was. *)
Lemma merge_results_untouched parts (results : gmap string float) name :
  Forall (λ p, p !! name = None) parts →
  merge_results results parts !! name = results !! name.
Proof.
  intros Hno. rewrite merge_results_fold. apply foldl_add_part_None.
  by apply Forall_fmap.
Qed.

Lemma merge_results_empty parts (results : gmap string float) :
  Forall (λ p, p = ∅) parts → merge_results results parts = results.
Proof.
  intros Hno. apply map_eq. intros name. apply merge_results_untouched.
  eapply Forall_impl; [exact Hno|]. intros p ->. apply lookup_empty.
Qed.

(** ** What the loader delivers *)

Lemma fold_insert_mono (l : list (string * string)) : ∀ (m : Row) k,
  is_Some (m !! k) →
  is_Some (foldl (λ (row : Row) cv, <[cv.1 := cv.2]> row) m l !! k).
Proof.
  induction l as [|[k' v'] l IH]; intros m k Hk; [done|].
  cbn [foldl fst snd]. apply IH. rewrite lookup_insert.
  by destruct (decide (k' = k)).
Qed.

Lemma fold_insert_present (l : list (string * string)) : ∀ (m : Row) k,
  k ∈ l.*1 →
  is_Some (foldl (λ (row : Row) cv, <[cv.1 := cv.2]> row) m l !! k).
Proof.
  induction l as [|[k' v'] l IH]; intros m k Hk; [by apply elem_of_nil in Hk|].
  cbn [foldl fst snd]. cbn in Hk. apply elem_of_cons in Hk as [->|Hk].
  - apply fold_insert_mono. by rewrite lookup_insert_eq.
  - by apply IH.
Qed.

Lemma load_row_has_cols columns values :
  (length columns ≤ length values)%nat → has_cols columns (load_row columns values).
Proof.
  intros Hlen. unfold has_cols, load_row. apply Forall_forall. intros c Hc.
  apply fold_insert_present. by rewrite fst_zip.
Qed.

Lemma loadTable_line_has_cols columns table_data line :
  Forall (has_cols columns) table_data →
  Forall (has_cols columns) (loadTable_line columns table_data line).
Proof.
  intros Ht. unfold loadTable_line. destruct (String.eqb line ""); [done|].
  destruct (Nat.ltb_spec (length (split line "|")) (length columns)); [done|].
  apply Forall_app. split; [done|]. apply Forall_singleton.
  by apply load_row_has_cols.
Qed.

(** Every row loadTable appends carries all the columns of the table. *)
Lemma loadTable_has_cols file table_data columns :
  Forall (has_cols columns) table_data →
  Forall (has_cols columns) (loadTable file table_data columns).2.
Proof.
  intros Ht. unfold loadTable. destruct file as [text|]; [|done]. cbn [snd].
  revert table_data Ht. induction (split text "010") as [|line lines IH];
    intros table_data Ht; [done|].
  cbn [foldl]. by apply IH, loadTable_line_has_cols.
Qed.

Lemma has_cols_subseteq cols cols' r :
  has_cols cols r → Forall (λ c, c ∈ cols) cols' → has_cols cols' r.
Proof.
  unfold has_cols. rewrite !Forall_forall. intros Hc Hsub c Hin.
  by apply Hc, Hsub.
Qed.

Lemma loadTable_needed file columns needed ok table :
  Forall (λ c, c ∈ columns) needed →
  loadTable file [] columns = (ok, table) →
  Forall (has_cols needed) table.
Proof.
  intros Hin Hload.
  pose proof (loadTable_has_cols file [] columns (Forall_nil_2 _)) as Hall.
  rewrite Hload in Hall. cbn [snd] in Hall.
  eapply Forall_impl; [exact Hall|]. intros r Hr. by eapply has_cols_subseteq.
Qed.

(** The tables readTPCHData loads into empty vectors are well-formed. *)
Lemma readTPCHData_well_formed fs table_path ok t :
  readTPCHData fs table_path (mkTables [] [] [] [] [] []) = Ok (ok, t) →
  well_formed (t_customer t) (t_orders t) (t_lineitem t) (t_supplier t)
    (t_nation t) (t_region t).
Proof.
  unfold readTPCHData. destruct (last_char table_path) as [c|]; [|done].
  cbn [t_customer t_orders t_lineitem t_supplier t_nation t_region].
  destruct (loadTable _ [] customer_columns) as [ok1 c_data] eqn:Hc.
  destruct (loadTable _ [] orders_columns) as [ok2 o_data] eqn:Ho.
  destruct (loadTable _ [] lineitem_columns) as [ok3 l_data] eqn:Hl.
  destruct (loadTable _ [] supplier_columns) as [ok4 s_data] eqn:Hs.
  destruct (loadTable _ [] nation_columns) as [ok5 n_data] eqn:Hn.
  destruct (loadTable _ [] region_columns) as [ok6 r_data] eqn:Hr.
  eapply (loadTable_needed _ _ ["c_custkey"; "c_nationkey"]) in Hc;
    [|by_evaluation].
  eapply (loadTable_needed _ _ ["o_orderkey"; "o_custkey"; "o_orderdate"])
    in Ho; [|by_evaluation].
  eapply (loadTable_needed _ _ ["l_orderkey"; "l_suppkey"; "l_extendedprice";
                                "l_discount"]) in Hl; [|by_evaluation].
  eapply (loadTable_needed _ _ ["s_suppkey"; "s_nationkey"]) in Hs;
    [|by_evaluation].
  eapply (loadTable_needed _ _ ["n_nationkey"; "n_name"; "n_regionkey"]) in Hn;
    [|by_evaluation].
  eapply (loadTable_needed _ _ ["r_regionkey"; "r_name"]) in Hr;
    [|by_evaluation].
  destruct ok1, ok2, ok3, ok4, ok5, ok6; cbn; intros ?; simplify_eq;
    by constructor.
Qed.

(** ** The index ranges of the threads *)

Section ranges.

Variables num_threads total_items : Z.
Hypothesis threads_pos : 1 ≤ num_threads.
Hypothesis items_size_t : 0 ≤ total_items < 2 ^ 64.

Let chunk_size := total_items / num_threads.

Lemma chunk_size_bounds : 0 ≤ chunk_size ∧ num_threads * chunk_size ≤ total_items.
Proof.
  unfold chunk_size. split.
  - apply Z.div_pos; lia.
  - apply Z.mul_div_le. lia.
Qed.

Lemma chunk_start_bound i :
  0 ≤ i < num_threads → chunk_start chunk_size i = bound num_threads total_items i.
Proof.
  intros Hi. pose proof chunk_size_bounds as [H0 HN].
  unfold chunk_start, bound, size_t_wrap. fold chunk_size.
  destruct (Z.eqb_spec i num_threads); [lia|].
  apply Z.mod_small. nia.
Qed.

Lemma chunk_end_bound i :
  0 ≤ i < num_threads →
  chunk_end num_threads total_items chunk_size i
    = bound num_threads total_items (i + 1).
Proof.
  intros Hi. pose proof chunk_size_bounds as [H0 HN].
  unfold chunk_end, bound, size_t_wrap. fold chunk_size.
  destruct (Z.eqb_spec i (num_threads - 1)), (Z.eqb_spec (i + 1) num_threads);
    try lia.
  apply Z.mod_small. nia.
Qed.

Lemma bound_mono i :
  0 ≤ i < num_threads →
  0 ≤ bound num_threads total_items i
    ≤ bound num_threads total_items (i + 1) ∧
  bound num_threads total_items (i + 1) ≤ total_items.
Proof.
  intros Hi. pose proof chunk_size_bounds as [H0 HN].
  unfold bound. fold chunk_size.
  destruct (Z.eqb_spec i num_threads), (Z.eqb_spec (i + 1) num_threads); nia.
Qed.

Lemma bound_last : bound num_threads total_items num_threads = total_items.
Proof. unfold bound. by rewrite Z.eqb_refl. Qed.

Lemma bound_first : bound num_threads total_items 0 = 0.
Proof. unfold bound. destruct (Z.eqb_spec 0 num_threads); lia. Qed.

End ranges.

(** ** From the threads to the contributions of the rows *)

Section scan_facts.

Variable stod : string → exn + float.

Lemma in_thread_Err {A} (f : failure) :
  in_thread (A := A) (Err f) = Err (thread_failure f).
Proof. by destruct f. Qed.

Lemma subscript_present {V} (dflt : V) (m : gmap string V) k :
  is_Some (m !! k) → subscript dflt m k = (default dflt (m !! k), m).
Proof. intros [v Hv]. unfold subscript. by rewrite Hv. Qed.

(** Under the two guards one turn of the worker's loop leaves the lookup
    maps alone and adds the item's contribution to the thread's own map. *)
Lemma worker_body_contribution d tr lineitem_data thread_id i item acc :
  lookups_guarded d →
  lineitem_data !! Z.to_nat i = Some item →
  tr !! Z.to_nat thread_id = Some acc →
  worker_body stod lineitem_data thread_id (with_results d tr) i =
    c ← contribution stod d item;
    Ok (with_results d
          (<[Z.to_nat thread_id := foldl merge_pair acc (option_list c)]> tr)).
Proof.
  intros [Hvo Hvs] Hitem Hacc. unfold worker_body, contribution.
  rewrite Hitem. cbn [with_results valid_orders valid_suppliers valid_customers
    nation_key_to_name thread_results].
  destruct (row_at item "l_orderkey") as [o_key|]; [|done].
  destruct (row_at item "l_suppkey") as [s_key|]; [|done].
  cbn [mbind result_bind].
  destruct (valid_orders d !! o_key) as [c_key|] eqn:Ho.
  2:{ cbn. by rewrite list_insert_id. }
  destruct (valid_suppliers d !! s_key) as [s_nation|] eqn:Hs.
  2:{ cbn. by rewrite list_insert_id. }
  rewrite (subscript_present _ _ _ (Hvo _ _ Ho)).
  destruct (String.eqb _ s_nation).
  2:{ cbn. by rewrite list_insert_id. }
  destruct (row_at item "l_extendedprice") as [p|]; [|done].
  cbn [mbind result_bind].
  destruct (call_stod stod p) as [price|]; [|done].
  destruct (row_at item "l_discount") as [t|]; [|done].
  cbn [mbind result_bind].
  destruct (call_stod stod t) as [discount|]; [|done].
  cbn [mbind result_bind].
  rewrite (subscript_present _ _ _ (Hvs _ _ Hs)), Hacc.
  reflexivity.
Qed.

Lemma contribs_app d l1 l2 :
  contribs stod d (l1 ++ l2) =
    cs1 ← contribs stod d l1; cs2 ← contribs stod d l2; Ok (cs1 ++ cs2)%list.
Proof.
  induction l1 as [|x l1 IH]; simpl.
  - by destruct (contribs stod d l2).
  - destruct (contribution stod d x) as [c|]; [|done]. simpl.
    rewrite IH. destruct (contribs stod d l1) as [cs1|]; [|done]. simpl.
    destruct (contribs stod d l2) as [cs2|]; [|done]. simpl.
    by rewrite (assoc_L (++)).
Qed.

(** A worker over the rows [chunk], which sit at [pre] in the table, adds
    the contributions of exactly these rows to its own accumulator. *)
Lemma worker_contribs d lineitem_data thread_id chunk : ∀ pre post tr acc,
  lookups_guarded d →
  lineitem_data = (pre ++ chunk ++ post)%list →
  tr !! Z.to_nat thread_id = Some acc →
  worker stod lineitem_data thread_id (Z.of_nat (length pre))
         (Z.of_nat (length pre + length chunk)) (with_results d tr) =
    cs ← contribs stod d chunk;
    Ok (with_results d (<[Z.to_nat thread_id := foldl merge_pair acc cs]> tr)).
Proof.
  unfold worker.
  induction chunk as [|x chunk IH]; intros pre post tr acc Hg Hl Hacc.
  - rewrite seqZ_nil by (simpl; lia). simpl. by rewrite list_insert_id.
  - rewrite seqZ_cons by (simpl; lia). cbn [for_each].
    rewrite (worker_body_contribution d tr _ _ _ x acc Hg); [| |done].
    2:{ rewrite Nat2Z.id, Hl. by rewrite lookup_app_r, Nat.sub_diag by lia. }
    cbn [contribs]. destruct (contribution stod d x) as [c|]; [|done].
    cbn [mbind result_bind].
    replace (Z.succ (Z.of_nat (length pre)))
      with (Z.of_nat (length (pre ++ [x]))) by (rewrite length_app; simpl; lia).
    replace (Z.pred (Z.of_nat (length pre + length (x :: chunk)) - Z.of_nat (length pre)))
      with (Z.of_nat (length (pre ++ [x]) + length chunk) - Z.of_nat (length (pre ++ [x])))
      by (rewrite length_app; simpl; lia).
    rewrite (IH (pre ++ [x])%list post _ (foldl merge_pair acc (option_list c)) Hg).
    + destruct (contribs stod d chunk) as [cs|]; [|done].
      cbn [mbind result_bind]. by rewrite list_insert_insert_eq, foldl_app.
    + rewrite Hl. by rewrite <-(assoc_L (++)).
    + apply list_lookup_insert_eq. by eapply lookup_lt_Some.
Qed.

Lemma tally_names (cs : list (string * float)) name :
  is_Some (foldl merge_pair ∅ cs !! name) ↔ name ∈ cs.*1.
Proof.
  rewrite foldl_merge_pair_lookup, lookup_empty.
  destruct (decide (name ∈ cs.*1)); split; done.
Qed.

(** The contributions of ranges laid end to end are those of the ranges,
    end to end. *)
Lemma contribs_concat d ranges : ∀ cs,
  contribs stod d (concat ranges) = Ok cs →
  ∃ css, Forall2 (λ rows cs', contribs stod d rows = Ok cs') ranges css ∧
         cs = concat css.
Proof.
  induction ranges as [|rows ranges IH]; intros cs Hcs; cbn [concat] in Hcs.
  - cbn in Hcs. simplify_eq. exists []. split; [constructor|done].
  - rewrite contribs_app in Hcs.
    destruct (contribs stod d rows) as [cs1|] eqn:H1; [|done].
    cbn [mbind result_bind] in Hcs.
    destruct (contribs stod d (concat ranges)) as [cs2|] eqn:H2; [|done].
    cbn [mbind result_bind] in Hcs. simplify_eq.
    destruct (IH _ eq_refl) as (css & Hall & ->).
    exists (cs1 :: css). split; [by constructor|done].
Qed.

Lemma tallies_of d ranges css :
  Forall2 (λ rows cs', contribs stod d rows = Ok cs') ranges css →
  tally stod d <$> ranges = foldl merge_pair ∅ <$> css.
Proof.
  induction 1 as [|rows cs' ranges css Hrows _ IH]; [done|].
  rewrite !fmap_cons, IH. unfold tally. by rewrite Hrows.
Qed.

Lemma thread_rows_Forall (P : Row → Prop) num_threads items i :
  Forall P items → Forall P (thread_rows num_threads items i).
Proof. intros H. unfold thread_rows, rows_between. by apply Forall_take, Forall_drop. Qed.

Lemma elem_of_thread_rows num_threads items i item :
  item ∈ thread_rows num_threads items i → item ∈ items.
Proof.
  intros Hin.
  pose proof (thread_rows_Forall (λ x, x ∈ items) num_threads items i) as H.
  rewrite !Forall_forall in H. by apply H.
Qed.

End scan_facts.

Section launch_facts.

Variable stod : string → exn + float.
Variable d : Locals.
Variable lineitem_data : list Row.
Variable num_threads : Z.

Hypothesis threads_pos : 1 ≤ num_threads.
Hypothesis items_size_t : Z.of_nat (length lineitem_data) < 2 ^ 64.
Hypothesis guarded : lookups_guarded d.

Let total_items := Z.of_nat (length lineitem_data).
Let bnd (k : Z) : nat := Z.to_nat (bound num_threads total_items k).

Lemma total_items_size_t : 0 ≤ total_items < 2 ^ 64.
Proof. unfold total_items. lia. Qed.

Lemma bnd_step k :
  0 ≤ k < num_threads →
  (bnd k ≤ bnd (k + 1) ≤ length lineitem_data)%nat ∧
  Z.of_nat (bnd k) = bound num_threads total_items k ∧
  Z.of_nat (bnd (k + 1)) = bound num_threads total_items (k + 1).
Proof.
  intros Hk.
  pose proof (bound_mono num_threads total_items threads_pos
                total_items_size_t k Hk) as Hm.
  unfold bnd. unfold total_items in *. lia.
Qed.

(** The range of thread [k] lies between the bounds [k] and [k + 1]. *)
Lemma thread_rows_take k :
  0 ≤ k < num_threads →
  thread_rows num_threads lineitem_data k =
    take (bnd (k + 1) - bnd k) (drop (bnd k) lineitem_data).
Proof.
  intros Hk. destruct (bnd_step k Hk) as ([Hle Hlen] & Hb & Hb').
  change (thread_rows num_threads lineitem_data k)
    with (rows_between (chunk_start (total_items / num_threads) k)
            (chunk_end num_threads total_items (total_items / num_threads) k)
            lineitem_data).
  rewrite (chunk_start_bound _ _ threads_pos total_items_size_t k Hk).
  rewrite (chunk_end_bound _ _ threads_pos total_items_size_t k Hk).
  unfold rows_between. fold (bnd k). f_equal. lia.
Qed.

(** The rows from the start of range [k] on: the rows of range [k], then
    the rows from the start of range [k + 1] on. *)
Lemma rows_split k :
  0 ≤ k < num_threads →
  let chunk := thread_rows num_threads lineitem_data k in
  length chunk = (bnd (k + 1) - bnd k)%nat ∧
  drop (bnd k) lineitem_data = (chunk ++ drop (bnd (k + 1)) lineitem_data)%list ∧
  lineitem_data =
    (take (bnd k) lineitem_data ++ chunk ++ drop (bnd (k + 1)) lineitem_data)%list.
Proof.
  intros Hk chunk. unfold chunk. rewrite (thread_rows_take k Hk).
  destruct (bnd_step k Hk) as [[Hle Hlen] _].
  assert (drop (bnd (k + 1)) lineitem_data
          = drop (bnd (k + 1) - bnd k) (drop (bnd k) lineitem_data)) as Hd.
  { rewrite drop_drop. f_equal. lia. }
  split_and!.
  - rewrite length_take, length_drop. lia.
  - by rewrite Hd, take_drop.
  - by rewrite Hd, take_drop, take_drop.
Qed.

Lemma launch_body_contribs k tr :
  0 ≤ k < num_threads →
  tr !! Z.to_nat k = Some ∅ →
  launch_body stod lineitem_data num_threads total_items
      (total_items / num_threads) (with_results d tr) k =
    in_thread (cs ← contribs stod d (thread_rows num_threads lineitem_data k);
               Ok (with_results d (<[Z.to_nat k := foldl merge_pair ∅ cs]> tr))).
Proof.
  intros Hk Htr. destruct (rows_split k Hk) as (Hlen & Hdrop & Hall).
  destruct (bnd_step k Hk) as ([Hle Hlen'] & Hb & Hb').
  unfold launch_body, launch_turn.
  rewrite (chunk_start_bound _ _ threads_pos total_items_size_t k Hk).
  rewrite (chunk_end_bound _ _ threads_pos total_items_size_t k Hk).
  rewrite <-Hb, <-Hb'.
  replace (Z.of_nat (bnd k))
    with (Z.of_nat (length (take (bnd k) lineitem_data)))
    by (rewrite length_take; lia).
  replace (Z.of_nat (bnd (k + 1)))
    with (Z.of_nat (length (take (bnd k) lineitem_data)
                    + length (thread_rows num_threads lineitem_data k)))
    by (rewrite length_take; lia).
  by rewrite (worker_contribs stod d lineitem_data k _ _ _ tr ∅ guarded Hall Htr).
Qed.

(** The ranges from thread [k] on, one after the other, are the rows from
    the start of range [k] on. *)
Lemma thread_ranges_from (m : nat) : ∀ (k : Z),
  0 ≤ k → k + Z.of_nat m = num_threads →
  concat (thread_rows num_threads lineitem_data <$> seqZ k (Z.of_nat m))
    = drop (bnd k) lineitem_data.
Proof.
  induction m as [|m IH]; intros k Hk0 Hkm.
  - rewrite seqZ_nil by lia.
    assert (bnd k = length lineitem_data) as ->.
    { unfold bnd. replace k with num_threads by lia.
      rewrite bound_last. unfold total_items. lia. }
    by rewrite drop_all.
  - rewrite seqZ_cons by lia. rewrite fmap_cons. cbn [concat].
    replace (Z.pred (Z.of_nat (S m))) with (Z.of_nat m) by lia.
    rewrite (IH (Z.succ k)) by lia.
    destruct (rows_split k) as (_ & -> & _); [lia|].
    by replace (Z.succ k) with (k + 1) by lia.
Qed.

Lemma thread_ranges_concat :
  concat (thread_ranges num_threads lineitem_data) = lineitem_data.
Proof.
  unfold thread_ranges.
  rewrite <-(Z2Nat.id num_threads) at 2 by lia.
  rewrite thread_ranges_from by lia.
  unfold bnd. by rewrite bound_first by lia.
Qed.

(** Threads [k], [k + 1], ... run in turn on accumulators that are still
    empty.  When no remaining row throws, the loop ends with every one of
    these threads holding the tally of its range; when one throws, the
    exception leaves a thread and ends the process. *)
Lemma launch_run (m : nat) : ∀ (k : Z) tr,
  0 ≤ k → k + Z.of_nat m = num_threads →
  length tr = Z.to_nat num_threads →
  (∀ i, (Z.to_nat k ≤ i < Z.to_nat num_threads)%nat → tr !! i = Some ∅) →
  for_each (launch_body stod lineitem_data num_threads total_items
              (total_items / num_threads))
           (seqZ k (Z.of_nat m)) (with_results d tr) =
    match contribs stod d (drop (bnd k) lineitem_data) with
    | Ok _ =>
        Ok (with_results d
              (take (Z.to_nat k) tr ++
               (tally stod d <$>
                  (thread_rows num_threads lineitem_data
                     <$> seqZ k (Z.of_nat m))))%list)
    | Err f => Err (thread_failure f)
    end.
Proof.
  induction m as [|m IH]; intros k tr Hk0 Hkm Hlen Hempty.
  - rewrite seqZ_nil by lia.
    assert (bnd k = length lineitem_data) as ->.
    { unfold bnd. replace k with num_threads by lia.
      rewrite bound_last. unfold total_items. lia. }
    rewrite drop_all. cbn. by rewrite take_ge, app_nil_r by lia.
  - rewrite seqZ_cons by lia. rewrite !fmap_cons. cbn [for_each].
    assert (0 ≤ k < num_threads) as Hk by lia.
    destruct (rows_split k Hk) as (_ & Hdrop & _).
    rewrite (launch_body_contribs k tr Hk) by (apply Hempty; lia).
    rewrite Hdrop, contribs_app. unfold tally at 1.
    destruct (contribs stod d (thread_rows num_threads lineitem_data k))
      as [cs1|f1].
    2:{ cbn [mbind result_bind]. by destruct f1. }
    cbn [mbind result_bind in_thread].
    replace (Z.pred (Z.of_nat (S m))) with (Z.of_nat m) by lia.
    rewrite (IH (Z.succ k) (<[Z.to_nat k := foldl merge_pair ∅ cs1]> tr));
      [|lia|lia|by rewrite length_insert|].
    2:{ intros i Hi. rewrite list_lookup_insert_ne by lia. apply Hempty. lia. }
    replace (Z.succ k) with (k + 1) by lia.
    destruct (contribs stod d (drop (bnd (k + 1)) lineitem_data)) as [cs2|f2];
      cbn [mbind result_bind]; [|done].
    do 2 f_equal.
    replace (Z.to_nat (k + 1)) with (S (Z.to_nat k)) by lia.
    rewrite (take_S_r _ _ (foldl merge_pair ∅ cs1))
      by (apply list_lookup_insert_eq; lia).
    rewrite take_insert_ge by lia. by rewrite <-(assoc_L (++)).
Qed.

(** The names the thread maps hold are the names of the contributions. *)
Lemma thread_sums_names cs name :
  contribs stod d lineitem_data = Ok cs →
  Exists (λ p, is_Some (p !! name)) (thread_sums stod d num_threads lineitem_data)
  ↔ name ∈ cs.*1.
Proof.
  intros Hcs. rewrite <-thread_ranges_concat in Hcs.
  apply contribs_concat in Hcs as (css & Hall & ->).
  unfold thread_sums. rewrite (tallies_of _ _ _ _ Hall). clear Hall.
  induction css as [|cs css IH].
  - cbn. rewrite Exists_nil. split; [done|]. by intros ?%elem_of_nil.
  - rewrite fmap_cons, Exists_cons, IH. cbn [concat].
    rewrite fmap_app, elem_of_app, tally_names. done.
Qed.

End launch_facts.

(** ** What the dimension filter guarantees *)

Lemma for_each_invariant {A S} (P : S → Prop) (body : S → A → result S) l :
  (∀ s x s', P s → body s x = Ok s' → P s') →
  ∀ s s', P s → for_each body l s = Ok s' → P s'.
Proof.
  intros Hbody. induction l as [|x l IH]; intros s s' Hs Hrun; simpl in Hrun.
  - by simplify_eq.
  - destruct (body s x) as [s1|] eqn:Hx; [|done]. eauto.
Qed.

Lemma values_in_insert target m k v :
  values_in target m → is_Some (target !! v) → values_in target (<[k := v]> m).
Proof.
  intros Hm Hv k' v'. rewrite lookup_insert.
  destruct (decide (k = k')); [naive_solver | apply Hm].
Qed.

Lemma member_body_values_in key_col nation_col nkn m c m' :
  values_in nkn m → member_body key_col nation_col nkn m c = Ok m' →
  values_in nkn m'.
Proof.
  intros Hm. unfold member_body, row_at.
  destruct (c !! nation_col) as [nk|]; [|done]. cbn [mbind result_bind].
  destruct (nkn !! nk) eqn:Hnk; [|naive_solver].
  cbn [mbind result_bind]. destruct (c !! key_col) as [k|]; [|done].
  cbn [mbind result_bind]. intros ?; simplify_eq.
  apply values_in_insert; [done|]. by rewrite Hnk.
Qed.

Lemma order_body_values_in start_date end_date vc m o m' :
  values_in vc m → order_body start_date end_date vc m o = Ok m' →
  values_in vc m'.
Proof.
  intros Hm. unfold order_body, row_at.
  destruct (o !! "o_orderdate") as [dt|]; [|done]. cbn [mbind result_bind].
  destruct (_ && _); [|naive_solver].
  destruct (o !! "o_custkey") as [c_key|]; [|done]. cbn [mbind result_bind].
  destruct (vc !! c_key) eqn:Hc; [|naive_solver].
  destruct (o !! "o_orderkey") as [k|]; [|done]. cbn [mbind result_bind].
  intros ?; simplify_eq. apply values_in_insert; [done|]. by rewrite Hc.
Qed.

Lemma values_in_empty target : values_in target ∅.
Proof. intros k v. by rewrite lookup_empty. Qed.

Lemma dimension_filter_guarded r_name start_date end_date customer_data
    orders_data supplier_data nation_data region_data d :
  dimension_filter r_name start_date end_date customer_data orders_data
    supplier_data nation_data region_data = Ok d →
  lookups_guarded d.
Proof.
  unfold dimension_filter. intros Hd.
  destruct (filter_regions _ _) as [keys|]; [|done]. cbn [mbind result_bind] in Hd.
  destruct (filter_nations _ _) as [nkn|]; [|done]. cbn [mbind result_bind] in Hd.
  destruct (filter_customers _ _) as [vc|] eqn:Hvc; [|done].
  cbn [mbind result_bind] in Hd.
  destruct (filter_suppliers _ _) as [vs|] eqn:Hvs; [|done].
  cbn [mbind result_bind] in Hd.
  destruct (filter_orders _ _ _ _) as [vo|] eqn:Hvo; [|done].
  cbn [mbind result_bind] in Hd. simplify_eq. split; cbn.
  - eapply (for_each_invariant (values_in vc));
      [|apply values_in_empty|exact Hvo].
    intros ????. by apply order_body_values_in.
  - eapply (for_each_invariant (values_in nkn));
      [|apply values_in_empty|exact Hvs].
    intros ????. by apply member_body_values_in.
Qed.

(** ** executeQuery5 through the contributions of the rows *)

Lemma executeQuery5_launch stod r_name start_date end_date num_threads
    customer_data orders_data lineitem_data supplier_data nation_data
    region_data results :
  executeQuery5 stod r_name start_date end_date num_threads customer_data
      orders_data lineitem_data supplier_data nation_data region_data results =
    dims ← dimension_filter r_name start_date end_date customer_data
              orders_data supplier_data nation_data region_data;
    if num_threads <? 0 then Err (Throws length_error) else
    if num_threads =? 0 then Err Undefined else
    st' ← for_each (launch_body stod lineitem_data num_threads
                      (Z.of_nat (length lineitem_data))
                      (Z.of_nat (length lineitem_data) / num_threads))
            (seqZ 0 num_threads)
            (with_results dims (replicate (Z.to_nat num_threads) ∅));
    Ok (true, merge_results results (thread_results st')).
Proof. reflexivity. Qed.

(** For a positive thread count and after the dimension filter, the call
    returns exactly when no row throws, and then merges the tallies of the
    ranges in thread order into [results]; when a row throws, the exception
    leaves a thread. *)
Lemma executeQuery5_scan stod r_name start_date end_date num_threads
    customer_data orders_data lineitem_data supplier_data nation_data
    region_data results d :
  1 ≤ num_threads →
  Z.of_nat (length lineitem_data) < 2 ^ 64 →
  dimension_filter r_name start_date end_date customer_data orders_data
    supplier_data nation_data region_data = Ok d →
  executeQuery5 stod r_name start_date end_date num_threads customer_data
    orders_data lineitem_data supplier_data nation_data region_data results =
  match contribs stod d lineitem_data with
  | Ok _ =>
      Ok (true,
          merge_results results (thread_sums stod d num_threads lineitem_data))
  | Err f => Err (thread_failure f)
  end.
Proof.
  intros HN HM Hd. rewrite executeQuery5_launch, Hd.
  cbn [mbind result_bind].
  pose proof (dimension_filter_guarded _ _ _ _ _ _ _ _ _ Hd) as Hg.
  destruct (Z.ltb_spec num_threads 0); [lia|].
  destruct (Z.eqb_spec num_threads 0); [lia|].
  rewrite <-(Z2Nat.id num_threads) at 3 by lia.
  rewrite (launch_run stod d lineitem_data num_threads HN HM Hg
             (Z.to_nat num_threads) 0 (replicate (Z.to_nat num_threads) ∅));
    [|lia|lia|by rewrite length_replicate|].
  2:{ intros i Hi. apply lookup_replicate_2. lia. }
  rewrite bound_first by lia. change (Z.to_nat 0) with 0%nat.
  rewrite drop_0, take_0.
  destruct (contribs stod d lineitem_data) as [cs|f];
    cbn [mbind result_bind thread_results with_results app]; [|done].
  unfold thread_sums, thread_ranges. by rewrite Z2Nat.id by lia.
Qed.

(** ** The filter loops on well-formed tables *)

Lemma for_each_pure {A S} (body : S → A → result S) (f : S → A → S) l :
  Forall (λ x, ∀ s, body s x = Ok (f s x)) l →
  ∀ s, for_each body l s = Ok (foldl f s l).
Proof.
  induction 1 as [|x l Hx _ IH]; intros s; simpl; [done|].
  rewrite Hx. apply IH.
Qed.

Section put_if_facts.

Context (P : Row → Prop) `{∀ r, Decision (P r)} (key_col val_col : string).

Lemma put_if_fold_absent l : ∀ m k,
  k ∉ (λ r, fld r key_col) <$> l →
  foldl (put_if P key_col val_col) m l !! k = m !! k.
Proof.
  induction l as [|x l IH]; intros m k Hk; [done|].
  rewrite fmap_cons, not_elem_of_cons in Hk. destruct Hk as [Hne Hk].
  cbn [foldl]. rewrite IH by done. unfold put_if.
  destruct (decide (P x)); [|done]. by rewrite lookup_insert_ne.
Qed.

(** Whatever the loop stores under [k] comes from a record that passes. *)
Lemma put_if_fold_origin l : ∀ m k v,
  foldl (put_if P key_col val_col) m l !! k = Some v →
  m !! k = Some v ∨
  ∃ r, r ∈ l ∧ P r ∧ fld r key_col = k ∧ fld r val_col = v.
Proof.
  induction l as [|x l IH]; intros m k v Hk; [by left|].
  cbn [foldl] in Hk. apply IH in Hk as [Hk|(r & ? & ? & ? & ?)].
  - unfold put_if in Hk. destruct (decide (P x)) as [HP|]; [|by left].
    rewrite lookup_insert in Hk. destruct (decide (fld x key_col = k)).
    + right. exists x. simplify_eq. split_and!; try done. apply list_elem_of_here.
    + by left.
  - right. exists r. split_and!; try done. by apply list_elem_of_further.
Qed.

Lemma put_if_fold_mono l : ∀ m k,
  is_Some (m !! k) → is_Some (foldl (put_if P key_col val_col) m l !! k).
Proof.
  induction l as [|x l IH]; intros m k Hk; [done|].
  cbn [foldl]. apply IH. unfold put_if.
  destruct (decide (P x)); [|done]. rewrite lookup_insert.
  by destruct (decide (fld x key_col = k)).
Qed.

(** A record that passes has its key in the map. *)
Lemma put_if_fold_present l : ∀ m r,
  r ∈ l → P r → is_Some (foldl (put_if P key_col val_col) m l !! fld r key_col).
Proof.
  induction l as [|x l IH]; intros m r Hr HP; [by apply elem_of_nil in Hr|].
  apply elem_of_cons in Hr as [->|Hr]; cbn [foldl]; [|by apply IH].
  apply put_if_fold_mono. unfold put_if. rewrite decide_True by done.
  by rewrite lookup_insert_eq.
Qed.

(** With unique keys a record that passes is stored with its own value. *)
Lemma put_if_fold_unique l : ∀ m r,
  NoDup ((λ r, fld r key_col) <$> l) → r ∈ l → P r →
  foldl (put_if P key_col val_col) m l !! fld r key_col = Some (fld r val_col).
Proof.
  induction l as [|x l IH]; intros m r Hnd Hr HP; [by apply elem_of_nil in Hr|].
  rewrite fmap_cons in Hnd. apply NoDup_cons in Hnd as [Hx Hnd].
  apply elem_of_cons in Hr as [->|Hr]; cbn [foldl]; [|by apply IH].
  rewrite put_if_fold_absent by done.
  unfold put_if. rewrite decide_True by done. by rewrite lookup_insert_eq.
Qed.

Lemma put_if_fold_none l :
  Forall (λ r, ¬ P r) l → ∀ m, foldl (put_if P key_col val_col) m l = m.
Proof.
  induction 1 as [|x l Hx _ IH]; intros m; [done|].
  cbn [foldl]. unfold put_if at 2. rewrite decide_False by done. apply IH.
Qed.

End put_if_facts.

Lemma region_body_pure r_name r :
  has_cols ["r_regionkey"; "r_name"] r →
  ∀ keys, region_body r_name keys r =
    Ok (keys ++ if decide (fld r "r_name" = r_name)
                then [fld r "r_regionkey"] else [])%list.
Proof.
  intros Hr keys. unfold region_body.
  rewrite (row_at_has r _ "r_name" Hr) by set_solver.
  cbn [mbind result_bind].
  destruct (String.eqb_spec (fld r "r_name") r_name) as [Heq|Hne].
  - rewrite (row_at_has r _ "r_regionkey" Hr) by set_solver.
    cbn [mbind result_bind]. by rewrite decide_True.
  - by rewrite decide_False, app_nil_r.
Qed.

Lemma filter_regions_pure r_name region_data :
  Forall (has_cols ["r_regionkey"; "r_name"]) region_data →
  filter_regions r_name region_data = Ok (region_keys r_name region_data).
Proof.
  unfold filter_regions, region_keys. intros Hwf.
  enough (∀ keys, for_each (region_body r_name) region_data keys
            = Ok (keys ++ ((λ r, fld r "r_regionkey")
                    <$> filter (λ r, fld r "r_name" = r_name) region_data))%list)
    as Hgen by apply Hgen.
  induction Hwf as [|r l Hr _ IH]; intros keys; cbn [for_each].
  - by rewrite filter_nil, app_nil_r.
  - rewrite (region_body_pure r_name r Hr). cbn [mbind result_bind].
    rewrite IH, filter_cons.
    destruct (decide (fld r "r_name" = r_name)).
    + by rewrite fmap_cons, <-(assoc_L (++)).
    + by rewrite app_nil_r.
Qed.

Lemma elem_of_region_keys r_name region_data k :
  k ∈ region_keys r_name region_data ↔
  ∃ r, r ∈ region_data ∧ fld r "r_name" = r_name ∧ fld r "r_regionkey" = k.
Proof.
  unfold region_keys. rewrite list_elem_of_fmap. split.
  - intros (r & -> & [Hn Hr]%list_elem_of_filter). by exists r.
  - intros (r & Hr & Hn & <-). exists r. split; [done|].
    by apply list_elem_of_filter.
Qed.

Lemma nation_inner_pure n :
  has_cols ["n_nationkey"; "n_name"; "n_regionkey"] n →
  ∀ m r_key, nation_inner n m r_key =
    Ok (if decide (fld n "n_regionkey" = r_key)
        then <[fld n "n_nationkey" := fld n "n_name"]> m else m).
Proof.
  intros Hn m r_key. unfold nation_inner.
  rewrite (row_at_has n _ "n_regionkey" Hn) by set_solver.
  cbn [mbind result_bind].
  destruct (String.eqb_spec (fld n "n_regionkey") r_key) as [Heq|Hne].
  - rewrite (row_at_has n _ "n_name" Hn) by set_solver.
    rewrite (row_at_has n _ "n_nationkey" Hn) by set_solver.
    cbn [mbind result_bind]. by rewrite decide_True.
  - by rewrite decide_False.
Qed.

(** The inner loop over the region keys stores the nation once or several
    times with the same name, or not at all. *)
Lemma nation_body_pure keys n :
  has_cols ["n_nationkey"; "n_name"; "n_regionkey"] n →
  ∀ m, nation_body keys m n =
    Ok (put_if (λ n, fld n "n_regionkey" ∈ keys) "n_nationkey" "n_name" m n).
Proof.
  intros Hn. unfold nation_body, put_if.
  induction keys as [|r keys IH]; intros m.
  - cbn [for_each]. by rewrite decide_False by apply not_elem_of_nil.
  - cbn [for_each]. rewrite (nation_inner_pure n Hn). cbn [mbind result_bind].
    rewrite IH.
    destruct (decide (fld n "n_regionkey" = r)) as [Heq|Hne].
    + rewrite (decide_True (P := fld n "n_regionkey" ∈ r :: keys))
        by (rewrite Heq; apply list_elem_of_here).
      destruct (decide (fld n "n_regionkey" ∈ keys)); [|done].
      by rewrite insert_insert_eq.
    + destruct (decide (fld n "n_regionkey" ∈ keys)) as [Hin|Hnin].
      * by rewrite decide_True by (by apply list_elem_of_further).
      * rewrite decide_False; [done|]. rewrite not_elem_of_cons. done.
Qed.

Lemma filter_nations_pure keys nation_data :
  Forall (has_cols ["n_nationkey"; "n_name"; "n_regionkey"]) nation_data →
  filter_nations keys nation_data = Ok (nation_names keys nation_data).
Proof.
  intros Hwf. unfold filter_nations, nation_names. apply for_each_pure.
  eapply Forall_impl; [exact Hwf|]. intros n Hn m. by apply nation_body_pure.
Qed.

Lemma member_body_pure key_col nation_col nkn c :
  has_cols [key_col; nation_col] c →
  ∀ m, member_body key_col nation_col nkn m c =
    Ok (put_if (λ c, is_Some (nkn !! fld c nation_col)) key_col nation_col m c).
Proof.
  intros Hc m. unfold member_body, put_if.
  rewrite (row_at_has c _ nation_col Hc) by set_solver.
  cbn [mbind result_bind].
  destruct (nkn !! fld c nation_col) eqn:Hn.
  - rewrite (row_at_has c _ key_col Hc) by set_solver.
    cbn [mbind result_bind]. by rewrite decide_True.
  - rewrite decide_False; [done|]. by intros [??].
Qed.

Lemma filter_members_pure key_col nation_col nkn table :
  Forall (has_cols [key_col; nation_col]) table →
  for_each (member_body key_col nation_col nkn) table ∅ =
    Ok (members key_col nation_col nkn table).
Proof.
  intros Hwf. unfold members. apply for_each_pure.
  eapply Forall_impl; [exact Hwf|]. intros c Hc m. by apply member_body_pure.
Qed.

Lemma order_body_pure start_date end_date vc o :
  has_cols ["o_orderkey"; "o_custkey"; "o_orderdate"] o →
  ∀ m, order_body start_date end_date vc m o =
    Ok (put_if (order_passes start_date end_date vc) "o_orderkey" "o_custkey" m o).
Proof.
  intros Ho m. unfold order_body, put_if.
  rewrite (row_at_has o _ "o_orderdate" Ho) by set_solver.
  rewrite (row_at_has o _ "o_custkey" Ho) by set_solver.
  rewrite (row_at_has o _ "o_orderkey" Ho) by set_solver.
  cbn [mbind result_bind].
  destruct (decide (order_passes start_date end_date vc o)) as [[Hw [c Hc]]|Hn].
  - by rewrite Hw, Hc.
  - destruct (str_ge _ _ && str_lt _ _) eqn:Hw; [|done].
    destruct (vc !! fld o "o_custkey") eqn:Hc; [|done].
    destruct Hn. split; [done|]. by rewrite Hc.
Qed.

Lemma filter_orders_pure start_date end_date vc orders_data :
  Forall (has_cols ["o_orderkey"; "o_custkey"; "o_orderdate"]) orders_data →
  filter_orders start_date end_date vc orders_data =
    Ok (window_orders start_date end_date vc orders_data).
Proof.
  intros Hwf. unfold filter_orders, window_orders. apply for_each_pure.
  eapply Forall_impl; [exact Hwf|]. intros o Ho m. by apply order_body_pure.
Qed.

Lemma dimension_filter_pure r_name start_date end_date customer_data
    orders_data lineitem_data supplier_data nation_data region_data :
  well_formed customer_data orders_data lineitem_data supplier_data
    nation_data region_data →
  dimension_filter r_name start_date end_date customer_data orders_data
      supplier_data nation_data region_data =
    Ok (dimensions r_name start_date end_date customer_data orders_data
          supplier_data nation_data region_data).
Proof.
  intros [Hc Ho _ Hs Hn Hr]. unfold dimension_filter, dimensions.
  rewrite (filter_regions_pure _ _ Hr). cbn [mbind result_bind].
  rewrite (filter_nations_pure _ _ Hn). cbn [mbind result_bind].
  unfold filter_customers, filter_suppliers.
  rewrite (filter_members_pure _ _ _ _ Hc). cbn [mbind result_bind].
  rewrite (filter_members_pure _ _ _ _ Hs). cbn [mbind result_bind].
  rewrite (filter_orders_pure _ _ _ _ Ho). done.
Qed.

Lemma in_window_code start_date end_date dt :
  in_window start_date end_date dt ↔
  str_ge dt start_date && str_lt dt end_date = true.
Proof.
  unfold in_window, str_ge, str_lt.
  rewrite (String.compare_antisym dt start_date).
  destruct (String.compare start_date dt), (String.compare dt end_date);
    cbn; intuition congruence.
Qed.

Lemma put_if_fold_lookup (P : Row → Prop) `{∀ r, Decision (P r)}
    key_col val_col l k v :
  NoDup ((λ r, fld r key_col) <$> l) →
  foldl (put_if P key_col val_col) ∅ l !! k = Some v ↔
  ∃ r, r ∈ l ∧ P r ∧ fld r key_col = k ∧ fld r val_col = v.
Proof.
  intros Hnd. split.
  - intros [Hk|Hr]%put_if_fold_origin; [by rewrite lookup_empty in Hk|done].
  - intros (r & Hr & HP & <- & <-). by apply put_if_fold_unique.
Qed.

(** ** Line items against the specification's wording *)

Section item_facts.

Variable stod : string → exn + float.
Variables r_name start_date end_date : string.
Variables customer_data orders_data lineitem_data supplier_data nation_data
  region_data : list Row.

Hypothesis wf :
  well_formed customer_data orders_data lineitem_data supplier_data
    nation_data region_data.
Hypothesis unique_customers : unique_keys "c_custkey" customer_data.
Hypothesis unique_orders : unique_keys "o_orderkey" orders_data.
Hypothesis unique_suppliers : unique_keys "s_suppkey" supplier_data.
Hypothesis unique_nations : unique_keys "n_nationkey" nation_data.

Local Abbreviation d :=
  (dimensions r_name start_date end_date customer_data orders_data
     supplier_data nation_data region_data).
Local Abbreviation Q :=
  (qualifies r_name start_date end_date customer_data orders_data
     supplier_data nation_data region_data).

Lemma dimensions_guarded : lookups_guarded d.
Proof.
  eapply dimension_filter_guarded.
  by apply (dimension_filter_pure _ _ _ _ _ lineitem_data).
Qed.

Lemma nation_lookup k name :
  nation_key_to_name d !! k = Some name ↔
  nation_in_region r_name nation_data region_data k name.
Proof.
  cbn [dimensions nation_key_to_name]. unfold nation_names, nation_in_region.
  rewrite put_if_fold_lookup by exact unique_nations.
  rewrite Exists_exists. split.
  - intros (n & Hn & Hreg & Hk & Hname). exists n. split_and!; try done.
    apply elem_of_region_keys in Hreg as (r & Hr & ? & ?).
    apply Exists_exists. by exists r.
  - intros (n & Hn & Hk & Hname & Hreg). exists n. split_and!; try done.
    apply Exists_exists in Hreg as (r & Hr & ? & ?).
    apply elem_of_region_keys. by exists r.
Qed.

Lemma customer_lookup k nk :
  valid_customers d !! k = Some nk ↔
  ∃ c, c ∈ customer_data ∧ is_Some (nation_key_to_name d !! fld c "c_nationkey") ∧
       fld c "c_custkey" = k ∧ fld c "c_nationkey" = nk.
Proof.
  cbn [dimensions valid_customers]. unfold members.
  by rewrite put_if_fold_lookup by exact unique_customers.
Qed.

Lemma supplier_lookup k nk :
  valid_suppliers d !! k = Some nk ↔
  ∃ s, s ∈ supplier_data ∧ is_Some (nation_key_to_name d !! fld s "s_nationkey") ∧
       fld s "s_suppkey" = k ∧ fld s "s_nationkey" = nk.
Proof.
  cbn [dimensions valid_suppliers]. unfold members.
  by rewrite put_if_fold_lookup by exact unique_suppliers.
Qed.

Lemma order_lookup k ck :
  valid_orders d !! k = Some ck ↔
  ∃ o, o ∈ orders_data ∧
       order_passes start_date end_date (valid_customers d) o ∧
       fld o "o_orderkey" = k ∧ fld o "o_custkey" = ck.
Proof.
  cbn [dimensions valid_orders]. unfold window_orders.
  by rewrite put_if_fold_lookup by exact unique_orders.
Qed.

(** The worker's filters accept a line item under the name [name] exactly
    when the item qualifies for [name] in the specification's sense. *)
Lemma joins_qualifies item name :
  Q name item ↔
  ∃ c_key s_nation,
    valid_orders d !! fld item "l_orderkey" = Some c_key ∧
    valid_suppliers d !! fld item "l_suppkey" = Some s_nation ∧
    valid_customers d !! c_key = Some s_nation ∧
    nation_key_to_name d !! s_nation = Some name.
Proof.
  unfold qualifies. rewrite Exists_exists. split.
  - intros (o & Ho & Hok & Hwin & Hc).
    apply Exists_exists in Hc as (c & Hc & Hck & Hs).
    apply Exists_exists in Hs as (s & Hs & Hsk & Hsn & Hnat).
    apply nation_lookup in Hnat.
    assert (valid_customers d !! fld c "c_custkey" = Some (fld c "c_nationkey"))
      as Hvc.
    { apply customer_lookup. exists c. split_and!; try done;
        by rewrite <-Hsn, Hnat. }
    exists (fld o "o_custkey"), (fld s "s_nationkey"). split_and!; [| | |done].
    + apply order_lookup. exists o. split_and!; try done. split.
      * by apply in_window_code.
      * by rewrite <-Hck, Hvc.
    + apply supplier_lookup. exists s. split_and!; try done; by rewrite Hnat.
    + by rewrite <-Hck, Hvc, Hsn.
  - intros (c_key & s_nation & Ho & Hs & Hc & Hn).
    apply order_lookup in Ho as (o & Ho & [Hwin _] & Hok & Hock).
    apply supplier_lookup in Hs as (s & Hs & _ & Hsk & Hsn).
    apply customer_lookup in Hc as (c & Hc & _ & Hck & Hcn).
    apply nation_lookup in Hn.
    exists o. split_and!; try done; [by apply in_window_code|].
    apply Exists_exists. exists c. split_and!; try done; [congruence|].
    apply Exists_exists. exists s. split_and!; try done; congruence.
Qed.

Lemma reads_inr s : reads stod s → ∃ q, stod s = inr q.
Proof. unfold reads. destruct (stod s); [done|eauto]. Qed.

(** A line item that has its columns, and whose numbers read when it
    qualifies, contributes nothing and qualifies for no name, or contributes
    its revenue under the one name it qualifies for. *)
Lemma contribution_spec item :
  has_cols ["l_orderkey"; "l_suppkey"; "l_extendedprice"; "l_discount"] item →
  (∀ name, Q name item → numeric stod item) →
  (contribution stod d item = Ok None ∧ ∀ name, ¬ Q name item) ∨
  (∃ nm, contribution stod d item = Ok (Some (nm, revenue_of stod item)) ∧
         ∀ name, Q name item ↔ name = nm).
Proof.
  intros Hcols Hnum.
  pose proof dimensions_guarded as [Hgo Hgs].
  unfold contribution, call_stod, revenue_of.
  rewrite (row_at_has item _ "l_orderkey" Hcols) by set_solver.
  rewrite (row_at_has item _ "l_suppkey" Hcols) by set_solver.
  rewrite (row_at_has item _ "l_extendedprice" Hcols) by set_solver.
  rewrite (row_at_has item _ "l_discount" Hcols) by set_solver.
  cbn [mbind result_bind].
  destruct (valid_orders d !! fld item "l_orderkey") as [c_key|] eqn:Ho.
  2:{ left. split; [done|]. intros name. rewrite joins_qualifies.
      intros (? & ? & ? & _). congruence. }
  destruct (valid_suppliers d !! fld item "l_suppkey") as [s_nation|] eqn:Hs.
  2:{ left. split; [done|]. intros name. rewrite joins_qualifies.
      intros (? & ? & ? & ? & _). congruence. }
  destruct (Hgo _ _ Ho) as [c_nation Hc]. destruct (Hgs _ _ Hs) as [nm Hn].
  rewrite Hc, Hn. unfold default, id.
  destruct (String.eqb_spec c_nation s_nation) as [->|Hne].
  - assert (Q nm item) as Hq.
    { apply joins_qualifies. by exists c_key, s_nation. }
    destruct (Hnum nm Hq) as [[price Hp]%reads_inr [discount Ht]%reads_inr].
    rewrite !Hp, !Ht. cbn [mbind result_bind].
    right. exists nm. split; [done|]. intros name. split; [|by intros ->].
    rewrite joins_qualifies. intros (? & ? & ? & ? & ? & ?). congruence.
  - left. split; [done|]. intros name. rewrite joins_qualifies.
    intros (? & ? & ? & ? & ? & ?). congruence.
Qed.

(** The contributions of a list of rows, key by key, against the
    qualifying rows of the list. *)
Lemma contribs_spec items :
  Forall (has_cols ["l_orderkey"; "l_suppkey"; "l_extendedprice"; "l_discount"])
         items →
  (∀ item name, item ∈ items → Q name item → numeric stod item) →
  ∃ cs, contribs stod d items = Ok cs ∧
    ∀ name,
      (name ∈ cs.*1 ↔ filter (Q name) items ≠ []) ∧
      revenues_under name cs = revenue_of stod <$> filter (Q name) items.
Proof.
  induction 1 as [|item items Hcols _ IH]; intros Hnum.
  - exists []. split; [done|]. intros name. split; [|done].
    split; [by intros ?%elem_of_nil|done].
  - destruct IH as (cs & Hcs & Hspec).
    { intros ?? Hin. apply Hnum. by apply list_elem_of_further. }
    destruct (contribution_spec item Hcols)
      as [[Hc HQ]|(nm & Hc & HQ)]; cbn [contribs]; rewrite ?Hc, ?Hcs.
    { intros name. apply Hnum, list_elem_of_here. }
    + exists cs. split; [done|]. intros name.
      by rewrite filter_cons, decide_False by apply HQ.
    + exists ((nm, revenue_of stod item) :: cs). split; [done|]. intros name.
      destruct (Hspec name) as [Hdom Hsum].
      rewrite filter_cons, revenues_under_cons, fmap_cons. cbn [fst].
      destruct (decide (nm = name)) as [<-|Hne].
      * rewrite decide_True by (by apply HQ). split.
        -- split; [done|]. intros _. apply list_elem_of_here.
        -- rewrite fmap_cons. by rewrite Hsum.
      * rewrite decide_False by (rewrite HQ; congruence). split; [|done].
        rewrite elem_of_cons, <-Hdom.
        split; [intros [?|?]; [congruence|done] | by right].
Qed.

End item_facts.

(** ** Exceptions of the scan *)

Section failures.

Variable stod : string → exn + float.

Lemma contribution_throws d item f :
  contribution stod d item = Err f → ∃ e, f = Throws e.
Proof.
  unfold contribution, row_at, call_stod.
  repeat first
    [ progress cbn [mbind result_bind]
    | match goal with
      | |- context [match ?x with _ => _ end] => destruct x
      end ];
    intros ?; simplify_eq; eauto.
Qed.

Lemma contribs_throws d items f :
  contribs stod d items = Err f → ∃ e, f = Throws e.
Proof.
  induction items as [|x items IH]; [done|]. cbn [contribs].
  destruct (contribution stod d x) as [c|f'] eqn:Hc.
  - cbn [mbind result_bind].
    destruct (contribs stod d items) as [cs|f'']; [done|].
    cbn [mbind result_bind]. intros ?; simplify_eq. by apply IH.
  - cbn [mbind result_bind]. intros ?; simplify_eq.
    by apply contribution_throws in Hc.
Qed.

Lemma contribs_fails d items item :
  item ∈ items → ¬ is_Ok (contribution stod d item) →
  ¬ is_Ok (contribs stod d items).
Proof.
  induction items as [|x items IH]; intros Hin Hbad.
  - by apply elem_of_nil in Hin.
  - cbn [contribs]. apply elem_of_cons in Hin as [<-|Hin].
    + destruct (contribution stod d item); cbn in *; tauto.
    + destruct (contribution stod d x); cbn [mbind result_bind]; [|by intros []].
      specialize (IH Hin Hbad).
      destruct (contribs stod d items); cbn in *; tauto.
Qed.

Lemma contribs_succeeds d items :
  Forall (λ item, is_Ok (contribution stod d item)) items →
  is_Ok (contribs stod d items).
Proof.
  induction 1 as [|x items Hx _ IH]; [done|]. cbn [contribs].
  destruct (contribution stod d x); [|done]. cbn [mbind result_bind].
  by destruct (contribs stod d items).
Qed.

(** A row that joins and whose numbers do not read makes the scan throw. *)
Lemma contribution_unreadable d item :
  joins d item → ¬ numeric stod item →
  ¬ is_Ok (contribution stod d item).
Proof.
  intros (c_key & s_nation & Ho & Hs & Hc) Hnum Hok. apply Hnum. revert Hok.
  unfold contribution, row_at, numeric, call_stod, fld in *.
  destruct (item !! "l_orderkey") as [o_key|]; [|by intros []].
  destruct (item !! "l_suppkey") as [s_key|]; [|by intros []].
  cbn [mbind result_bind default] in *. unfold id in *. rewrite Ho, Hs, Hc.
  cbn [default]. unfold id. rewrite String.eqb_refl.
  destruct (item !! "l_extendedprice") as [p|]; [|by intros []].
  cbn [mbind result_bind default]. unfold id.
  unfold reads.
  destruct (stod p) as [|price]; [by intros []|].
  destruct (item !! "l_discount") as [t|]; [|by intros []].
  cbn [mbind result_bind default]. unfold id.
  destruct (stod t) as [|discount]; [by intros []|]. done.
Qed.

(** A row that has its key columns and does not join is passed over; its
    price and discount are not looked at. *)
Lemma contribution_skipped d item :
  lookups_guarded d →
  has_cols ["l_orderkey"; "l_suppkey"] item → ¬ joins d item →
  contribution stod d item = Ok None.
Proof.
  intros [Hgo _] Hcols Hj. unfold contribution.
  rewrite (row_at_has item _ "l_orderkey" Hcols) by set_solver.
  rewrite (row_at_has item _ "l_suppkey" Hcols) by set_solver.
  cbn [mbind result_bind].
  destruct (valid_orders d !! fld item "l_orderkey") as [c_key|] eqn:Ho; [|done].
  destruct (valid_suppliers d !! fld item "l_suppkey") as [s_nation|] eqn:Hs;
    [|done].
  destruct (Hgo _ _ Ho) as [c_nation Hc]. rewrite Hc. unfold default, id.
  destruct (String.eqb_spec c_nation s_nation) as [->|]; [|done].
  destruct Hj. by exists c_key, s_nation.
Qed.

Lemma contribution_readable d item :
  has_cols ["l_orderkey"; "l_suppkey"; "l_extendedprice"; "l_discount"] item →
  numeric stod item →
  is_Ok (contribution stod d item).
Proof.
  intros Hcols [Hp Ht]. unfold reads in *.
  destruct (stod (fld item "l_extendedprice")) as [|price] eqn:Hp'; [done|].
  destruct (stod (fld item "l_discount")) as [|discount] eqn:Ht'; [done|].
  unfold contribution, call_stod.
  rewrite (row_at_has item _ "l_orderkey" Hcols) by set_solver.
  rewrite (row_at_has item _ "l_suppkey" Hcols) by set_solver.
  rewrite (row_at_has item _ "l_extendedprice" Hcols) by set_solver.
  rewrite (row_at_has item _ "l_discount" Hcols) by set_solver.
  cbn [mbind result_bind]. rewrite Hp', Ht'. cbn [mbind result_bind].
  repeat match goal with
         | |- context [match ?x with _ => _ end] => destruct x
         end; done.
Qed.

End failures.

Lemma joins_or_not d item : joins d item ∨ ¬ joins d item.
Proof.
  unfold joins.
  destruct (valid_orders d !! fld item "l_orderkey") as [c_key|] eqn:Ho;
    [|right; intros (? & ? & ? & _); congruence].
  destruct (valid_suppliers d !! fld item "l_suppkey") as [s_nation|] eqn:Hs;
    [|right; intros (? & ? & ? & ? & _); congruence].
  destruct (decide (valid_customers d !! c_key = Some s_nation)) as [Hc|Hc].
  - left. by exists c_key, s_nation.
  - right. intros (? & ? & ? & ? & ?). congruence.
Qed.

(** ** Comparing doubles *)

Lemma is_nan_rank x : is_nan x = true ↔ (rank x).1.1 = 3.
Proof.
  unfold is_nan, rank. rewrite FloatAxioms.eqb_spec. unfold SFeqb.
  destruct (Prim2SF x) as [[]|[]| |[] m e]; cbn; try (split; [done|lia]);
    try done.
  all: rewrite Z.compare_refl, ?Pos.compare_cont_refl; cbn;
    rewrite ?Pos.compare_refl; cbn; split; try done; lia.
Qed.

Lemma not_nan_rank x : is_nan x = false ↔ (rank x).1.1 ≠ 3.
Proof.
  rewrite <-is_nan_rank. destruct (is_nan x); split; congruence.
Qed.

(** [x < y] on doubles that are not NaN is the order of the ranks. *)
Lemma ltb_before x y :
  is_nan x = false → is_nan y = false →
  (x <? y)%float = true ↔ before (rank x) (rank y).
Proof.
  intros Hx%not_nan_rank Hy%not_nan_rank. revert Hx Hy.
  rewrite FloatAxioms.ltb_spec. unfold SFltb, rank, before.
  destruct (Prim2SF x) as [[]|[]| |[] m1 e1], (Prim2SF y) as [[]|[]| |[] m2 e2];
    cbn; intros ??; try done; try (split; [intros _; lia|done]);
    try (split; [done|lia]).
  - destruct (Z.compare_spec e1 e2) as [->| |].
    + change (Pos.compare_cont Eq m1 m2) with (Pos.compare m1 m2).
      destruct (Pos.compare_spec m1 m2); cbn; split; try done; lia.
    + split; [done|lia].
    + split; [intros _; lia|done].
  - destruct (Z.compare_spec e1 e2) as [->| |].
    + change (Pos.compare_cont Eq m1 m2) with (Pos.compare m1 m2).
      destruct (Pos.compare_spec m1 m2); cbn; split; try done; lia.
    + split; [intros _; lia|done].
    + split; [done|lia].
Qed.

Lemma leb_before x y :
  is_nan x = false → is_nan y = false →
  (x <=? y)%float = true ↔ ¬ before (rank y) (rank x).
Proof.
  intros Hx%not_nan_rank Hy%not_nan_rank. revert Hx Hy.
  rewrite FloatAxioms.leb_spec. unfold SFleb, rank, before.
  destruct (Prim2SF x) as [[]|[]| |[] m1 e1], (Prim2SF y) as [[]|[]| |[] m2 e2];
    cbn; intros ??; try done; try (split; [intros _; lia|done]);
    try (split; [done|lia]).
  - destruct (Z.compare_spec e1 e2) as [->| |].
    + change (Pos.compare_cont Eq m1 m2) with (Pos.compare m1 m2).
      destruct (Pos.compare_spec m1 m2); cbn; split; try done; lia.
    + split; [done|lia].
    + split; [intros _; lia|done].
  - destruct (Z.compare_spec e1 e2) as [->| |].
    + change (Pos.compare_cont Eq m1 m2) with (Pos.compare m1 m2).
      destruct (Pos.compare_spec m1 m2); cbn; split; try done; lia.
    + split; [intros _; lia|done].
    + split; [done|lia].
Qed.

(** A comparison with NaN is false. *)
Lemma ltb_nan_l x y : is_nan x = true → (x <? y)%float = false.
Proof.
  intros Hx. apply is_nan_rank in Hx. rewrite FloatAxioms.ltb_spec.
  unfold SFltb. unfold rank in Hx.
  destruct (Prim2SF x) as [[]|[]| |[] m e]; cbn in *; done.
Qed.

Lemma ltb_nan_r x y : is_nan y = true → (x <? y)%float = false.
Proof.
  intros Hy. apply is_nan_rank in Hy. rewrite FloatAxioms.ltb_spec.
  unfold SFltb. unfold rank in Hy.
  destruct (Prim2SF y) as [[]|[]| |[] m e]; cbn in *; try done;
    by destruct (Prim2SF x) as [[]|[]| |[] m' e'].
Qed.

Lemma ltb_true_not_nan x y :
  (x <? y)%float = true → is_nan x = false ∧ is_nan y = false.
Proof.
  intros Hlt. split.
  - destruct (is_nan x) eqn:Hx; [|done]. by rewrite ltb_nan_l in Hlt.
  - destruct (is_nan y) eqn:Hy; [|done]. by rewrite ltb_nan_r in Hlt.
Qed.

Lemma ltb_irrefl x : (x <? x)%float = false.
Proof.
  destruct (is_nan x) eqn:Hx; [by apply ltb_nan_l|].
  destruct (x <? x)%float eqn:Hlt; [|done].
  apply ltb_before in Hlt; [|done..]. unfold before in Hlt. lia.
Qed.

Lemma ltb_trans x y z :
  (x <? y)%float = true → (y <? z)%float = true → (x <? z)%float = true.
Proof.
  intros Hxy Hyz.
  destruct (ltb_true_not_nan _ _ Hxy) as [Hx Hy].
  destruct (ltb_true_not_nan _ _ Hyz) as [_ Hz].
  apply ltb_before in Hxy, Hyz; [|done..]. apply ltb_before; [done..|].
  unfold before in *. lia.
Qed.

(** Of two doubles that are not NaN, neither of which is below the other,
    each one stands where the other does in every comparison. *)
Lemma ltb_equivalent x y z :
  is_nan x = false → is_nan y = false → is_nan z = false →
  (x <? y)%float = false → (y <? x)%float = false →
  (x <? z)%float = (y <? z)%float ∧ (z <? x)%float = (z <? y)%float.
Proof.
  intros Hx Hy Hz Hxy Hyx.
  assert (¬ before (rank x) (rank y)) as H1
    by (rewrite <-ltb_before by done; congruence).
  assert (¬ before (rank y) (rank x)) as H2
    by (rewrite <-ltb_before by done; congruence).
  split; apply eq_true_iff_eq; rewrite !ltb_before by done;
    unfold before in *; lia.
Qed.

Lemma ltb_false_leb x y :
  is_nan x = false → is_nan y = false →
  (x <? y)%float = false → (y <=? x)%float = true.
Proof.
  intros Hx Hy Hlt. apply leb_before; [done..|].
  rewrite <-ltb_before by done. congruence.
Qed.

(** ** The comparison of outputResults *)

(** On pairs none of whose revenues is NaN the lambda meets std::sort's
    requirement. *)
Lemma by_revenue_desc_strict_weak (l : list (string * float)) :
  Forall (λ p, is_nan p.2 = false) l → strict_weak_order by_revenue_desc l.
Proof.
  rewrite Forall_forall. intros Hl. unfold by_revenue_desc. split_and!.
  - intros x _. apply ltb_irrefl.
  - intros x y z _ _ _ Hxy Hyz. by eapply ltb_trans.
  - intros x y z Hx Hy Hz Hxy Hyx Hyz Hzy.
    destruct (ltb_equivalent y.2 x.2 z.2) as [H1 H2]; auto.
    rewrite <-H1, <-H2 in *. done.
Qed.

(** So it does when any two pairs compare one way or the other. *)
Lemma by_revenue_desc_strict_weak_total (l : list (string * float)) :
  (∀ x y, x ∈ l → y ∈ l → x ≠ y →
     by_revenue_desc x y = true ∨ by_revenue_desc y x = true) →
  strict_weak_order by_revenue_desc l.
Proof.
  intros Htotal. split_and!.
  - intros x _. apply ltb_irrefl.
  - intros x y z _ _ _ Hxy Hyz. unfold by_revenue_desc in *. by eapply ltb_trans.
  - intros x y z Hx Hy Hz Hxy Hyx Hyz Hzy.
    assert (x = y) as ->.
    { destruct (decide (x = y)) as [|Hne]; [done|].
      destruct (Htotal x y Hx Hy Hne); congruence. }
    done.
Qed.

Lemma no_nan_items (results : gmap string float) :
  no_nan results → Forall (λ p, is_nan p.2 = false) (map_items results).
Proof.
  intros Hno. apply Forall_forall. intros [name v] Hin.
  apply elem_of_map_items in Hin. by eapply Hno.
Qed.

Lemma has_cols_keys item :
  has_cols ["l_orderkey"; "l_suppkey"; "l_extendedprice"; "l_discount"] item →
  has_cols ["l_orderkey"; "l_suppkey"] item.
Proof. unfold has_cols. rewrite !Forall_cons, !Forall_nil. tauto. Qed.

Lemma contribs_none stod d items :
  Forall (λ item, contribution stod d item = Ok None) items →
  contribs stod d items = Ok [].
Proof.
  induction 1 as [|x items Hx _ IH]; [done|].
  cbn [contribs]. by rewrite Hx, IH.
Qed.

Lemma dimensions_no_region r_name start_date end_date customer_data orders_data
    supplier_data nation_data region_data :
  Forall (λ r, fld r "r_name" ≠ r_name) region_data →
  dimensions r_name start_date end_date customer_data orders_data
    supplier_data nation_data region_data = mkLocals ∅ ∅ ∅ ∅ [].
Proof.
  intros Hnone. unfold dimensions.
  assert (region_keys r_name region_data = []) as ->.
  { unfold region_keys. induction Hnone as [|r l Hr _ IH]; [done|].
    by rewrite filter_cons, decide_False. }
  assert (nation_names [] nation_data = ∅) as ->.
  { unfold nation_names. apply put_if_fold_none, Forall_forall.
    intros n _. apply not_elem_of_nil. }
  assert (∀ kc nc table, members kc nc ∅ table = ∅) as Hmem.
  { intros. unfold members. apply put_if_fold_none, Forall_forall.
    intros c _. rewrite lookup_empty. by intros [??]. }
  rewrite !Hmem. f_equal. unfold window_orders.
  apply put_if_fold_none, Forall_forall.
  intros o _ [_ [? Hc]]. by rewrite lookup_empty in Hc.
Qed.


Lemma executeQuery5_returns_true stod r_name start_date end_date num_threads
    customer_data orders_data lineitem_data supplier_data nation_data
    region_data results b out :
  executeQuery5 stod r_name start_date end_date num_threads customer_data
    orders_data lineitem_data supplier_data nation_data region_data results
    = Ok (b, out) →
  b = true.
Proof.
  rewrite executeQuery5_launch.
  destruct (dimension_filter _ _ _ _ _ _ _ _); [|done].
  cbn [mbind result_bind].
  destruct (num_threads <? 0); [done|]. destruct (num_threads =? 0); [done|].
  destruct (for_each _ _ _); [|done]. cbn [mbind result_bind].
  by intros ?; simplify_eq.
Qed.

(** ** Sorting *)

Lemma sorted_by_nil {A} (comp : A → A → bool) : sorted_by comp [].
Proof. intros i j x y _ Hi. by rewrite lookup_nil in Hi. Qed.

Lemma sorted_by_cons {A} (comp : A → A → bool) x l :
  sorted_by comp (x :: l) ↔
  (∀ y, y ∈ l → comp y x = false) ∧ sorted_by comp l.
Proof.
  split.
  - intros Hs. split.
    + intros y [j Hj]%list_elem_of_lookup_1.
      apply (Hs 0%nat (S j) x y); [lia|done|done].
    + intros i j a b Hij Hi Hj. apply (Hs (S i) (S j) a b); [lia|done|done].
  - intros [Hx Hs] i j a b Hij Hi Hj. destruct j as [|j]; [lia|].
    cbn in Hj. destruct i as [|i]; cbn in Hi.
    + simplify_eq. apply Hx. by eapply list_elem_of_lookup_2.
    + apply (Hs i j a b); [lia|done|done].
Qed.

Lemma strict_weak_order_asym {A} (comp : A → A → bool) l x y :
  strict_weak_order comp l → x ∈ l → y ∈ l →
  comp x y = true → comp y x = false.
Proof.
  intros (Hirr & Htr & _) Hx Hy Hxy. destruct (comp y x) eqn:Hyx; [|done].
  by rewrite <-(Hirr x Hx), (Htr x y x).
Qed.

Lemma strict_weak_order_neg_trans {A} (comp : A → A → bool) l x y z :
  strict_weak_order comp l → x ∈ l → y ∈ l → z ∈ l →
  comp z y = false → comp y x = false → comp z x = false.
Proof.
  intros (Hirr & Htr & Hinc) Hx Hy Hz Hzy Hyx.
  destruct (comp z x) eqn:Hzx; [|done].
  destruct (comp y z) eqn:Hyz.
  { by rewrite (Htr y z x) in Hyx. }
  destruct (comp x y) eqn:Hxy.
  { by rewrite (Htr z x y) in Hzy. }
  destruct (Hinc z y x) as [Hzx' _]; try done. congruence.
Qed.

Lemma strict_weak_order_incl {A} (comp : A → A → bool) (l l' : list A) :
  (∀ x, x ∈ l' → x ∈ l) → strict_weak_order comp l → strict_weak_order comp l'.
Proof.
  intros Hsub (Hirr & Htr & Hinc). split_and!.
  - intros x Hx. by apply Hirr, Hsub.
  - intros x y z Hx Hy Hz. apply Htr; by apply Hsub.
  - intros x y z Hx Hy Hz. apply Hinc; by apply Hsub.
Qed.

Lemma insert_by_perm {A} (comp : A → A → bool) x l :
  insert_by comp x l ≡ₚ x :: l.
Proof.
  induction l as [|y l IH]; [done|]. cbn.
  destruct (comp y x); [|done]. rewrite IH. apply Permutation_swap.
Qed.

Lemma insert_by_sorted {A} (comp : A → A → bool) x l :
  strict_weak_order comp (x :: l) → sorted_by comp l →
  sorted_by comp (insert_by comp x l).
Proof.
  induction l as [|y l IH]; intros Hswo Hs; cbn.
  - apply sorted_by_cons. split; [by intros ? ?%elem_of_nil|apply sorted_by_nil].
  - apply sorted_by_cons in Hs as [Hy Hs]. destruct (comp y x) eqn:Hyx.
    + apply sorted_by_cons. split.
      * intros z Hz. rewrite insert_by_perm in Hz.
        apply elem_of_cons in Hz as [->|Hz]; [|by apply Hy].
        eapply strict_weak_order_asym; [done|by right; left|by left|done].
      * apply IH; [|done].
        eapply strict_weak_order_incl; [|done].
        intros z [->|Hz]%elem_of_cons; [by left|by do 2 right].
    + apply sorted_by_cons. split; [|by apply sorted_by_cons].
      intros z [->|Hz]%elem_of_cons; [done|].
      eapply (strict_weak_order_neg_trans comp _ x y z);
        [done|by left|by right; left|by do 2 right|by apply Hy|done].
Qed.

Lemma insertion_sort_contract : sort_contract insertion_sort.
Proof.
  intros A comp l. unfold insertion_sort.
  induction l as [|x l IH]; intros Hswo.
  - split; [done|apply sorted_by_nil].
  - destruct IH as [IHp IHs].
    { eapply strict_weak_order_incl; [|done]. intros y Hy. by right. }
    cbn. split; [by rewrite insert_by_perm, IHp|].
    apply insert_by_sorted; [|done].
    eapply strict_weak_order_incl; [|done].
    intros y Hy. by rewrite IHp in Hy.
Qed.

Lemma insertion_sort_rev_contract : sort_contract insertion_sort_rev.
Proof.
  intros A comp l Hswo. unfold insertion_sort_rev.
  destruct (insertion_sort_contract A comp (reverse l)) as [Hp Hs].
  { eapply strict_weak_order_incl; [|done].
    intros x Hx. by rewrite reverse_Permutation in Hx. }
  split; [by rewrite Hp, reverse_Permutation|done].
Qed.

(** ** The command line *)

Lemma args_rejected_missing a : args_rejected a = true ↔ args_missing a.
Proof.
  unfold args_rejected, args_missing, empty.
  rewrite !orb_true_iff, !String.eqb_eq, Z.leb_le. tauto.
Qed.

(** The only way out of the flag loop other than its end is an exception
    of std::stoi on one of the words. *)
Lemma parse_flags_failure (n : nat) : ∀ rest a f,
  (length rest ≤ n)%nat →
  parse_flags rest a = Err f → ∃ v, v ∈ rest ∧ stoi v = Err f.
Proof.
  induction n as [|n IH]; intros rest a f Hlen Hf.
  - destruct rest; [done|simpl in Hlen; lia].
  - destruct rest as [|arg [|v rest]]; [done|done|].
    cbn [length] in Hlen. cbn [parse_flags] in Hf.
    assert (∀ a', parse_flags rest a' = Err f → ∃ v0, v0 ∈ arg :: v :: rest ∧ stoi v0 = Err f)
      as Hrest.
    { intros a' Ha'. destruct (IH rest a' f) as (v0 & Hv0 & Hs); [lia|done|].
      exists v0. split; [|done]. by do 2 apply list_elem_of_further. }
    repeat (destruct (String.eqb arg _); [by eapply Hrest|]).
    destruct (String.eqb arg "--threads").
    { destruct (stoi v) as [k|f'] eqn:Hv; cbn [mbind result_bind] in Hf.
      - by eapply Hrest.
      - simplify_eq. exists v. split; [|done].
        apply list_elem_of_further, list_elem_of_here. }
    repeat (destruct (String.eqb arg _); [by eapply Hrest|]).
    destruct (IH (v :: rest) a f) as (v0 & Hv0 & Hs); [cbn; lia|done|].
    exists v0. split; [by apply list_elem_of_further|done].
Qed.

Lemma stoi_failure s f :
  stoi s = Err f → f = Throws invalid_argument ∨ f = Throws out_of_range.
Proof.
  unfold stoi. destruct (skip_space s) as [|[[] [] [] [] [] [] [] []] t];
    repeat case_match; intros ?; simplify_eq; auto.
Qed.

(** The flag loop ends exactly when std::stoi converts every word it is
    handed. *)
Lemma parse_flags_returns (n : nat) : ∀ rest a,
  (length rest ≤ n)%nat →
  is_Ok (parse_flags rest a) ↔ Forall (λ v, is_Ok (stoi v)) (threads_values rest).
Proof.
  induction n as [|n IH]; intros rest a Hlen.
  - destruct rest; [done|simpl in Hlen; lia].
  - destruct rest as [|arg [|v rest]]; [done|done|].
    cbn [length] in Hlen.
    assert (∀ a', is_Ok (parse_flags rest a') ↔
                  Forall (λ v, is_Ok (stoi v)) (threads_values rest)) as Hskip2
      by (intros; apply IH; lia).
    assert (is_Ok (parse_flags (v :: rest) a) ↔
            Forall (λ v, is_Ok (stoi v)) (threads_values (v :: rest))) as Hskip1
      by (apply IH; cbn; lia).
    clear IH. cbn [parse_flags threads_values].
    destruct (String.eqb arg "--r_name"); [apply Hskip2|].
    destruct (String.eqb arg "--start_date"); [apply Hskip2|].
    destruct (String.eqb arg "--end_date"); [apply Hskip2|].
    cbn [orb].
    destruct (String.eqb arg "--threads").
    { rewrite Forall_cons. destruct (stoi v) as [k|f']; cbn [mbind result_bind].
      - rewrite Hskip2. cbn. tauto.
      - cbn. tauto. }
    destruct (String.eqb arg "--table_path"); [apply Hskip2|].
    destruct (String.eqb arg "--result_path"); [apply Hskip2|].
    cbn [orb]. exact Hskip1.
Qed.

(** ** Every schedule of the threads gives the same accumulators *)

Lemma rows_between_empty a items : rows_between a a items = [].
Proof. unfold rows_between. by rewrite Z.sub_diag. Qed.

Lemma rows_between_snoc a pc items item :
  0 ≤ a ≤ pc → items !! Z.to_nat pc = Some item →
  rows_between a (pc + 1) items = (rows_between a pc items ++ [item])%list.
Proof.
  intros Ha Hitem. unfold rows_between.
  replace (Z.to_nat (pc + 1 - a)) with (S (Z.to_nat (pc - a))) by lia.
  apply take_S_r. rewrite lookup_drop.
  by replace (Z.to_nat a + Z.to_nat (pc - a))%nat with (Z.to_nat pc) by lia.
Qed.

Section pool_facts.

Variable stod : string → exn + float.
Variable d : Locals.
Variable lineitem_data : list Row.
Variable num_threads : Z.

Hypothesis threads_pos : 1 ≤ num_threads.
Hypothesis items_size_t : Z.of_nat (length lineitem_data) < 2 ^ 64.
Hypothesis guarded : lookups_guarded d.

Local Abbreviation total_items := (Z.of_nat (length lineitem_data)).
Local Abbreviation chunk_size := (total_items / num_threads).
Local Abbreviation lo := (bound num_threads total_items).
Local Abbreviation step :=
  (pool_step stod lineitem_data num_threads total_items chunk_size).
Local Abbreviation runs :=
  (pool_runs stod lineitem_data num_threads total_items chunk_size).
Local Abbreviation invariant := (pool_inv stod d lineitem_data num_threads).

Lemma bound_range (i : nat) :
  (i < Z.to_nat num_threads)%nat →
  0 ≤ lo (Z.of_nat i) ≤ lo (Z.of_nat i + 1) ∧
  lo (Z.of_nat i + 1) ≤ total_items ∧
  chunk_start chunk_size (Z.of_nat i) = lo (Z.of_nat i) ∧
  chunk_end num_threads total_items chunk_size (Z.of_nat i) = lo (Z.of_nat i + 1).
Proof.
  intros Hi. assert (0 ≤ Z.of_nat i < num_threads) as Hi' by lia.
  assert (0 ≤ total_items < 2 ^ 64) as HM by lia.
  pose proof (bound_mono _ _ threads_pos HM _ Hi').
  pose proof (chunk_start_bound _ _ threads_pos HM _ Hi').
  pose proof (chunk_end_bound _ _ threads_pos HM _ Hi'). lia.
Qed.

Lemma pool_inv_start :
  invariant (pool_start num_threads chunk_size
              (with_results d (replicate (Z.to_nat num_threads) ∅))).
Proof.
  exists (replicate (Z.to_nat num_threads) ∅). unfold pool_start. cbn.
  split_and!; [done|by rewrite length_replicate| |].
  - rewrite length_fmap, length_seqZ. done.
  - intros i Hi. destruct (bound_range i Hi) as (? & ? & Hs & _).
    exists (lo (Z.of_nat i)), []. split; [|split; [|split]].
    + rewrite list_lookup_fmap, lookup_seqZ_lt by lia. cbn.
      by rewrite Z.add_0_l, Hs.
    + lia.
    + by rewrite rows_between_empty.
    + by apply lookup_replicate_2.
Qed.

(** A turn that does not throw keeps the invariant. *)
Lemma pool_inv_step p p' : invariant p → step p (Ok p') → invariant p'.
Proof.
  intros (tr & Hst & Hlen & Hlenp & Hthreads) Hstep.
  inversion Hstep as [p0 i pc Hpc Hlt Hp0 Hres]; subst p0. clear Hstep.
  assert (i < Z.to_nat num_threads)%nat as Hi
    by (rewrite <-Hlenp; by eapply lookup_lt_Some).
  destruct (Hthreads i Hi) as (pc' & cs & Hpc' & Hrange & Hcs & Htr).
  rewrite Hpc in Hpc'. simplify_eq.
  destruct (bound_range i Hi) as (Hlo & Hhi & _ & Hend). rewrite Hend in Hlt.
  destruct (lineitem_data !! Z.to_nat pc') as [item|] eqn:Hitem.
  2:{ apply lookup_ge_None in Hitem. lia. }
  rewrite Hst in Hres.
  rewrite (worker_body_contribution stod d tr lineitem_data (Z.of_nat i) pc'
             item _ guarded Hitem) in Hres by (by rewrite Nat2Z.id).
  destruct (contribution stod d item) as [c|] eqn:Hc; [|by destruct f].
  cbn in Hres. simplify_eq. rewrite Nat2Z.id.
  eexists. cbn. split_and!; [done|by rewrite length_insert|
                             by rewrite length_insert|].
  intros j Hj. destruct (decide (j = i)) as [->|Hne].
  - exists (pc' + 1), (cs ++ option_list c)%list. split; [|split; [|split]].
    + by apply list_lookup_insert_eq; lia.
    + lia.
    + rewrite (rows_between_snoc _ _ _ item) by (done || lia).
      rewrite contribs_app, Hcs. cbn. rewrite Hc. cbn. by rewrite app_nil_r.
    + rewrite list_lookup_insert_eq by lia. by rewrite foldl_app.
  - destruct (Hthreads j Hj) as (pcj & csj & ? & ? & ? & ?).
    exists pcj, csj. by rewrite !list_lookup_insert_ne.
Qed.

Lemma pool_inv_runs p p' : invariant p → runs p p' → invariant p'.
Proof. induction 2; eauto using pool_inv_step. Qed.

Lemma thread_rows_between (i : nat) :
  (i < Z.to_nat num_threads)%nat →
  thread_rows num_threads lineitem_data (Z.of_nat i)
    = rows_between (lo (Z.of_nat i)) (lo (Z.of_nat i + 1)) lineitem_data.
Proof.
  intros Hi. destruct (bound_range i Hi) as (_ & _ & Hs & He).
  unfold thread_rows. by rewrite Hs, He.
Qed.

Lemma contribs_concat_returns ranges :
  Forall (λ rows, is_Ok (contribs stod d rows)) ranges →
  is_Ok (contribs stod d (concat ranges)).
Proof.
  induction 1 as [|rows ranges Hrows _ IH]; [done|].
  cbn [concat]. rewrite contribs_app.
  destruct (contribs stod d rows); [|done].
  by destruct (contribs stod d (concat ranges)).
Qed.

(** A finished pool holds the tallies of the ranges, and no row throws. *)
Lemma pool_done_contribs p :
  invariant p →
  pool_done num_threads total_items chunk_size p →
  is_Ok (contribs stod d lineitem_data) ∧
  thread_results (pool_locals p) = thread_sums stod d num_threads lineitem_data.
Proof.
  intros (tr & Hst & Hlen & Hlenp & Hthreads) Hdone.
  assert (∀ i : nat, (i < Z.to_nat num_threads)%nat →
            ∃ cs, contribs stod d
                    (thread_rows num_threads lineitem_data (Z.of_nat i)) = Ok cs ∧
                  tr !! i = Some (foldl merge_pair ∅ cs)) as Hall.
  { intros i Hi. destruct (Hthreads i Hi) as (pc & cs & Hpc & Hrange & Hcs & Htr).
    destruct (bound_range i Hi) as (_ & _ & _ & Hend).
    specialize (Hdone i pc Hpc). rewrite Hend in Hdone.
    replace pc with (lo (Z.of_nat i + 1)) in Hcs by lia.
    rewrite thread_rows_between by done. eauto. }
  split.
  - rewrite <-(thread_ranges_concat lineitem_data num_threads) by done.
    apply contribs_concat_returns. unfold thread_ranges.
    apply Forall_fmap, Forall_forall. intros i Hi%elem_of_seqZ.
    destruct (Hall (Z.to_nat i)) as (cs & Hcs & _); [lia|].
    rewrite Z2Nat.id in Hcs by lia. cbn. by rewrite Hcs.
  - rewrite Hst. cbn [thread_results with_results].
    apply list_eq. intros i. unfold thread_sums, thread_ranges.
    rewrite !list_lookup_fmap.
    destruct (decide (i < Z.to_nat num_threads)%nat) as [Hi|Hi].
    + destruct (Hall i Hi) as (cs & Hcs & ->).
      rewrite lookup_seqZ_lt by lia. cbn. unfold tally.
      by rewrite Z.add_0_l, Hcs.
    + rewrite lookup_ge_None_2 by lia.
      by rewrite lookup_seqZ_ge by lia.
Qed.

(** While no row throws, no turn of any thread throws. *)
Lemma pool_step_safe p r :
  invariant p → is_Ok (contribs stod d lineitem_data) → step p r → is_Ok r.
Proof.
  intros (tr & Hst & Hlen & Hlenp & Hthreads) Hok Hstep.
  inversion Hstep as [p0 i pc Hpc Hlt Hp0 Hres]; subst p0. clear Hstep.
  assert (i < Z.to_nat num_threads)%nat as Hi
    by (rewrite <-Hlenp; by eapply lookup_lt_Some).
  destruct (Hthreads i Hi) as (pc' & cs & Hpc' & Hrange & Hcs & Htr).
  rewrite Hpc in Hpc'. simplify_eq.
  destruct (bound_range i Hi) as (Hlo & Hhi & _ & Hend). rewrite Hend in Hlt.
  destruct (lineitem_data !! Z.to_nat pc') as [item|] eqn:Hitem.
  2:{ apply lookup_ge_None in Hitem. lia. }
  rewrite Hst.
  rewrite (worker_body_contribution stod d tr lineitem_data (Z.of_nat i) pc'
             item _ guarded Hitem) by (by rewrite Nat2Z.id).
  destruct (contribution stod d item) as [c|] eqn:Hc; [done|].
  exfalso. eapply (contribs_fails stod d lineitem_data item);
    [by eapply list_elem_of_lookup_2|rewrite Hc; by intros []|exact Hok].
Qed.

End pool_facts.

(** ** Calls that add nothing, and one thread *)

Lemma thread_sums_none stod d num_threads items :
  Forall (λ item, contribution stod d item = Ok None) items →
  Forall (λ p, p = ∅) (thread_sums stod d num_threads items).
Proof.
  intros Hnone. unfold thread_sums, thread_ranges.
  apply Forall_fmap, Forall_fmap, Forall_forall. intros i _. cbn.
  unfold tally. rewrite contribs_none; [done|].
  by apply thread_rows_Forall.
Qed.

Lemma executeQuery5_nothing_added stod r_name start_date end_date num_threads
    customer_data orders_data lineitem_data supplier_data nation_data
    region_data results d :
  1 ≤ num_threads →
  Z.of_nat (length lineitem_data) < 2 ^ 64 →
  dimension_filter r_name start_date end_date customer_data orders_data
    supplier_data nation_data region_data = Ok d →
  Forall (λ item, contribution stod d item = Ok None) lineitem_data →
  executeQuery5 stod r_name start_date end_date num_threads customer_data
    orders_data lineitem_data supplier_data nation_data region_data results
    = Ok (true, results).
Proof.
  intros HN HM Hd Hnone.
  rewrite (executeQuery5_scan _ _ _ _ _ _ _ _ _ _ _ _ _ HN HM Hd).
  rewrite contribs_none by done.
  by rewrite merge_results_empty by (by apply thread_sums_none).
Qed.

(** The one range of a single thread is the whole table. *)
Lemma thread_ranges_one items : thread_ranges 1 items = [items].
Proof.
  unfold thread_ranges. change (seqZ 0 1) with [0]. cbn [fmap list_fmap].
  f_equal. unfold thread_rows, rows_between.
  change (chunk_start _ 0) with 0.
  change (chunk_end 1 (Z.of_nat (length items)) _ 0)
    with (Z.of_nat (length items)).
  rewrite Z.sub_0_r, Nat2Z.id. change (Z.to_nat 0) with 0%nat.
  by rewrite drop_0, take_ge by lia.
Qed.

Lemma executeQuery5_filter_fails stod r_name start_date end_date num_threads
    customer_data orders_data lineitem_data supplier_data nation_data
    region_data results f :
  dimension_filter r_name start_date end_date customer_data orders_data
    supplier_data nation_data region_data = Err f →
  executeQuery5 stod r_name start_date end_date num_threads customer_data
    orders_data lineitem_data supplier_data nation_data region_data results
    = Err f.
Proof. intros Hf. by rewrite executeQuery5_launch, Hf. Qed.

(** * The claims *)

(** C1, as the code has it.  On well-formed tables with unique customer,
    order, supplier and nation keys, and with readable numbers on the
    qualifying line items, executeQuery5 (any positive thread count, every
    thread started, [results] empty on entry) returns [true] and a mapping
    that has an entry for a nation name exactly when a line item qualifies
    for it: its order is in the date window and its customer and supplier
    share a nation of the target region carrying that name.  The entry is
    the sum of extended_price × (1 − discount) over these line items in
    double arithmetic: every worker adds the revenues of its range in row
    order to 0.0, and the sums of the workers are added in worker order to
    0.0, every product, difference and sum being rounded to a double. *)
Theorem executeQuery5_revenue_per_nation (stod : string → exn + float)
    (r_name start_date end_date : string) (num_threads : Z)
    (customer_data orders_data lineitem_data supplier_data nation_data
       region_data : list Row) :
  well_formed customer_data orders_data lineitem_data supplier_data
    nation_data region_data →
  unique_keys "c_custkey" customer_data →
  unique_keys "o_orderkey" orders_data →
  unique_keys "s_suppkey" supplier_data →
  unique_keys "n_nationkey" nation_data →
  (∀ item name, item ∈ lineitem_data →
     qualifies r_name start_date end_date customer_data orders_data
       supplier_data nation_data region_data name item →
     numeric stod item) →
  1 ≤ num_threads →
  Z.of_nat (length lineitem_data) < 2 ^ 64 →
  ∃ results,
    executeQuery5 stod r_name start_date end_date num_threads customer_data
      orders_data lineitem_data supplier_data nation_data region_data ∅
      = Ok (true, results) ∧
    ∀ name,
      results !! name =
        double_revenue stod r_name start_date end_date customer_data
          orders_data lineitem_data supplier_data nation_data region_data
          num_threads name ∧
      (is_Some (results !! name) ↔
       Exists (qualifies r_name start_date end_date customer_data orders_data
                 supplier_data nation_data region_data name) lineitem_data).
Proof.
  intros Hwf Hc Ho Hs Hn Hnum HN HM.
  rewrite (executeQuery5_scan _ _ _ _ _ _ _ _ _ _ _ _ _ HN HM
             (dimension_filter_pure _ _ _ _ _ lineitem_data _ _ _ Hwf)).
  destruct (contribs_spec stod r_name start_date end_date customer_data
              orders_data lineitem_data supplier_data nation_data region_data
              Hwf Hc Ho Hs Hn lineitem_data (wf_lineitem _ _ _ _ _ _ Hwf) Hnum)
    as (cs & Hcs & Hspec).
  rewrite Hcs. eexists. split; [done|]. intros name. split.
  - rewrite merge_results_fold, lookup_empty. unfold double_revenue.
    f_equal. unfold thread_sums, thread_ranges.
    rewrite <-!list_fmap_compose. apply list_fmap_ext.
    intros k i _. cbn.
    destruct (contribs_spec stod r_name start_date end_date customer_data
                orders_data lineitem_data supplier_data nation_data
                region_data Hwf Hc Ho Hs Hn
                (thread_rows num_threads lineitem_data i))
      as (csi & Hcsi & Hspeci).
    { apply thread_rows_Forall, (wf_lineitem _ _ _ _ _ _ Hwf). }
    { intros item nm Hin. apply Hnum. by eapply elem_of_thread_rows. }
    unfold tally. rewrite Hcsi, foldl_merge_pair_lookup, lookup_empty.
    destruct (Hspeci name) as [Hdom Hrev]. unfold worker_revenue, keyed_total.
    rewrite Hrev, foldl_fmap. cbn [default].
    destruct (decide (name ∈ csi.*1)) as [Hin|Hin].
    + apply Hdom in Hin. by destruct (filter _ _).
    + destruct (filter _ _) eqn:Hf; [done|]. destruct Hin. by apply Hdom.
  - rewrite merge_results_names, lookup_empty.
    rewrite (thread_sums_names stod _ lineitem_data num_threads HN HM cs name Hcs).
    destruct (Hspec name) as [-> _].
    rewrite Exists_exists. split.
    + intros [[? [=]]|Hne]. destruct (filter _ lineitem_data) as [|x l] eqn:Hf;
        [done|].
      assert (x ∈ filter (qualifies r_name start_date end_date customer_data
                            orders_data supplier_data nation_data region_data
                            name) lineitem_data) as Hx
        by (rewrite Hf; by left).
      apply list_elem_of_filter in Hx as [HQ Hin]. by exists x.
    + intros (x & Hin & HQ). right. intros Hf.
      assert (x ∈ filter (qualifies r_name start_date end_date customer_data
                            orders_data supplier_data nation_data region_data
                            name) lineitem_data) as Hx
        by (by apply list_elem_of_filter).
      rewrite Hf in Hx. by apply elem_of_nil in Hx.
Qed.

(** C2, as the code has it.  For every thread count N ≥ 1 (every thread
    started) executeQuery5 ends as it does with one thread, on every input
    and whatever [results] holds on entry: it throws the same exception to
    its caller, or an exception in a worker thread ends the process in both
    cases, or it returns in both cases, with the same nation names.  The
    revenues are
    sums of the same contributions in the same order, grouped differently:
    with one thread the contributions of all rows are added one by one to
    0.0 and the sum is added to the entry of [results]; with N threads they
    are cut into N consecutive groups, each group is added up from 0.0, and
    the group sums are added one after the other to the entry of [results].
    Sums of doubles depend on the grouping, so the two revenues of a name
    need not be equal, nor close.  For a given N the mapping does not depend
    on the schedule of the threads: whenever the threads, interleaved turn
    by turn in any way, all reach the end of their ranges, merging their
    maps gives the mapping executeQuery5 returns, and no turn throws when
    executeQuery5 returns. *)
Theorem executeQuery5_any_thread_count (stod : string → exn + float)
    (r_name start_date end_date : string) (num_threads : Z)
    (customer_data orders_data lineitem_data supplier_data nation_data
       region_data : list Row) (results : gmap string float) :
  1 ≤ num_threads →
  Z.of_nat (length lineitem_data) < 2 ^ 64 →
  let run n :=
    executeQuery5 stod r_name start_date end_date n customer_data orders_data
      lineitem_data supplier_data nation_data region_data results in
  let total_items := Z.of_nat (length lineitem_data) in
  let chunk_size := total_items / num_threads in
  (∀ e, run num_threads = Err (Throws e) ↔ run 1 = Err (Throws e)) ∧
  ((∃ e, run num_threads = Err (Terminate e)) ↔
   (∃ e, run 1 = Err (Terminate e))) ∧
  (is_Ok (run num_threads) ↔ is_Ok (run 1)) ∧
  (∀ out, run num_threads = Ok (true, out) →
     ∃ (cs : list (string * float)) (css : list (list (string * float))),
       length css = Z.to_nat num_threads ∧ concat css = cs ∧
       out = merge_results results (foldl merge_pair ∅ <$> css) ∧
       run 1 = Ok (true, merge_results results [foldl merge_pair ∅ cs])) ∧
  (∀ out out1 name,
     run num_threads = Ok (true, out) → run 1 = Ok (true, out1) →
     (is_Some (out !! name) ↔ is_Some (out1 !! name))) ∧
  (∀ d p,
     dimension_filter r_name start_date end_date customer_data orders_data
       supplier_data nation_data region_data = Ok d →
     pool_runs stod lineitem_data num_threads total_items chunk_size
       (pool_start num_threads chunk_size
          (with_results d (replicate (Z.to_nat num_threads) ∅))) p →
     (pool_done num_threads total_items chunk_size p →
      run num_threads
        = Ok (true, merge_results results (thread_results (pool_locals p)))) ∧
     (is_Ok (run num_threads) →
      ∀ r, pool_step stod lineitem_data num_threads total_items chunk_size p r →
           is_Ok r)).
Proof.
  intros HN HM run total_items chunk_size. unfold run.
  destruct (dimension_filter r_name start_date end_date customer_data
              orders_data supplier_data nation_data region_data)
    as [d|f0] eqn:Hd.
  2:{ rewrite !(executeQuery5_filter_fails _ _ _ _ _ _ _ _ _ _ _ _ _ Hd).
      split_and!; try done. }
  rewrite !(executeQuery5_scan _ _ _ _ _ _ _ _ _ _ _ _ d) by (done || lia).
  pose proof (dimension_filter_guarded _ _ _ _ _ _ _ _ _ Hd) as Hg.
  split_and!.
  - intros e. by destruct (contribs stod d lineitem_data).
  - destruct (contribs stod d lineitem_data);
      [split; intros [? ?]; discriminate | reflexivity].
  - destruct (contribs stod d lineitem_data);
      [split; intros _; by eexists | reflexivity].
  - intros out Hout.
    destruct (contribs stod d lineitem_data) as [cs|] eqn:Hcs; [|done].
    pose proof Hcs as Hcat.
    rewrite <-(thread_ranges_concat lineitem_data num_threads HN HM) in Hcat.
    apply contribs_concat in Hcat as (css & Hall & Hcat).
    exists cs, css. split_and!.
    + rewrite <-(Forall2_length _ _ _ Hall). unfold thread_ranges.
      rewrite length_fmap, length_seqZ. done.
    + done.
    + unfold thread_sums in Hout. rewrite (tallies_of _ _ _ _ Hall) in Hout.
      by simplify_eq.
    + unfold thread_sums. rewrite thread_ranges_one. cbn [fmap list_fmap].
      unfold tally. by rewrite Hcs.
  - intros out out1 name Hout Hout1.
    destruct (contribs stod d lineitem_data) as [cs|] eqn:Hcs; [|done].
    assert (out = merge_results results
                    (thread_sums stod d num_threads lineitem_data))
      as -> by congruence.
    assert (out1 = merge_results results (thread_sums stod d 1 lineitem_data))
      as -> by congruence.
    rewrite !merge_results_names.
    rewrite (thread_sums_names stod d lineitem_data num_threads HN HM cs name Hcs).
    by rewrite (thread_sums_names stod d lineitem_data 1 ltac:(lia) HM cs name Hcs).
  - intros d' p [= <-] Hruns.
    pose proof (pool_inv_runs stod d lineitem_data num_threads HN HM Hg _ _
                  (pool_inv_start stod d lineitem_data num_threads HN HM) Hruns)
      as Hinv.
    split.
    + intros Hdone.
      destruct (pool_done_contribs stod d lineitem_data num_threads HN HM p
                  Hinv Hdone) as (Hok & ->).
      by destruct (contribs stod d lineitem_data).
    + intros Hok r Hstep.
      eapply (pool_step_safe stod d lineitem_data num_threads HN HM Hg p r);
        [done| |done].
      by destruct (contribs stod d lineitem_data).
Qed.

(** C3.  For N ≥ 1 threads and a table of M rows (M a size_t value, N > M
    allowed), the ranges [lo i, hi i) handed to the threads are contiguous,
    ascending and pairwise disjoint, and every index below M lies in exactly
    one of them; every range but the last has M / N indices and the last has
    the M mod N remaining ones as well.  A thread with an empty range leaves
    the state as it is and raises nothing. *)
Theorem thread_ranges_partition (stod : string → exn + float)
    (lineitem_data : list Row) (num_threads : Z) :
  1 ≤ num_threads →
  Z.of_nat (length lineitem_data) < 2 ^ 64 →
  let total_items := Z.of_nat (length lineitem_data) in
  let chunk_size := total_items / num_threads in
  let lo := chunk_start chunk_size in
  let hi := chunk_end num_threads total_items chunk_size in
  (lo 0 = 0 ∧ hi (num_threads - 1) = total_items) ∧
  (∀ i, 0 ≤ i < num_threads → 0 ≤ lo i ≤ hi i ∧ hi i ≤ total_items) ∧
  (∀ i, 0 ≤ i < num_threads - 1 →
        hi i = lo (i + 1) ∧ hi i - lo i = chunk_size) ∧
  hi (num_threads - 1) - lo (num_threads - 1)
    = chunk_size + total_items `mod` num_threads ∧
  (∀ j, 0 ≤ j < total_items → ∃ i, 0 ≤ i < num_threads ∧ lo i ≤ j < hi i) ∧
  (∀ i i' j, 0 ≤ i < num_threads → 0 ≤ i' < num_threads →
             lo i ≤ j < hi i → lo i' ≤ j < hi i' → i = i') ∧
  (total_items < num_threads →
     ∀ i, 0 ≤ i < num_threads - 1 → lo i = hi i) ∧
  (∀ i st, lo i = hi i →
     launch_body stod lineitem_data num_threads total_items chunk_size st i
       = Ok st).
Proof.
  intros HN HM total_items chunk_size lo hi.
  assert (0 ≤ total_items < 2 ^ 64) as HM' by (unfold total_items; lia).
  pose proof (chunk_size_bounds num_threads total_items HN HM') as [Hc0 HcN].
  fold chunk_size in Hc0, HcN.
  pose proof (Z.div_mod total_items num_threads ltac:(lia)) as Hdm.
  fold chunk_size in Hdm.
  pose proof (Z.mod_pos_bound total_items num_threads ltac:(lia)) as Hmod.
  assert (∀ i, 0 ≤ i < num_threads → lo i = i * chunk_size) as Hlo.
  { intros i Hi. unfold lo, chunk_size.
    rewrite chunk_start_bound by done. unfold bound.
    destruct (Z.eqb_spec i num_threads); [lia|done]. }
  assert (∀ i, 0 ≤ i < num_threads - 1 → hi i = (i + 1) * chunk_size) as Hhi.
  { intros i Hi. unfold hi, chunk_size.
    rewrite chunk_end_bound by (done || lia). unfold bound.
    destruct (Z.eqb_spec (i + 1) num_threads); [lia|done]. }
  assert (hi (num_threads - 1) = total_items) as Hlast.
  { unfold hi, chunk_end. by rewrite Z.eqb_refl. }
  split_and!.
  - rewrite Hlo by lia. lia.
  - done.
  - intros i Hi. rewrite Hlo by done.
    destruct (decide (i = num_threads - 1)) as [->|].
    + rewrite Hlast. nia.
    + rewrite Hhi by lia. nia.
  - intros i Hi. rewrite Hhi, !Hlo by lia. lia.
  - rewrite Hlast, Hlo by lia. nia.
  - intros j Hj. destruct (decide (j < (num_threads - 1) * chunk_size)) as [Hlt|Hge].
    + assert (0 < chunk_size) as Hpos by nia.
      exists (j `div` chunk_size).
      assert (0 ≤ j `div` chunk_size < num_threads - 1) as Hq.
      { split; [apply Z.div_pos; lia|]. apply Z.div_lt_upper_bound; lia. }
      pose proof (Z.mul_div_le j chunk_size Hpos).
      pose proof (Z.mul_succ_div_gt j chunk_size Hpos).
      rewrite Hlo, Hhi by lia. lia.
    + exists (num_threads - 1). rewrite Hlo, Hlast by lia. lia.
  - intros i i' j Hi Hi' Hj Hj'. rewrite Hlo in Hj, Hj' by done.
    destruct (Z.lt_trichotomy i i') as [Hlt|[->|Hgt]]; [|done|].
    + rewrite Hhi in Hj by lia. nia.
    + rewrite Hhi in Hj' by lia. nia.
  - intros Hsmall i Hi. rewrite Hlo, Hhi by lia.
    assert (chunk_size = 0) as -> by (apply Z.div_small; lia). lia.
  - intros i st Heq. unfold launch_body, launch_turn, worker. fold lo hi.
    by rewrite Heq, Z.sub_diag, seqZ_nil.
Qed.

(** C4.  On orders that carry their columns the order filter ends, and an
    order key is in the derived mapping exactly when an order with that key
    has a date at or after [start_date] and before [end_date] in the
    lexicographic order and a customer key present in the valid-customer
    mapping; what is stored under the key is such an order's customer. *)
Theorem filter_orders_window_and_customer (start_date end_date : string)
    (valid_customers : gmap string string) (orders_data : list Row) :
  Forall (has_cols ["o_orderkey"; "o_custkey"; "o_orderdate"]) orders_data →
  ∃ valid_orders,
    filter_orders start_date end_date valid_customers orders_data
      = Ok valid_orders ∧
    (∀ k, is_Some (valid_orders !! k) ↔
       ∃ o, o ∈ orders_data ∧ fld o "o_orderkey" = k ∧
            in_window start_date end_date (fld o "o_orderdate") ∧
            is_Some (valid_customers !! fld o "o_custkey")) ∧
    (∀ k c, valid_orders !! k = Some c →
       ∃ o, o ∈ orders_data ∧ fld o "o_orderkey" = k ∧ fld o "o_custkey" = c ∧
            in_window start_date end_date (fld o "o_orderdate") ∧
            is_Some (valid_customers !! c)).
Proof.
  intros Hwf. rewrite filter_orders_pure by done. eexists. split; [done|].
  unfold window_orders.
  assert (∀ k c,
    foldl (put_if (order_passes start_date end_date valid_customers)
             "o_orderkey" "o_custkey") ∅ orders_data !! k = Some c →
    ∃ o, o ∈ orders_data ∧ fld o "o_orderkey" = k ∧ fld o "o_custkey" = c ∧
         in_window start_date end_date (fld o "o_orderdate") ∧
         is_Some (valid_customers !! c)) as Horigin.
  { intros k c [Hk|(o & Ho & [Hw Hc] & Hkey & Hval)]%put_if_fold_origin.
    - by rewrite lookup_empty in Hk.
    - exists o. split_and!; try done; [by apply in_window_code|by rewrite <-Hval]. }
  split; [|done]. intros k. split.
  - intros [c (o & Ho & Hk & Hc & Hw & Hv)%Horigin].
    exists o. split_and!; try done. by rewrite Hc.
  - intros (o & Ho & <- & Hw & Hc). apply put_if_fold_present; [done|].
    split; [by apply in_window_code|done].
Qed.

(** C5, as the code has it.  The numbers of a line item are read only after
    the item has passed the join filters.  With N ≥ 1 threads and a
    dimension filter that ended: a joining line item whose price or discount
    does not read ends the run in std::terminate, with no value returned and
    [results] not written; and when every line item has its columns and
    every joining one reads, the run returns [true], whatever the numeric
    fields of the other line items hold. *)
Theorem unreadable_number_fatal_when_joining (stod : string → exn + float)
    (r_name start_date end_date : string) (num_threads : Z)
    (customer_data orders_data lineitem_data supplier_data nation_data
       region_data : list Row) (results : gmap string float) (d : Locals) :
  1 ≤ num_threads →
  Z.of_nat (length lineitem_data) < 2 ^ 64 →
  dimension_filter r_name start_date end_date customer_data orders_data
    supplier_data nation_data region_data = Ok d →
  (∀ item, item ∈ lineitem_data → joins d item → ¬ numeric stod item →
     ∃ e, executeQuery5 stod r_name start_date end_date num_threads
            customer_data orders_data lineitem_data supplier_data nation_data
            region_data results = Err (Terminate e)) ∧
  (Forall (has_cols ["l_orderkey"; "l_suppkey"; "l_extendedprice"; "l_discount"])
          lineitem_data →
   (∀ item, item ∈ lineitem_data → joins d item → numeric stod item) →
   ∃ out, executeQuery5 stod r_name start_date end_date num_threads
            customer_data orders_data lineitem_data supplier_data nation_data
            region_data results = Ok (true, out)).
Proof.
  intros HN HM Hd.
  rewrite (executeQuery5_scan _ _ _ _ _ _ _ _ _ _ _ _ _ HN HM Hd).
  pose proof (dimension_filter_guarded _ _ _ _ _ _ _ _ _ Hd) as Hg. split.
  - intros item Hin Hj Hnum.
    pose proof (contribs_fails stod d lineitem_data item Hin
                  (contribution_unreadable stod d item Hj Hnum)) as Hbad.
    destruct (contribs stod d lineitem_data) as [cs|f] eqn:Hcs; [by destruct Hbad|].
    apply contribs_throws in Hcs as [e ->]. by exists e.
  - intros Hcols Hnum.
    assert (is_Ok (contribs stod d lineitem_data)) as Hok.
    { apply contribs_succeeds. rewrite Forall_forall in Hcols.
      apply Forall_forall. intros item Hin.
      destruct (joins_or_not d item) as [Hj|Hj].
      - apply contribution_readable; [by apply Hcols|by apply Hnum].
      - rewrite contribution_skipped; [done|done| |done].
        by apply has_cols_keys, Hcols. }
    destruct (contribs stod d lineitem_data) as [cs|]; [|done]. by eexists.
Qed.

(** C6.  When no region carries the target name (compared byte for byte),
    executeQuery5 on well-formed tables with N ≥ 1 threads returns [true]
    with an empty mapping, and outputResults writes an empty sequence. *)
Theorem no_region_named_empty_result (stod : string → exn + float)
    (std_sort : ∀ A : Type, (A → A → bool) → list A → list A)
    (r_name start_date end_date : string) (num_threads : Z)
    (customer_data orders_data lineitem_data supplier_data nation_data
       region_data : list Row) :
  well_formed customer_data orders_data lineitem_data supplier_data
    nation_data region_data →
  Forall (λ r, fld r "r_name" ≠ r_name) region_data →
  1 ≤ num_threads →
  Z.of_nat (length lineitem_data) < 2 ^ 64 →
  sort_contract std_sort →
  executeQuery5 stod r_name start_date end_date num_threads customer_data
    orders_data lineitem_data supplier_data nation_data region_data ∅
    = Ok (true, ∅) ∧
  outputResults std_sort true ∅ = (true, Some []).
Proof.
  intros Hwf Hnone HN HM Hsort. split.
  - pose proof (dimension_filter_pure r_name start_date end_date _ _
                  lineitem_data _ _ _ Hwf) as Hd.
    rewrite dimensions_no_region in Hd by done.
    apply (executeQuery5_nothing_added _ _ _ _ _ _ _ _ _ _ _ _ _ HN HM Hd).
    eapply Forall_impl; [exact (wf_lineitem _ _ _ _ _ _ Hwf)|].
    intros item Hcols. unfold contribution.
    rewrite (row_at_has item _ "l_orderkey" Hcols) by set_solver.
    rewrite (row_at_has item _ "l_suppkey" Hcols) by set_solver.
    cbn [mbind result_bind valid_orders]. by rewrite lookup_empty.
  - unfold outputResults, map_items. rewrite map_to_list_empty.
    change (merge_sort key_le []) with (@nil (string * float)).
    destruct (Hsort _ by_revenue_desc []) as [Hperm _].
    { by apply by_revenue_desc_strict_weak. }
    by apply Permutation_nil_r in Hperm as ->.
Qed.

(** C8.  When the dimension filter has ended, every customer key stored in
    the valid-order mapping is a key of the valid-customer mapping and every
    nation key stored in the valid-supplier mapping is a key of the
    nation-name mapping, so the two [operator[]] reads of the worker find
    their key and insert nothing: a turn of the worker's loop that ends
    leaves both maps as the filter built them. *)
Theorem worker_lookups_never_insert (stod : string → exn + float)
    (r_name start_date end_date : string)
    (customer_data orders_data lineitem_data supplier_data nation_data
       region_data : list Row) (d : Locals) :
  dimension_filter r_name start_date end_date customer_data orders_data
    supplier_data nation_data region_data = Ok d →
  (∀ o_key c_key, valid_orders d !! o_key = Some c_key →
     ∃ c_nation, valid_customers d !! c_key = Some c_nation ∧
       subscript "" (valid_customers d) c_key = (c_nation, valid_customers d)) ∧
  (∀ s_key s_nation, valid_suppliers d !! s_key = Some s_nation →
     ∃ n_name, nation_key_to_name d !! s_nation = Some n_name ∧
       subscript "" (nation_key_to_name d) s_nation
         = (n_name, nation_key_to_name d)) ∧
  (∀ thread_id i tr st',
     worker_body stod lineitem_data thread_id (with_results d tr) i = Ok st' →
     valid_customers st' = valid_customers d ∧
     nation_key_to_name st' = nation_key_to_name d ∧
     valid_suppliers st' = valid_suppliers d ∧
     valid_orders st' = valid_orders d).
Proof.
  intros Hd. pose proof (dimension_filter_guarded _ _ _ _ _ _ _ _ _ Hd) as Hg.
  pose proof Hg as [Hgo Hgs]. split_and!.
  - intros o_key c_key [c_nation Hc]%Hgo. exists c_nation. split; [done|].
    unfold subscript. by rewrite Hc.
  - intros s_key s_nation [n_name Hn]%Hgs. exists n_name. split; [done|].
    unfold subscript. by rewrite Hn.
  - intros thread_id i tr st'. unfold worker_body, row_at, call_stod.
    cbn [with_results valid_orders valid_suppliers valid_customers
         nation_key_to_name thread_results].
    destruct (lineitem_data !! Z.to_nat i) as [item|]; [|done].
    destruct (item !! "l_orderkey") as [o_key|]; [|done].
    destruct (item !! "l_suppkey") as [s_key|]; [|done].
    cbn [mbind result_bind].
    destruct (valid_orders d !! o_key) as [c_key|] eqn:Ho;
      [|by intros ?; simplify_eq].
    destruct (valid_suppliers d !! s_key) as [s_nation|] eqn:Hs;
      [|by intros ?; simplify_eq].
    rewrite (subscript_present _ _ _ (Hgo _ _ Ho)).
    destruct (String.eqb _ s_nation); [|by intros ?; simplify_eq].
    destruct (item !! "l_extendedprice") as [p|]; [|done].
    cbn [mbind result_bind]. destruct (stod p) as [|price]; [done|].
    destruct (item !! "l_discount") as [t|]; [|done].
    cbn [mbind result_bind]. destruct (stod t) as [|discount]; [done|].
    cbn [mbind result_bind]. rewrite (subscript_present _ _ _ (Hgs _ _ Hs)).
    destruct (tr !! Z.to_nat thread_id); [|done]. by intros ?; simplify_eq.
Qed.

(** C7, as the code has it.  When the file opens, [std_sort] does what
    std::sort promises and no revenue of the mapping is NaN, the sequence
    outputResults writes holds exactly the pairs of the mapping, each name
    once, and no pair comes after one of smaller revenue.  The order of
    pairs of equal revenue is not fixed: two sorting functions that both
    keep the promise write a two-way tie in opposite orders. *)
Theorem outputResults_sorted_by_revenue
    (std_sort : ∀ A : Type, (A → A → bool) → list A → list A)
    (results : gmap string float) :
  sort_contract std_sort →
  no_nan results →
  (∃ out,
     outputResults std_sort true results = (true, Some out) ∧
     out ≡ₚ map_to_list results ∧
     (∀ name revenue, (name, revenue) ∈ out ↔ results !! name = Some revenue) ∧
     NoDup out.*1 ∧
     (∀ (i j : nat) a b, (i < j)%nat → out !! i = Some a → out !! j = Some b →
                         (b.2 <=? a.2)%float = true)) ∧
  (∃ (tied : gmap string float) a b,
     a ≠ b ∧ a.2 = b.2 ∧
     outputResults insertion_sort true tied = (true, Some [a; b]) ∧
     outputResults insertion_sort_rev true tied = (true, Some [b; a]) ∧
     sort_contract insertion_sort ∧ sort_contract insertion_sort_rev).
Proof.
  intros Hsort Hnan. split.
  - unfold outputResults. eexists. split; [done|].
    destruct (Hsort _ by_revenue_desc (map_items results)
                (by_revenue_desc_strict_weak _ (no_nan_items _ Hnan)))
      as [Hperm Hsorted].
    pose proof (transitivity Hperm (map_items_perm results)) as Hperm'.
    clear Hperm. split_and!.
    + done.
    + intros name revenue. rewrite Hperm'. apply elem_of_map_to_list.
    + rewrite Hperm'. apply NoDup_fst_map_to_list.
    + intros i j [na va] [nb vb] Hij Hi Hj. cbn [snd].
      specialize (Hsorted i j _ _ Hij Hi Hj).
      unfold by_revenue_desc in Hsorted. cbn [snd] in Hsorted.
      apply list_elem_of_lookup_2 in Hi, Hj. rewrite Hperm' in Hi, Hj.
      apply elem_of_map_to_list in Hi, Hj.
      apply ltb_false_leb; [by eapply Hnan..|done].
  - exists (<["A" := 5%float]> (<["B" := 5%float]> ∅)),
      ("A", 5%float), ("B", 5%float).
    split_and!; [done|done|by vm_compute|by vm_compute| |].
    + apply insertion_sort_contract.
    + apply insertion_sort_rev_contract.
Qed.

(** C10, as the code has it.  parseArgs returns exactly when std::stoi
    converts every value given to --threads; otherwise the exception of
    std::stoi leaves it.  Whenever it returns, it returns [false] exactly
    when a text is left empty or the thread count is not positive.  The
    driver starts the engine only after parseArgs has returned [true]; in
    every other case no row is processed. *)
Theorem parseArgs_false_or_stoi_throws (stod : string → exn + float)
    (argv : list string) (a : Args)
    (customer_data orders_data lineitem_data supplier_data nation_data
       region_data : list Row) :
  (is_Ok (parseArgs argv a) ↔
     Forall (λ v, is_Ok (stoi v)) (threads_values (tail argv))) ∧
  (∀ ok a', parseArgs argv a = Ok (ok, a') → (ok = false ↔ args_missing a')) ∧
  (∀ f, parseArgs argv a = Err f →
     ∃ v, v ∈ argv ∧ stoi v = Err f ∧
          (f = Throws invalid_argument ∨ f = Throws out_of_range)) ∧
  (∀ r, query_run stod argv a customer_data orders_data lineitem_data
          supplier_data nation_data region_data = Ok (EngineRan r) →
     ∃ a', parseArgs argv a = Ok (true, a') ∧ ¬ args_missing a').
Proof.
  assert (∀ ok a', parseArgs argv a = Ok (ok, a') →
                   (ok = false ↔ args_missing a')) as Hret.
  { intros ok a'. unfold parseArgs.
    destruct (parse_flags (tail argv) a) as [a1|]; [|done].
    cbn [mbind result_bind]. rewrite <-args_rejected_missing.
    destruct (args_rejected a1) eqn:Hrej; intros ?; simplify_eq;
      rewrite Hrej; split; congruence. }
  split_and!.
  - rewrite <-(parse_flags_returns _ _ a (Nat.le_refl _)). unfold parseArgs.
    destruct (parse_flags (tail argv) a) as [a1|]; [|done].
    cbn [mbind result_bind]. by destruct (args_rejected a1).
  - done.
  - intros f. unfold parseArgs.
    destruct (parse_flags (tail argv) a) as [a1|f'] eqn:Hp.
    { cbn [mbind result_bind]. by destruct (args_rejected a1). }
    cbn [mbind result_bind]. intros ?; simplify_eq.
    destruct (parse_flags_failure _ _ _ _ (Nat.le_refl _) Hp) as (v & Hv & Hs).
    exists v. split_and!; [|done|by eapply stoi_failure].
    destruct argv; [done|]. by apply list_elem_of_further.
  - intros r. unfold query_run.
    destruct (parseArgs argv a) as [[ok a']|]; [|done].
    cbn [mbind result_bind]. destruct ok; [|done]. intros _.
    exists a'. split; [done|]. intros Hm. by apply (Hret true a' eq_refl) in Hm.
Qed.

(** * The claims on the sample data *)

Module Examples.
Import Sample.

Lemma sample_well_formed :
  well_formed customer_data orders_data lineitem_data supplier_data
    nation_data region_data.
Proof. constructor; by_evaluation. Defined.

Lemma sample_revenue_per_nation :
  ∃ results,
    executeQuery5 std_stod "ASIA" "1994-01-01" "1995-01-01" 3
      customer_data orders_data lineitem_data supplier_data nation_data
      region_data ∅ = Ok (true, results) ∧
    ∀ name,
      results !! name =
        double_revenue std_stod "ASIA" "1994-01-01" "1995-01-01"
          customer_data orders_data lineitem_data supplier_data nation_data
          region_data 3 name ∧
      (is_Some (results !! name) ↔
       Exists (qualifies "ASIA" "1994-01-01" "1995-01-01" customer_data
                 orders_data supplier_data nation_data region_data name)
              lineitem_data).
Proof.
  apply (executeQuery5_revenue_per_nation std_stod "ASIA" "1994-01-01"
           "1995-01-01" 3 customer_data orders_data lineitem_data
           supplier_data nation_data region_data).
  - exact sample_well_formed.
  - by_evaluation.
  - by_evaluation.
  - by_evaluation.
  - by_evaluation.
  - intros item name Hin _. revert item Hin. apply Forall_forall. by_evaluation.
  - lia.
  - by_evaluation.
Defined.

(** The exact sum is not what the mapping holds.  Three line items of
    INDIA with the revenues 10^16, 1 and 1: the exact sum 10^16 + 2 is a
    double, and the mapping holds 10^16, since 10^16 + 1 is rounded to 10^16
    twice.  And with a customer key that occurs twice the last record of the
    key decides: the line item qualifies through the first record, with
    revenue 100, and the mapping is empty. *)
Lemma revenue_is_not_the_exact_sum :
  (executeQuery5 std_stod "ASIA" "1994-01-01" "1995-01-01" 1 customer_data
     orders_data lineitem_large supplier_data nation_data region_data ∅
   = Ok (true, <["INDIA" := 1e16%float]> ∅) ∧
   spec_revenue std_stod "ASIA" "1994-01-01" "1995-01-01" customer_data
     orders_data lineitem_large supplier_data nation_data region_data "INDIA"
   = Some (Qc_of_Z (10 ^ 16 + 2)) ∧
   exact 1e16 = Qc_of_Z (10 ^ 16) ∧
   exact 10000000000000002 = Qc_of_Z (10 ^ 16 + 2)) ∧
  (executeQuery5 std_stod "ASIA" "1994-01-01" "1995-01-01" 1 customer_twice
     orders_data [lineitem "100" "10" "100" "0"] supplier_data nation_data
     region_data ∅
   = Ok (true, ∅) ∧
   spec_revenue std_stod "ASIA" "1994-01-01" "1995-01-01" customer_twice
     orders_data [lineitem "100" "10" "100" "0"] supplier_data nation_data
     region_data "INDIA"
   = Some (Qc_of_Z 100)).
Proof. split_and!; by_evaluation. Qed.

(** The revenue depends on the thread count.  A charge of 10^16, its
    reversal and a charge of 1: one thread returns 1, two threads return 0.
    Two charges of 1.7e308 and the reversal of one: one thread returns
    infinity, two threads return 1.7e308. *)
Lemma thread_count_changes_revenue :
  let run items n :=
    executeQuery5 std_stod "ASIA" "1994-01-01" "1995-01-01" n customer_data
      orders_data items supplier_data nation_data region_data ∅ in
  run lineitem_cancel 1 = Ok (true, <["INDIA" := 1%float]> ∅) ∧
  run lineitem_cancel 2 = Ok (true, <["INDIA" := 0%float]> ∅) ∧
  run lineitem_huge 1 = Ok (true, <["INDIA" := infinity]> ∅) ∧
  ∃ v, std_stod "1.7e308" = inr v ∧
       run lineitem_huge 2 = Ok (true, <["INDIA" := v]> ∅).
Proof.
  split_and!; [by_evaluation..|].
  eexists. split; [by vm_compute|by_evaluation].
Qed.

(** A NaN among the revenues: insertion sort, which keeps std::sort's
    promise, writes 5, 1, NaN, 2, the pair of revenue 1 before the pair of
    revenue 2. *)
Lemma nan_revenue_breaks_the_order :
  sort_contract insertion_sort ∧
  outputResults insertion_sort true results_with_nan
  = (true, Some [("A", 5%float); ("B", 1%float); ("C", nan);
                 ("D", 2%float)]) ∧
  (1 <? 2)%float = true ∧ (2 <=? 1)%float = false.
Proof.
  split_and!; [apply insertion_sort_contract|by_evaluation..].
Qed.

Lemma sample_any_thread_count :
  let run n :=
    executeQuery5 std_stod "ASIA" "1994-01-01" "1995-01-01" n
      customer_data orders_data lineitem_data supplier_data nation_data
      region_data ∅ in
  (∀ e, run 3 = Err (Throws e) ↔ run 1 = Err (Throws e)) ∧
  ((∃ e, run 3 = Err (Terminate e)) ↔ (∃ e, run 1 = Err (Terminate e))) ∧
  (is_Ok (run 3) ↔ is_Ok (run 1)) ∧
  (∀ out, run 3 = Ok (true, out) →
     ∃ (cs : list (string * float)) (css : list (list (string * float))),
       length css = Z.to_nat 3 ∧ concat css = cs ∧
       out = merge_results ∅ (foldl merge_pair ∅ <$> css) ∧
       run 1 = Ok (true, merge_results ∅ [foldl merge_pair ∅ cs])) ∧
  (∀ out out1 name,
     run 3 = Ok (true, out) → run 1 = Ok (true, out1) →
     (is_Some (out !! name) ↔ is_Some (out1 !! name))) ∧
  (∀ d p,
     dimension_filter "ASIA" "1994-01-01" "1995-01-01" customer_data
       orders_data supplier_data nation_data region_data = Ok d →
     pool_runs std_stod lineitem_data 3 7 2
       (pool_start 3 2 (with_results d (replicate 3 ∅))) p →
     (pool_done 3 7 2 p →
      run 3 = Ok (true, merge_results ∅ (thread_results (pool_locals p)))) ∧
     (is_Ok (run 3) →
      ∀ r, pool_step std_stod lineitem_data 3 7 2 p r → is_Ok r)).
Proof.
  apply (executeQuery5_any_thread_count std_stod "ASIA" "1994-01-01"
           "1995-01-01" 3 customer_data orders_data lineitem_data
           supplier_data nation_data region_data ∅); [lia|by_evaluation].
Defined.

Lemma sample_thread_ranges :
  let total_items := 7 in
  let chunk_size := 2 in
  let lo := chunk_start chunk_size in
  let hi := chunk_end 3 total_items chunk_size in
  (lo 0 = 0 ∧ hi 2 = total_items) ∧
  (∀ i, 0 ≤ i < 3 → 0 ≤ lo i ≤ hi i ∧ hi i ≤ total_items) ∧
  (∀ i, 0 ≤ i < 2 → hi i = lo (i + 1) ∧ hi i - lo i = chunk_size) ∧
  hi 2 - lo 2 = chunk_size + 1 ∧
  (∀ j, 0 ≤ j < total_items → ∃ i, 0 ≤ i < 3 ∧ lo i ≤ j < hi i) ∧
  (∀ i i' j, 0 ≤ i < 3 → 0 ≤ i' < 3 →
             lo i ≤ j < hi i → lo i' ≤ j < hi i' → i = i') ∧
  (total_items < 3 → ∀ i, 0 ≤ i < 2 → lo i = hi i) ∧
  (∀ i st, lo i = hi i →
     launch_body std_stod lineitem_data 3 total_items chunk_size st i
       = Ok st).
Proof.
  apply (thread_ranges_partition std_stod lineitem_data 3);
    [lia|by_evaluation].
Defined.

Lemma sample_filter_orders :
  ∃ valid_orders,
    filter_orders "1994-01-01" "1995-01-01" (valid_customers d) orders_data
      = Ok valid_orders ∧
    (∀ k, is_Some (valid_orders !! k) ↔
       ∃ o, o ∈ orders_data ∧ fld o "o_orderkey" = k ∧
            in_window "1994-01-01" "1995-01-01" (fld o "o_orderdate") ∧
            is_Some (valid_customers d !! fld o "o_custkey")) ∧
    (∀ k c, valid_orders !! k = Some c →
       ∃ o, o ∈ orders_data ∧ fld o "o_orderkey" = k ∧ fld o "o_custkey" = c ∧
            in_window "1994-01-01" "1995-01-01" (fld o "o_orderdate") ∧
            is_Some (valid_customers d !! c)).
Proof.
  apply (filter_orders_window_and_customer "1994-01-01" "1995-01-01"
           (valid_customers d) orders_data).
  by_evaluation.
Defined.

(** The third line item joins nothing and its price does not read; the
    run returns all the same, with the revenue of the other two. *)
Lemma unreadable_unmatched_row_is_skipped :
  Exists (λ li, ¬ numeric std_stod li) lineitem_corrupt_unmatched ∧
  executeQuery5 std_stod "ASIA" "1994-01-01" "1995-01-01" 2
    customer_data orders_data lineitem_corrupt_unmatched supplier_data
    nation_data region_data ∅
  = Ok (true, <["CHINA" := 50%float]> (<["INDIA" := 90%float]> ∅)).
Proof. split; by_evaluation. Qed.

(** With the third line item joining, the same price ends the run. *)
Example unreadable_matched_row_terminates :
  executeQuery5 std_stod "ASIA" "1994-01-01" "1995-01-01" 2
    customer_data orders_data lineitem_corrupt_matched supplier_data
    nation_data region_data ∅
  = Err (Terminate invalid_argument).
Proof. by_evaluation. Qed.

Lemma sample_unreadable_number :
  (∀ item, item ∈ lineitem_corrupt_matched → joins d item →
     ¬ numeric std_stod item →
     ∃ e, executeQuery5 std_stod "ASIA" "1994-01-01" "1995-01-01" 2
            customer_data orders_data lineitem_corrupt_matched supplier_data
            nation_data region_data ∅ = Err (Terminate e)) ∧
  (Forall (has_cols ["l_orderkey"; "l_suppkey"; "l_extendedprice"; "l_discount"])
          lineitem_corrupt_matched →
   (∀ item, item ∈ lineitem_corrupt_matched → joins d item →
            numeric std_stod item) →
   ∃ out, executeQuery5 std_stod "ASIA" "1994-01-01" "1995-01-01" 2
            customer_data orders_data lineitem_corrupt_matched supplier_data
            nation_data region_data ∅ = Ok (true, out)).
Proof.
  apply (unreadable_number_fatal_when_joining std_stod "ASIA" "1994-01-01"
           "1995-01-01" 2 customer_data orders_data lineitem_corrupt_matched
           supplier_data nation_data region_data ∅ d).
  - lia.
  - by_evaluation.
  - vm_compute. reflexivity.
Defined.

Lemma sample_no_region :
  executeQuery5 std_stod "ATLANTIS" "1994-01-01" "1995-01-01" 4
    customer_data orders_data lineitem_data supplier_data nation_data
    region_data ∅ = Ok (true, ∅) ∧
  outputResults insertion_sort true ∅ = (true, Some []).
Proof.
  apply (no_region_named_empty_result std_stod insertion_sort "ATLANTIS"
           "1994-01-01" "1995-01-01" 4 customer_data orders_data lineitem_data
           supplier_data nation_data region_data).
  - exact sample_well_formed.
  - by_evaluation.
  - lia.
  - by_evaluation.
  - exact insertion_sort_contract.
Defined.

Lemma sample_ranking :
  (∃ out,
     outputResults insertion_sort true scenario_results = (true, Some out) ∧
     out ≡ₚ map_to_list scenario_results ∧
     (∀ name revenue,
        (name, revenue) ∈ out ↔ scenario_results !! name = Some revenue) ∧
     NoDup out.*1 ∧
     (∀ (i j : nat) a b, (i < j)%nat → out !! i = Some a → out !! j = Some b →
                         (b.2 <=? a.2)%float = true)) ∧
  (∃ (tied : gmap string float) a b,
     a ≠ b ∧ a.2 = b.2 ∧
     outputResults insertion_sort true tied = (true, Some [a; b]) ∧
     outputResults insertion_sort_rev true tied = (true, Some [b; a]) ∧
     sort_contract insertion_sort ∧ sort_contract insertion_sort_rev).
Proof.
  apply (outputResults_sorted_by_revenue insertion_sort scenario_results).
  - exact insertion_sort_contract.
  - by_evaluation.
Defined.

(** The scenario of the specification: B (200), A (50), C (10). *)
Example scenario_ranking :
  outputResults insertion_sort true scenario_results
  = (true, Some [("B", 200%float); ("A", 50%float); ("C", 10%float)]).
Proof. by_evaluation. Qed.

(** extended_price 100.0 at discount 0.1 contributes 90, and 17954.55 at
    discount 0.04 the double next to 17236.368, which is a little below
    it. *)
Example revenue_formula :
  revenue_of std_stod (lineitem "1" "1" "100.0" "0.1") = 90%float ∧
  revenue_of std_stod (lineitem "1" "1" "17954.55" "0.04")
    = 0x1.0d5178d4fdf3bp+14%float.
Proof. split; by_evaluation. Qed.

Lemma sample_lookups_never_insert :
  (∀ o_key c_key, valid_orders d !! o_key = Some c_key →
     ∃ c_nation, valid_customers d !! c_key = Some c_nation ∧
       subscript "" (valid_customers d) c_key = (c_nation, valid_customers d)) ∧
  (∀ s_key s_nation, valid_suppliers d !! s_key = Some s_nation →
     ∃ n_name, nation_key_to_name d !! s_nation = Some n_name ∧
       subscript "" (nation_key_to_name d) s_nation
         = (n_name, nation_key_to_name d)) ∧
  (∀ thread_id i tr st',
     worker_body std_stod lineitem_data thread_id (with_results d tr) i
       = Ok st' →
     valid_customers st' = valid_customers d ∧
     nation_key_to_name st' = nation_key_to_name d ∧
     valid_suppliers st' = valid_suppliers d ∧
     valid_orders st' = valid_orders d).
Proof.
  apply (worker_lookups_never_insert std_stod "ASIA" "1994-01-01"
           "1995-01-01" customer_data orders_data lineitem_data supplier_data
           nation_data region_data d).
  vm_compute. reflexivity.
Defined.

(** No flag but --threads is given, so the five texts stay empty; the value
    of --threads is not a number, and parseArgs throws instead of returning
    [false]. *)
Lemma parseArgs_throws_on_threads_value :
  args_missing (mkArgs "" "" "" 0 "" "") ∧
  parseArgs ["query5"; "--threads"; "four"] (mkArgs "" "" "" 0 "" "")
    = Err (Throws invalid_argument) ∧
  ¬ ∃ a', parseArgs ["query5"; "--threads"; "four"] (mkArgs "" "" "" 0 "" "")
            = Ok (false, a').
Proof.
  split_and!; [by left|by vm_compute|].
  intros [a' Ha']. by vm_compute in Ha'.
Qed.

(** Without unique keys the lookup maps keep the last record of a key:
    customer 1 is listed with nation 8 and then with nation 18, and the line
    item of its order 100 and supplier 10 (nation 8) adds nothing. *)
Remark duplicate_customer_key_last_wins :
  executeQuery5 std_stod "ASIA" "1994-01-01" "1995-01-01" 1
    customer_twice orders_data [lineitem "100" "10" "100.0" "0.1"]
    supplier_data nation_data region_data ∅
  = Ok (true, ∅).
Proof. by_evaluation. Qed.

(** The loader on two lines of region.tbl. *)
Example split_tbl_line :
  split "0|AFRICA|lar deposits|" "|" = ["0"; "AFRICA"; "lar deposits"].
Proof. reflexivity. Qed.

Example loadTable_region :
  loadTable (Some ("2|ASIA|ges|" ++ String "010" "3|EUROPE|ly|")) [] region_columns
  = (true, [row [("r_regionkey", "2"); ("r_name", "ASIA"); ("r_comment", "ges")];
            row [("r_regionkey", "3"); ("r_name", "EUROPE"); ("r_comment", "ly")]]).
Proof. by vm_compute. Qed.

End Examples.

(** * Further properties of the code *)

(** ** Texts *)

Lemma string_app_cons x (a b : string) : String x a ++ b = String x (a ++ b).
Proof. done. Qed.

Lemma string_app_nil_l (b : string) : "" ++ b = b.
Proof. done. Qed.

Lemma string_app_assoc (a b c : string) : (a ++ b) ++ c = a ++ (b ++ c).
Proof.
  induction a as [|x a IH]; [done|]. rewrite !string_app_cons. by rewrite IH.
Qed.

Lemma string_app_nil_r (a : string) : a ++ "" = a.
Proof.
  induction a as [|x a IH]; [done|]. rewrite string_app_cons. by rewrite IH.
Qed.

Lemma list_ascii_of_string_app (a b : string) :
  list_ascii_of_string (a ++ b)
    = (list_ascii_of_string a ++ list_ascii_of_string b)%list.
Proof.
  induction a as [|x a IH]; [done|].
  rewrite string_app_cons. cbn [list_ascii_of_string app]. by rewrite IH.
Qed.

Lemma free_of_app d a b : free_of d (a ++ b) ↔ free_of d a ∧ free_of d b.
Proof.
  unfold free_of. rewrite list_ascii_of_string_app, not_elem_of_app. done.
Qed.

Lemma free_of_cons d c s : free_of d (String c s) ↔ d ≠ c ∧ free_of d s.
Proof. unfold free_of. cbn. by rewrite not_elem_of_cons. Qed.

Lemma free_of_empty d : free_of d "".
Proof. unfold free_of. cbn. apply not_elem_of_nil. Qed.

Lemma last_char_app a b :
  last_char (a ++ b) = match last_char b with
                       | Some c => Some c
                       | None => last_char a
                       end.
Proof. unfold last_char. by rewrite list_ascii_of_string_app, last_app. Qed.

Lemma last_char_free d s : free_of d s → last_char s ≠ Some d.
Proof.
  unfold free_of, last_char. intros Hfree Hlast.
  by apply Hfree, last_Some_elem_of.
Qed.

(** ** split *)

(** Reading a token that ends at a delimiter. *)
Lemma split_from_token d f : ∀ token rest,
  free_of d f →
  split_from token (f ++ String d rest) d
    = (token ++ f) :: split_from "" rest d.
Proof.
  induction f as [|c f IH]; intros token rest Hfree.
  - rewrite string_app_nil_l, string_app_nil_r. cbn [split_from].
    by rewrite Ascii.eqb_refl.
  - apply free_of_cons in Hfree as [Hne Hfree].
    rewrite string_app_cons. cbn [split_from].
    destruct (Ascii.eqb_spec c d) as [->|_]; [done|].
    rewrite IH by done. by rewrite string_app_assoc.
Qed.

Lemma split_from_terminated d fields :
  Forall (free_of d) fields →
  split_from "" (terminated d fields) d = fields.
Proof.
  induction 1 as [|f fields Hf _ IH]; [done|]. cbn [terminated foldr].
  fold (terminated d fields). by rewrite split_from_token, IH.
Qed.

Lemma split_from_tokens d s : ∀ token,
  free_of d token →
  Forall (free_of d) (split_from token s d) ∧
  terminated d (split_from token s d) =
    if decide (token ++ s = "" ∨ last_char (token ++ s) = Some d)
    then token ++ s else (token ++ s) ++ String d "".
Proof.
  induction s as [|c s IH]; intros token Htok; cbn [split_from].
  - rewrite string_app_nil_r.
    destruct (String.eqb_spec token "") as [->|Hne].
    + split; [done|]. rewrite decide_True by auto. done.
    + split; [by repeat constructor|].
      rewrite decide_False; [done|].
      intros [?|?]; [done|]. by eapply last_char_free.
  - destruct (Ascii.eqb_spec c d) as [->|Hne].
    + destruct (IH "" (free_of_empty d)) as [Hall Hterm].
      split; [by constructor|]. cbn [terminated foldr].
      fold (terminated d (split_from "" s d)). rewrite Hterm.
      rewrite string_app_nil_l.
      rewrite (last_char_app token (String d s)).
      destruct s as [|c' s'].
      * rewrite decide_True by auto. rewrite decide_True; [done|]. by right.
      * assert (last_char (String d (String c' s')) = last_char (String c' s'))
          as -> by (unfold last_char; cbn [list_ascii_of_string];
                    by rewrite last_cons_cons).
        assert (is_Some (last_char (String c' s'))) as [x Hx]
          by (unfold last_char; by apply last_is_Some).
        rewrite Hx.
        destruct (decide (x = d)) as [->|Hxd].
        -- rewrite !decide_True by auto. done.
        -- rewrite !decide_False.
           ++ by rewrite !string_app_assoc.
           ++ intros [Hw|?]; [|congruence]. by destruct token.
           ++ intros [?|?]; [done|congruence].
    + assert (free_of d (token ++ String c "")) as Htok'.
      { apply free_of_app. split; [done|]. apply free_of_cons.
        split; [done|apply free_of_empty]. }
      destruct (IH _ Htok') as [Hall Hterm]. split; [done|].
      rewrite Hterm, !string_app_assoc. done.
Qed.

(** X1.  A line whose fields are each followed by the delimiter, the last
    one included, is split into exactly these fields: an empty field is
    kept, and the final delimiter starts no further token. *)
Theorem split_terminated_fields (d : ascii) (fields : list string) :
  Forall (free_of d) fields →
  split (terminated d fields) d = fields.
Proof. apply split_from_terminated. Qed.

(** X2.  No token of split contains the delimiter, and the tokens, each
    followed by the delimiter, spell the text; a text that is not empty and
    does not end with the delimiter is read as if it did. *)
Theorem split_tokens_spell_text (s : string) (d : ascii) :
  Forall (free_of d) (split s d) ∧
  terminated d (split s d) =
    if decide (s = "" ∨ last_char s = Some d) then s else s ++ String d "".
Proof. apply (split_from_tokens d s ""), free_of_empty. Qed.

(** ** loadTable *)

Lemma fold_insert_list_to_map (l : list (string * string)) : ∀ (m : Row),
  NoDup l.*1 →
  foldl (λ (row : Row) cv, <[cv.1 := cv.2]> row) m l = list_to_map l ∪ m.
Proof.
  induction l as [|[k v] l IH]; intros m Hnd; cbn [foldl list_to_map foldr].
  - by rewrite (left_id_L ∅ (∪)).
  - cbn in Hnd. apply NoDup_cons in Hnd as [Hk Hnd]. rewrite IH by done.
    cbn [fst snd]. rewrite <-insert_union_l. symmetry. apply insert_union_r.
    by apply not_elem_of_list_to_map.
Qed.

Lemma load_row_list_to_map columns values :
  NoDup columns → (length columns ≤ length values)%nat →
  load_row columns values = list_to_map (zip columns values).
Proof.
  intros Hnd Hlen. unfold load_row.
  rewrite fold_insert_list_to_map by (by rewrite fst_zip).
  by rewrite (right_id_L ∅ (∪)).
Qed.

(** X3.  The row loadTable builds from a line: the i-th column name maps to
    the i-th value of the line, and the row has no other key; values beyond
    the last column are dropped. *)
Theorem load_row_lookup (columns values : list string) :
  NoDup columns → (length columns ≤ length values)%nat →
  (∀ (i : nat) c, columns !! i = Some c →
     load_row columns values !! c = values !! i) ∧
  (∀ c, c ∉ columns → load_row columns values !! c = None).
Proof.
  intros Hnd Hlen. rewrite load_row_list_to_map by done. split.
  - intros i c Hc.
    destruct (lookup_lt_is_Some_2 values i) as [v Hv].
    { apply lookup_lt_Some in Hc. lia. }
    rewrite Hv. apply elem_of_list_to_map_1; [by rewrite fst_zip|].
    apply list_elem_of_lookup. exists i.
    apply lookup_zip_with_Some. eauto.
  - intros c Hc. apply not_elem_of_list_to_map. by rewrite fst_zip.
Qed.

Lemma loadTable_line_app columns pre table_data line :
  loadTable_line columns (pre ++ table_data)%list line
    = (pre ++ loadTable_line columns table_data line)%list.
Proof.
  unfold loadTable_line. repeat case_match; try done. by rewrite (assoc_L (++)).
Qed.

Lemma loadTable_lines_app columns lines : ∀ pre table_data,
  foldl (loadTable_line columns) (pre ++ table_data)%list lines
    = (pre ++ foldl (loadTable_line columns) table_data lines)%list.
Proof.
  induction lines as [|line lines IH]; intros pre table_data; [done|].
  cbn [foldl]. by rewrite loadTable_line_app, IH.
Qed.

(** X4.  loadTable appends: the rows already in the caller's vector stay, in
    their order, and the rows added do not depend on them, so that loading
    a file a second time doubles its rows.  It returns true exactly when the
    file opens, and adds nothing when it does not. *)
Theorem loadTable_appends (file : option string) (table_data : list Row)
    (columns : list string) :
  loadTable file table_data columns =
    ((loadTable file [] columns).1,
     (table_data ++ (loadTable file [] columns).2)%list) ∧
  ((loadTable file [] columns).1 = true ↔ is_Some file) ∧
  (file = None → (loadTable file [] columns).2 = []).
Proof.
  destruct file as [text|]; cbn.
  - split_and!; [|by eauto|done].
    f_equal. rewrite <-(loadTable_lines_app columns _ table_data []).
    by rewrite (right_id_L [] (++)).
  - split_and!; [by rewrite (right_id_L [] (++))| |done].
    split; [done|]. by intros [].
Qed.

Lemma free_of_terminated d d' fields :
  d' ≠ d → Forall (free_of d') fields → free_of d' (terminated d fields).
Proof.
  intros Hne. induction 1 as [|f fields Hf _ IH]; [apply free_of_empty|].
  cbn [terminated foldr]. fold (terminated d fields).
  apply free_of_app. split; [done|]. by apply free_of_cons.
Qed.

Lemma tbl_line_empty fields : tbl_line fields = "" ↔ fields = [].
Proof.
  split; [|by intros ->]. destruct fields as [|f fields]; [done|].
  unfold tbl_line. cbn [terminated foldr]. by destruct f.
Qed.

Lemma loadTable_line_tbl columns table_data fields :
  Forall (free_of "|") fields →
  loadTable_line columns table_data (tbl_line fields) =
    if decide (loadable columns fields)
    then (table_data ++ [load_row columns fields])%list else table_data.
Proof.
  intros Hfree. unfold loadTable_line, loadable.
  destruct (String.eqb_spec (tbl_line fields) "") as [He|Hne].
  - apply tbl_line_empty in He as ->. by rewrite decide_False by (by intros []).
  - unfold tbl_line, split. rewrite split_from_terminated by done.
    assert (fields ≠ []) by (by rewrite <-tbl_line_empty).
    destruct (Nat.ltb_spec (length fields) (length columns)).
    + rewrite decide_False; [done|]. intros [_ ?]. lia.
    + by rewrite decide_True.
Qed.

(** X5.  A file in dbgen's format is read back record by record: the rows
    added are those of the records that have a value for every column, in
    the order of the file; shorter records and empty lines are passed over
    and stop nothing. *)
Theorem loadTable_tbl_text (columns : list string)
    (records : list (list string)) (table_data : list Row) :
  Forall (Forall (λ f, free_of "|" f ∧ free_of "010" f)) records →
  loadTable (Some (tbl_text records)) table_data columns =
    (true,
     (table_data ++ (load_row columns <$> filter (loadable columns) records))%list).
Proof.
  intros Hfree. unfold loadTable, tbl_text, split. f_equal.
  rewrite split_from_terminated.
  2:{ apply Forall_fmap. eapply Forall_impl; [exact Hfree|].
      intros fields Hf. apply free_of_terminated; [done|].
      eapply Forall_impl; [exact Hf|]. by intros f [_ ?]. }
  revert table_data.
  induction Hfree as [|fields records Hf _ IH]; intros table_data.
  - cbn. by rewrite app_nil_r.
  - cbn [fmap list_fmap foldl]. rewrite loadTable_line_tbl.
    2:{ eapply Forall_impl; [exact Hf|]. by intros f [? _]. }
    rewrite filter_cons. destruct (decide (loadable columns fields)).
    + rewrite IH. cbn [fmap list_fmap]. by rewrite <-(assoc_L (++)).
    + apply IH.
Qed.

(** ** readTPCHData *)

Lemma last_char_None s : last_char s = None ↔ s = "".
Proof.
  unfold last_char. rewrite last_None. split; [|by intros ->].
  by destruct s.
Qed.

Lemma readTPCHData_path table_path c name :
  last_char table_path = Some c →
  table_path ++ (if Ascii.eqb c "/" then "" else "/") ++ name
    = tbl_dir table_path ++ name.
Proof.
  intros Hc. unfold tbl_dir. rewrite Hc.
  destruct (Ascii.eqb_spec c "/") as [->|Hne].
  - by rewrite decide_True.
  - rewrite decide_False by congruence. by rewrite string_app_assoc.
Qed.

(** X6.  A table path names the same six files with and without a final
    slash. *)
Theorem readTPCHData_trailing_slash (fs : string → option string)
    (table_path : string) (t : Tables) :
  table_path ≠ "" → last_char table_path ≠ Some "/"%char →
  readTPCHData fs (table_path ++ "/") t = readTPCHData fs table_path t.
Proof.
  intros Hne Hslash.
  destruct (last_char table_path) as [c|] eqn:Hc;
    [|by apply last_char_None in Hc].
  assert (last_char (table_path ++ "/") = Some "/"%char) as Hc'
    by (by rewrite last_char_app).
  unfold readTPCHData. rewrite Hc, Hc'.
  cbn [t_customer t_orders t_lineitem t_supplier t_nation t_region].
  rewrite !(readTPCHData_path _ _ _ Hc), !(readTPCHData_path _ _ _ Hc').
  assert (tbl_dir (table_path ++ "/") = tbl_dir table_path) as ->; [|done].
  unfold tbl_dir. rewrite Hc, Hc', decide_True, decide_False by congruence.
  done.
Qed.

Section first_missing.

Variable fs : string → option string.
Variable table_path : string.

Local Abbreviation file name := (fs (tbl_dir table_path ++ name)).
Local Abbreviation opens :=
  (λ f : string * list string, is_Some (fs (tbl_dir table_path ++ f.1))).

(** A file taken to open that did not. *)
Local Ltac closed_file :=
  unfold tbl_files in *; cbn [take] in *;
  repeat match goal with
         | H : Forall _ (_ :: _) |- _ => apply Forall_cons in H as [? H]
         end;
  cbn [fst] in *;
  match goal with
  | H : fs ?p = None, H' : is_Some (fs ?p) |- _ =>
      rewrite H in H'; by destruct H'
  end.

Local Ltac open_files :=
  unfold tbl_files; cbn [take]; repeat constructor; cbn [fst];
  match goal with
  | H : fs ?p = Some _ |- is_Some (fs ?p) => rewrite H; eauto
  end.

Local Ltac read_files :=
  repeat match goal with
         | H : fs ?p = _ |- context [fs ?p] => rewrite H
         end;
  reflexivity.

Local Ltac settle :=
  case_decide;
  [ first [ read_files | exfalso; closed_file ]
  | first [ read_files
          | exfalso;
            match goal with H : ¬ Forall _ _ |- _ => apply H end;
            open_files ] ].

Local Ltac each_table k :=
  do 6 (destruct k as [|k]; [cbn in *; simplify_eq; f_equal; settle|]);
  done.

Local Ltac stops :=
  eexists _, _; split; [done|]; split;
  [ split; [done|]; intros ?; closed_file
  | let k := fresh "k" in
    intros k ? ? ? ? ?; each_table k ].

(** X7.  readTPCHData returns true exactly when the six files open.  It
    stops at the first file that does not: the vectors of the files before
    it have their rows, the vectors from it on are as they were. *)
Theorem readTPCHData_first_missing_file (t : Tables) :
  table_path ≠ "" →
  ∃ b t', readTPCHData fs table_path t = Ok (b, t') ∧
    (b = true ↔ Forall opens tbl_files) ∧
    ∀ (k : nat) name columns old,
      tbl_files !! k = Some (name, columns) →
      tables_list t !! k = Some old →
      tables_list t' !! k =
        Some (if decide (Forall opens (take k tbl_files))
              then (loadTable (file name) old columns).2 else old).
Proof.
  intros Hne.
  destruct (last_char table_path) as [c|] eqn:Hc;
    [|by apply last_char_None in Hc].
  unfold readTPCHData. rewrite Hc.
  cbn [t_customer t_orders t_lineitem t_supplier t_nation t_region].
  rewrite !(readTPCHData_path _ _ _ Hc).
  destruct (file "customer.tbl") as [x1|] eqn:H1; cbn [loadTable negb t_customer t_orders t_lineitem t_supplier
         t_nation t_region];
    [|stops].
  destruct (file "orders.tbl") as [x2|] eqn:H2; cbn [loadTable negb t_customer t_orders t_lineitem t_supplier
         t_nation t_region];
    [|stops].
  destruct (file "lineitem.tbl") as [x3|] eqn:H3; cbn [loadTable negb t_customer t_orders t_lineitem t_supplier
         t_nation t_region];
    [|stops].
  destruct (file "supplier.tbl") as [x4|] eqn:H4; cbn [loadTable negb t_customer t_orders t_lineitem t_supplier
         t_nation t_region];
    [|stops].
  destruct (file "nation.tbl") as [x5|] eqn:H5; cbn [loadTable negb t_customer t_orders t_lineitem t_supplier
         t_nation t_region];
    [|stops].
  destruct (file "region.tbl") as [x6|] eqn:H6; cbn [loadTable negb t_customer t_orders t_lineitem t_supplier
         t_nation t_region];
    [|stops].
  eexists _, _. split; [done|]. split.
  - split; [|done]. intros _. open_files.
  - intros k name columns old Hk Hold. each_table k.
Qed.

End first_missing.

(** ** executeQuery5: how it can end *)

Lemma for_each_failure {A S} (body : S → A → result S) l : ∀ s f,
  for_each body l s = Err f → ∃ s0 x, x ∈ l ∧ body s0 x = Err f.
Proof.
  induction l as [|x l IH]; intros s f Hf; [done|]. cbn in Hf.
  destruct (body s x) as [s'|f'] eqn:Hx; cbn in Hf.
  - destruct (IH _ _ Hf) as (s0 & y & Hy & Hb). exists s0, y.
    split; [by right|done].
  - simplify_eq. exists s, x. split; [by left|done].
Qed.

Lemma for_each_fails {A S} (body : S → A → result S) l x :
  x ∈ l → (∀ s, ¬ is_Ok (body s x)) → ∀ s, ¬ is_Ok (for_each body l s).
Proof.
  intros Hx Hbad. induction l as [|y l IH]; intros s; [by inversion Hx|].
  cbn. destruct (body s y) as [s'|f] eqn:Hy; cbn; [|tauto].
  apply elem_of_cons in Hx as [->|Hx]; [|by apply IH].
  specialize (Hbad s). by rewrite Hy in Hbad.
Qed.

Lemma row_at_failure (r : Row) col f :
  row_at r col = Err f → f = Throws out_of_range.
Proof. unfold row_at. destruct (r !! col); by intros [=]. Qed.

(** Any failure of a turn of a filter loop is a failed [at]. *)
Local Ltac failed_at H :=
  cbn in H;
  match type of H with
  | Ok _ = Err _ => discriminate H
  | Err _ = Err _ => by simplify_eq
  | context [row_at ?r ?c] =>
      let E := fresh "E" in
      destruct (row_at r c) eqn:E;
      [|apply row_at_failure in E; cbn in H; by simplify_eq]
  | context [if ?b then _ else _] => destruct b
  | context [match ?o with Some _ => _ | None => _ end] => destruct o
  end.

Lemma region_body_failure r_name keys r f :
  region_body r_name keys r = Err f → f = Throws out_of_range.
Proof. unfold region_body. intros H. do 6 try failed_at H. Qed.

Lemma nation_inner_failure n m r_key f :
  nation_inner n m r_key = Err f → f = Throws out_of_range.
Proof. unfold nation_inner. intros H. do 6 try failed_at H. Qed.

Lemma nation_body_failure keys m n f :
  nation_body keys m n = Err f → f = Throws out_of_range.
Proof.
  unfold nation_body. intros H.
  apply for_each_failure in H as (m0 & k & _ & H).
  by eapply nation_inner_failure.
Qed.

Lemma member_body_failure key_col nation_col nkn m c f :
  member_body key_col nation_col nkn m c = Err f → f = Throws out_of_range.
Proof. unfold member_body. intros H. do 6 try failed_at H. Qed.

Lemma order_body_failure start_date end_date vc m o f :
  order_body start_date end_date vc m o = Err f → f = Throws out_of_range.
Proof. unfold order_body. intros H. do 8 try failed_at H. Qed.

Lemma bind_failure {A B} (r : result A) (k : A → result B) f :
  r ≫= k = Err f → r = Err f ∨ ∃ a, r = Ok a ∧ k a = Err f.
Proof.
  destruct r as [a|f']; intros H; [right; eauto|left].
  cbn in H. by simplify_eq.
Qed.

Lemma dimension_filter_failure r_name start_date end_date customer_data
    orders_data supplier_data nation_data region_data f :
  dimension_filter r_name start_date end_date customer_data orders_data
    supplier_data nation_data region_data = Err f →
  f = Throws out_of_range.
Proof.
  unfold dimension_filter, filter_regions, filter_nations, filter_customers,
    filter_suppliers, filter_orders. intros H.
  apply bind_failure in H as [H|(keys & _ & H)].
  { apply for_each_failure in H as (? & ? & _ & H).
    by eapply region_body_failure. }
  apply bind_failure in H as [H|(nkn & _ & H)].
  { apply for_each_failure in H as (? & ? & _ & H).
    by eapply nation_body_failure. }
  apply bind_failure in H as [H|(vc & _ & H)].
  { apply for_each_failure in H as (? & ? & _ & H).
    by eapply member_body_failure. }
  apply bind_failure in H as [H|(vs & _ & H)].
  { apply for_each_failure in H as (? & ? & _ & H).
    by eapply member_body_failure. }
  apply bind_failure in H as [H|(vo & _ & H)]; [|done].
  apply for_each_failure in H as (? & ? & _ & H).
  by eapply order_body_failure.
Qed.

Lemma executeQuery5_filter_failure stod r_name start_date end_date num_threads
    customer_data orders_data lineitem_data supplier_data nation_data
    region_data results f :
  dimension_filter r_name start_date end_date customer_data orders_data
    supplier_data nation_data region_data = Err f →
  executeQuery5 stod r_name start_date end_date num_threads customer_data
    orders_data lineitem_data supplier_data nation_data region_data results
    = Err (Throws out_of_range).
Proof.
  intros Hf. rewrite (executeQuery5_filter_fails _ _ _ _ _ _ _ _ _ _ _ _ _ Hf).
  by rewrite (dimension_filter_failure _ _ _ _ _ _ _ _ _ Hf).
Qed.

Lemma contribs_failure stod d items f :
  contribs stod d items = Err f →
  ∃ item, item ∈ items ∧ contribution stod d item = Err f.
Proof.
  induction items as [|x items IH]; [done|]. cbn [contribs]. intros H.
  apply bind_failure in H as [H|(c & _ & H)].
  { exists x. split; [by left|done]. }
  apply bind_failure in H as [H|(cs & _ & H)]; [|done].
  destruct (IH H) as (item & Hin & Hitem). exists item.
  split; [by right|done].
Qed.

(** ** executeQuery5 on a host that refuses a thread *)

Lemma for_each_ext {A S} (body body' : S → A → result S) l :
  (∀ s x, x ∈ l → body s x = body' s x) →
  ∀ s, for_each body l s = for_each body' l s.
Proof.
  induction l as [|x l IH]; intros Hext s; [done|].
  cbn [for_each]. rewrite Hext by (by left).
  destruct (body' s x) as [s'|]; [|done]. cbn [mbind result_bind].
  apply IH. intros s0 y Hy. apply Hext. by right.
Qed.

(** When the host creates all the threads, the call is the one the
    properties above are about. *)
Lemma executeQuery5_on_started stod starts r_name start_date end_date
    num_threads customer_data orders_data lineitem_data supplier_data
    nation_data region_data results :
  (∀ i, 0 ≤ i < num_threads → starts i = true) →
  executeQuery5_on stod starts r_name start_date end_date num_threads
    customer_data orders_data lineitem_data supplier_data nation_data
    region_data results
  = executeQuery5 stod r_name start_date end_date num_threads customer_data
      orders_data lineitem_data supplier_data nation_data region_data results.
Proof.
  intros Hs. unfold executeQuery5, executeQuery5_on.
  destruct (dimension_filter _ _ _ _ _ _ _ _) as [d|]; [|done].
  cbn [mbind result_bind].
  destruct (num_threads <? 0); [done|]. destruct (num_threads =? 0); [done|].
  f_equal. apply for_each_ext. intros st i Hi%elem_of_seqZ.
  by rewrite Hs by lia.
Qed.

Section host_facts.

Variable stod : string → exn + float.
Variable starts : Z → bool.
Variable d : Locals.
Variable lineitem_data : list Row.
Variable num_threads : Z.

Hypothesis threads_pos : 1 ≤ num_threads.
Hypothesis items_size_t : Z.of_nat (length lineitem_data) < 2 ^ 64.
Hypothesis guarded : lookups_guarded d.

Local Abbreviation total_items := (Z.of_nat (length lineitem_data)).

(** The launch loop from turn [k] on, the accumulators of the threads yet
    to come being empty: it ends when every one of these threads is created
    and runs through; otherwise a row makes a worker throw, or the host
    refuses a thread. *)
Lemma launch_on_outcomes (m : nat) : ∀ (k : Z) tr,
  0 ≤ k → k + Z.of_nat m = num_threads →
  length tr = Z.to_nat num_threads →
  (∀ i, (Z.to_nat k ≤ i < Z.to_nat num_threads)%nat → tr !! i = Some ∅) →
  match for_each (λ st i, launch_turn stod (starts i) lineitem_data num_threads
                            total_items (total_items / num_threads) st i)
                 (seqZ k (Z.of_nat m)) (with_results d tr) with
  | Ok _ => ∀ i, k ≤ i < num_threads → starts i = true
  | Err f =>
      (∃ item e, item ∈ lineitem_data ∧
                 contribution stod d item = Err (Throws e) ∧
                 f = Terminate e) ∨
      (∃ i, k ≤ i < num_threads ∧ starts i = false ∧
            f = if i =? 0 then Throws system_error
                else Terminate system_error)
  end.
Proof.
  induction m as [|m IH]; intros k tr Hk0 Hkm Hlen Hempty.
  - rewrite seqZ_nil by lia. cbn. intros i Hi. lia.
  - rewrite seqZ_cons by lia. cbn [for_each].
    replace (Z.pred (Z.of_nat (S m))) with (Z.of_nat m) by lia.
    destruct (starts k) eqn:Hsk.
    + change (launch_turn stod true lineitem_data num_threads total_items
                (total_items / num_threads) (with_results d tr) k)
        with (launch_body stod lineitem_data num_threads total_items
                (total_items / num_threads) (with_results d tr) k).
      rewrite (launch_body_contribs stod d lineitem_data num_threads
                 threads_pos items_size_t guarded k tr)
        by (lia || (apply Hempty; lia)).
      destruct (contribs stod d (thread_rows num_threads lineitem_data k))
        as [cs|f] eqn:Hcs; cbn [mbind result_bind in_thread].
      * specialize (IH (Z.succ k) (<[Z.to_nat k := foldl merge_pair ∅ cs]> tr)).
        destruct (for_each _ (seqZ (Z.succ k) (Z.of_nat m)) _) as [st'|f].
        -- intros i Hi. destruct (decide (i = k)) as [->|]; [done|].
           apply IH; [lia|lia|by rewrite length_insert| |lia].
           intros j Hj. rewrite list_lookup_insert_ne by lia. apply Hempty. lia.
        -- destruct IH as [Hitem|(i & Hi & Hsi & Hf)];
             [lia|lia|by rewrite length_insert| |by left|].
           { intros j Hj. rewrite list_lookup_insert_ne by lia.
             apply Hempty. lia. }
           right. exists i. split; [lia|done].
      * apply contribs_failure in Hcs as (item & Hin & Hitem).
        apply elem_of_thread_rows in Hin.
        destruct (contribution_throws _ _ _ _ Hitem) as [e ->].
        cbn [mbind result_bind in_thread]. left. by exists item, e.
    + unfold launch_turn.
      destruct (k =? 0) eqn:Hfirst; cbn [mbind result_bind]; right; exists k;
        (split; [lia|]); (split; [done|]); by rewrite Hfirst.
Qed.

End host_facts.

(** After the dimension filter and with one thread or more: the call
    returns only when the host created every thread, and a failure is an
    exception of a row in a worker thread or a thread the host refused. *)
Lemma executeQuery5_on_scan stod starts r_name start_date end_date num_threads
    customer_data orders_data lineitem_data supplier_data nation_data
    region_data results d :
  1 ≤ num_threads →
  Z.of_nat (length lineitem_data) < 2 ^ 64 →
  dimension_filter r_name start_date end_date customer_data orders_data
    supplier_data nation_data region_data = Ok d →
  match executeQuery5_on stod starts r_name start_date end_date num_threads
          customer_data orders_data lineitem_data supplier_data nation_data
          region_data results with
  | Ok _ => ∀ i, 0 ≤ i < num_threads → starts i = true
  | Err f =>
      (∃ item e, item ∈ lineitem_data ∧
                 contribution stod d item = Err (Throws e) ∧
                 f = Terminate e) ∨
      (∃ i, 0 ≤ i < num_threads ∧ starts i = false ∧
            f = if i =? 0 then Throws system_error
                else Terminate system_error)
  end.
Proof.
  intros HN HM Hd. unfold executeQuery5_on. rewrite Hd.
  cbn [mbind result_bind].
  pose proof (dimension_filter_guarded _ _ _ _ _ _ _ _ _ Hd) as Hg.
  destruct (Z.ltb_spec num_threads 0); [lia|].
  destruct (Z.eqb_spec num_threads 0); [lia|].
  pose proof (launch_on_outcomes stod starts d lineitem_data num_threads HN HM
                Hg (Z.to_nat num_threads) 0
                (replicate (Z.to_nat num_threads) ∅)) as Hrun.
  rewrite Z2Nat.id in Hrun by lia.
  change (with_results d (replicate (Z.to_nat num_threads) ∅))
    with (mkLocals (nation_key_to_name d) (valid_customers d)
            (valid_suppliers d) (valid_orders d)
            (replicate (Z.to_nat num_threads) ∅)) in Hrun.
  destruct (for_each _ (seqZ 0 num_threads) _) as [st'|f];
    cbn [mbind result_bind]; apply Hrun;
    (lia || (by rewrite length_replicate) ||
     (intros i Hi; apply lookup_replicate_2; lia)).
Qed.

(** X8.  How a call of executeQuery5 can end.  A failure of the filter
    loops is std::out_of_range, thrown to the caller whatever the thread
    count.  After the filter, a negative thread count throws
    std::length_error and a count of zero divides by zero.  With one thread
    or more every subscript of the scan is within bounds and there are
    three ways: the host creates every thread and the call returns true; an
    exception in a worker thread, or a thread refused after the first, ends
    the process; the first thread is refused and std::system_error is
    thrown to the caller. *)
Theorem executeQuery5_outcomes (stod : string → exn + float)
    (starts : Z → bool)
    (r_name start_date end_date : string) (num_threads : Z)
    (customer_data orders_data lineitem_data supplier_data nation_data
       region_data : list Row) (results : gmap string float) :
  Z.of_nat (length lineitem_data) < 2 ^ 64 →
  let r :=
    executeQuery5_on stod starts r_name start_date end_date num_threads
      customer_data orders_data lineitem_data supplier_data nation_data
      region_data results in
  match dimension_filter r_name start_date end_date customer_data orders_data
          supplier_data nation_data region_data with
  | Err f => f = Throws out_of_range ∧ r = Err (Throws out_of_range)
  | Ok d =>
      if decide (num_threads < 0) then r = Err (Throws length_error)
      else if decide (num_threads = 0) then r = Err Undefined
      else
        ((∃ out, r = Ok (true, out)) ∧
         ∀ i, 0 ≤ i < num_threads → starts i = true) ∨
        (∃ e, r = Err (Terminate e)) ∨
        (r = Err (Throws system_error) ∧ starts 0 = false)
  end.
Proof.
  intros HM r.
  destruct (dimension_filter _ _ _ _ _ _ _ _) as [d|f] eqn:Hd.
  - repeat case_decide.
    + unfold r, executeQuery5_on. rewrite Hd. cbn [mbind result_bind].
      by rewrite (proj2 (Z.ltb_lt _ _)).
    + subst num_threads. unfold r, executeQuery5_on. by rewrite Hd.
    + pose proof (executeQuery5_on_scan stod starts _ _ _ num_threads _ _ _ _
                    _ _ results d ltac:(lia) HM Hd) as Hscan.
      subst r.
      destruct (executeQuery5_on _ _ _ _ _ _ _ _ _ _ _ _ _) as [[b out]|f]
        eqn:Hr.
      * left. split; [|done]. exists out. f_equal. f_equal.
        rewrite executeQuery5_on_started in Hr by done.
        by apply executeQuery5_returns_true in Hr.
      * right. destruct Hscan as [(item & e & _ & _ & ->)|(i & Hi & Hsi & ->)].
        -- left. by exists e.
        -- destruct (Z.eqb_spec i 0) as [Hi0|Hi0].
           ++ right. by rewrite Hi0 in Hsi.
           ++ left. by exists system_error.
  - split; [by eapply dimension_filter_failure|].
    unfold r, executeQuery5_on. rewrite Hd. cbn.
    by rewrite (dimension_filter_failure _ _ _ _ _ _ _ _ _ Hd).
Qed.

Lemma call_stod_failure stod s f :
  call_stod stod s = Err f → ∃ e, f = Throws e ∧ stod s = inl e.
Proof. unfold call_stod. destruct (stod s) as [e|q]; intros [=]. eauto. Qed.

(** On a line item that has its columns only the reading of a number can
    fail, and it is read only when the line item joins. *)
Lemma contribution_failure stod d item f :
  lookups_guarded d →
  has_cols ["l_orderkey"; "l_suppkey"; "l_extendedprice"; "l_discount"] item →
  contribution stod d item = Err f →
  joins d item ∧
  ∃ e, f = Throws e ∧
       (stod (fld item "l_extendedprice") = inl e ∨
        stod (fld item "l_discount") = inl e).
Proof.
  intros [Hvo Hvs] Hcols. unfold contribution.
  rewrite !(row_at_has item _ _ Hcols) by set_solver.
  cbn [mbind result_bind].
  destruct (valid_orders d !! fld item "l_orderkey") as [c_key|] eqn:Ho;
    [|done].
  destruct (valid_suppliers d !! fld item "l_suppkey") as [s_nation|] eqn:Hs;
    [|done].
  destruct (Hvo _ _ Ho) as [c_nation Hc]. rewrite Hc.
  change (default "" (Some c_nation)) with c_nation.
  destruct (String.eqb_spec c_nation s_nation) as [->|_]; [|done].
  intros H. split; [by exists c_key, s_nation|].
  apply bind_failure in H as [H|(price & _ & H)].
  { apply call_stod_failure in H as (e & -> & He). eauto. }
  apply bind_failure in H as [H|(discount & _ & H)]; [|done].
  apply call_stod_failure in H as (e & -> & He). eauto.
Qed.

(** X9.  On the tables readTPCHData delivers, every [at] of executeQuery5
    finds its column: the filter loops do not throw, and with one thread or
    more the call returns true unless std::stod throws on the price or the
    discount of a line item that joins, which ends the process, or the host
    refuses a thread. *)
Theorem loaded_tables_fail_only_on_numbers (stod : string → exn + float)
    (starts : Z → bool)
    (fs : string → option string) (table_path : string) (b : bool) (t : Tables)
    (r_name start_date end_date : string) (num_threads : Z)
    (results : gmap string float) :
  readTPCHData fs table_path (mkTables [] [] [] [] [] []) = Ok (b, t) →
  1 ≤ num_threads →
  Z.of_nat (length (t_lineitem t)) < 2 ^ 64 →
  let r :=
    executeQuery5_on stod starts r_name start_date end_date num_threads
      (t_customer t) (t_orders t) (t_lineitem t) (t_supplier t) (t_nation t)
      (t_region t) results in
  ∃ d,
    dimension_filter r_name start_date end_date (t_customer t) (t_orders t)
      (t_supplier t) (t_nation t) (t_region t) = Ok d ∧
    ((∃ out, r = Ok (true, out)) ∨
     (∃ item e,
        item ∈ t_lineitem t ∧ joins d item ∧
        (stod (fld item "l_extendedprice") = inl e ∨
         stod (fld item "l_discount") = inl e) ∧
        r = Err (Terminate e)) ∨
     (∃ i, 0 ≤ i < num_threads ∧ starts i = false ∧
           r = Err (if i =? 0 then Throws system_error
                    else Terminate system_error))).
Proof.
  intros Hread HN HM r.
  pose proof (readTPCHData_well_formed _ _ _ _ Hread) as Hwf.
  pose proof (dimension_filter_pure r_name start_date end_date _ _ _ _ _ _ Hwf)
    as Hd.
  eexists. split; [exact Hd|].
  pose proof (executeQuery5_on_scan stod starts _ _ _ _ _ _ _ _ _ _ results _
                HN HM Hd) as Hscan.
  subst r.
  destruct (executeQuery5_on _ _ _ _ _ _ _ _ _ _ _ _ _) as [[b' out]|f] eqn:Hr.
  - left. exists out. do 2 f_equal.
    rewrite executeQuery5_on_started in Hr by done.
    by apply executeQuery5_returns_true in Hr.
  - right. destruct Hscan as [(item & e & Hin & Hitem & ->)|(i & Hi & Hsi & ->)].
    + left. apply contribution_failure in Hitem as (Hj & e' & [= <-] & He).
      * by exists item, e.
      * by apply dimensions_guarded with (lineitem_data := t_lineitem t).
      * destruct Hwf as [_ _ Hli _ _ _]. rewrite Forall_forall in Hli.
        by apply Hli.
    + right. by exists i.
Qed.

(** X10.  executeQuery5 does not clear [results]: it adds what the scan
    finds to the entries the caller's map holds.  The names of the map it
    leaves are those the map held and those a call on an empty map gives;
    an entry under a name the scan does not find stays as it was, and a
    name the map did not hold gets what a call on an empty map gives it.
    The call fails as it does on an empty map. *)
Theorem executeQuery5_adds_to_results (stod : string → exn + float)
    (r_name start_date end_date : string) (num_threads : Z)
    (customer_data orders_data lineitem_data supplier_data nation_data
       region_data : list Row) (results : gmap string float) :
  1 ≤ num_threads →
  Z.of_nat (length lineitem_data) < 2 ^ 64 →
  let run :=
    executeQuery5 stod r_name start_date end_date num_threads customer_data
      orders_data lineitem_data supplier_data nation_data region_data in
  match run ∅ with
  | Ok (_, fresh) =>
      ∃ out, run results = Ok (true, out) ∧
        ∀ name,
          (is_Some (out !! name) ↔
           is_Some (results !! name) ∨ is_Some (fresh !! name)) ∧
          (fresh !! name = None → out !! name = results !! name) ∧
          (results !! name = None → out !! name = fresh !! name)
  | Err f => run results = Err f
  end.
Proof.
  intros HN HM run. unfold run.
  destruct (dimension_filter r_name start_date end_date customer_data
              orders_data supplier_data nation_data region_data)
    as [d|f] eqn:Hd.
  2:{ by rewrite !(executeQuery5_filter_fails _ _ _ _ _ _ _ _ _ _ _ _ _ Hd). }
  rewrite !(executeQuery5_scan _ _ _ _ _ _ _ _ _ _ _ _ _ HN HM Hd).
  destruct (contribs stod d lineitem_data) as [cs|f]; [|done].
  eexists. split; [done|]. intros name.
  rewrite !merge_results_names, lookup_empty. split_and!.
  - split; [intros [?|?]; auto|intros [?|[[? [=]]|?]]; auto].
  - intros Hfresh. apply merge_results_untouched.
    apply Forall_forall. intros p Hp.
    destruct (p !! name) as [v|] eqn:Hv; [|done].
    assert (is_Some (merge_results ∅ (thread_sums stod d num_threads
                                        lineitem_data) !! name)) as [? Hs].
    { apply merge_results_names. right. apply Exists_exists.
      exists p. split; [done|]. by rewrite Hv. }
    congruence.
  - intros Hres. by rewrite !merge_results_fold, Hres, lookup_empty.
Qed.

(** ** executeQuery5: rows without their columns *)

Lemma row_at_missing (r : Row) col : r !! col = None → ∀ B (k : string → result B),
  ¬ is_Ok (row_at r col ≫= k).
Proof. intros Hr B k. unfold row_at. rewrite Hr. cbn. tauto. Qed.

Lemma dimension_filter_missing r_name start_date end_date customer_data
    orders_data supplier_data nation_data region_data :
  (∃ r, r ∈ region_data ∧ r !! "r_name" = None) ∨
  (∃ c, c ∈ customer_data ∧ c !! "c_nationkey" = None) ∨
  (∃ s, s ∈ supplier_data ∧ s !! "s_nationkey" = None) ∨
  (∃ o, o ∈ orders_data ∧ o !! "o_orderdate" = None) →
  ¬ is_Ok (dimension_filter r_name start_date end_date customer_data
             orders_data supplier_data nation_data region_data).
Proof.
  intros Hbad. unfold dimension_filter.
  destruct (filter_regions r_name region_data) as [keys|] eqn:Hr; [|cbn; tauto].
  cbn [mbind result_bind].
  destruct (filter_nations keys nation_data) as [nkn|]; [|cbn; tauto].
  cbn [mbind result_bind].
  destruct (filter_customers nkn customer_data) as [vc|] eqn:Hc; [|cbn; tauto].
  cbn [mbind result_bind].
  destruct (filter_suppliers nkn supplier_data) as [vs|] eqn:Hs; [|cbn; tauto].
  cbn [mbind result_bind].
  destruct (filter_orders start_date end_date vc orders_data) as [vo|] eqn:Ho;
    [|cbn; tauto].
  exfalso.
  destruct Hbad as [(r & Hin & Hr')|[(c & Hin & Hc')|[(s & Hin & Hs')
                   |(o & Hin & Ho')]]].
  - eapply (for_each_fails (region_body r_name) _ r Hin).
    + intros keys0. by apply row_at_missing.
    + unfold filter_regions in Hr. by rewrite Hr.
  - eapply (for_each_fails (member_body "c_custkey" "c_nationkey" nkn) _ c Hin).
    + intros m. by apply row_at_missing.
    + unfold filter_customers in Hc. by rewrite Hc.
  - eapply (for_each_fails (member_body "s_suppkey" "s_nationkey" nkn) _ s Hin).
    + intros m. by apply row_at_missing.
    + unfold filter_suppliers in Hs. by rewrite Hs.
  - eapply (for_each_fails (order_body start_date end_date vc) _ o Hin).
    + intros m. by apply row_at_missing.
    + unfold filter_orders in Ho. by rewrite Ho.
Qed.

(** X11.  A region without r_name, a customer or a supplier without its
    nation key, or an order without o_orderdate makes executeQuery5 throw
    std::out_of_range to its caller, before a thread is started and
    whatever the thread count and the line items are. *)
Theorem executeQuery5_missing_column (stod : string → exn + float)
    (r_name start_date end_date : string) (num_threads : Z)
    (customer_data orders_data lineitem_data supplier_data nation_data
       region_data : list Row) (results : gmap string float) :
  (∃ r, r ∈ region_data ∧ r !! "r_name" = None) ∨
  (∃ c, c ∈ customer_data ∧ c !! "c_nationkey" = None) ∨
  (∃ s, s ∈ supplier_data ∧ s !! "s_nationkey" = None) ∨
  (∃ o, o ∈ orders_data ∧ o !! "o_orderdate" = None) →
  executeQuery5 stod r_name start_date end_date num_threads customer_data
    orders_data lineitem_data supplier_data nation_data region_data results
    = Err (Throws out_of_range).
Proof.
  intros Hbad.
  pose proof (dimension_filter_missing r_name start_date end_date _ _ _
                nation_data _ Hbad) as Hd.
  destruct (dimension_filter r_name start_date end_date customer_data
              orders_data supplier_data nation_data region_data)
    as [d|f] eqn:Hf; [by destruct Hd|].
  by eapply executeQuery5_filter_failure.
Qed.

(** X12.  A line item without l_orderkey or l_suppkey is met in a worker
    thread: with one thread or more, once the filter loops have passed, the
    process ends through std::terminate and nothing is returned. *)
Theorem executeQuery5_line_item_without_key (stod : string → exn + float)
    (r_name start_date end_date : string) (num_threads : Z)
    (customer_data orders_data lineitem_data supplier_data nation_data
       region_data : list Row) (results : gmap string float) (item : Row) :
  1 ≤ num_threads →
  Z.of_nat (length lineitem_data) < 2 ^ 64 →
  is_Ok (dimension_filter r_name start_date end_date customer_data orders_data
           supplier_data nation_data region_data) →
  item ∈ lineitem_data →
  item !! "l_orderkey" = None ∨ item !! "l_suppkey" = None →
  ∃ e,
    executeQuery5 stod r_name start_date end_date num_threads customer_data
      orders_data lineitem_data supplier_data nation_data region_data results
      = Err (Terminate e).
Proof.
  intros HN HM Hd Hin Hbad.
  destruct (dimension_filter _ _ _ _ _ _ _ _) as [d|] eqn:Hf; [|done].
  rewrite (executeQuery5_scan _ _ _ _ _ _ _ _ _ _ _ _ _ HN HM Hf).
  destruct (contribs stod d lineitem_data) as [cs|f] eqn:Hcs.
  - exfalso. eapply (contribs_fails stod d lineitem_data item Hin).
    + unfold contribution. destruct Hbad as [Ho|Hs].
      * by apply row_at_missing.
      * destruct (item !! "l_orderkey") as [o_key|] eqn:Ho;
          [|by apply row_at_missing].
        assert (row_at item "l_orderkey" = Ok o_key) as ->
          by (unfold row_at; by rewrite Ho).
        cbn [mbind result_bind]. by apply row_at_missing.
    + by rewrite Hcs.
  - apply contribs_throws in Hcs as [e ->]. by exists e.
Qed.

(** ** executeQuery5: nothing to add *)

Lemma string_le_compare (a b : string) :
  String.le a b ↔ String.compare a b ≠ Gt.
Proof.
  unfold String.le, String.leb. destruct (String.compare a b); cbn; naive_solver.
Qed.

Lemma string_compare_refl (a : string) : String.compare a a = Eq.
Proof.
  pose proof (String.compare_antisym a a) as H.
  by destruct (String.compare a a).
Qed.

(** No text lies in a window whose start is not before its end. *)
Lemma window_empty start_date end_date dt :
  str_lt start_date end_date = false →
  str_ge dt start_date && str_lt dt end_date = false.
Proof.
  unfold str_lt, str_ge. intros Hse.
  destruct (String.compare dt start_date) eqn:Hds; [|done|];
    (destruct (String.compare dt end_date) eqn:Hde; [done| |done]); exfalso.
  - apply String.compare_eq_iff in Hds as ->. by rewrite Hde in Hse.
  - assert (String.le start_date dt) as H1.
    { apply string_le_compare. rewrite String.compare_antisym, Hds. done. }
    assert (String.le dt end_date) as H2
      by (apply string_le_compare; by rewrite Hde).
    assert (String.le start_date end_date) as H3 by (by etrans).
    apply string_le_compare in H3.
    destruct (String.compare start_date end_date) eqn:Hc; [|done|done].
    apply String.compare_eq_iff in Hc as ->.
    assert (dt = end_date) as -> by (by apply (anti_symm String.le)).
    by rewrite string_compare_refl in Hde.
Qed.

Lemma members_no_nation key_col nation_col table :
  members key_col nation_col ∅ table = ∅.
Proof.
  unfold members. apply put_if_fold_none, Forall_forall.
  intros c _ [? H]. by rewrite lookup_empty in H.
Qed.

Lemma window_orders_no_customer start_date end_date orders_data :
  window_orders start_date end_date ∅ orders_data = ∅.
Proof.
  unfold window_orders. apply put_if_fold_none, Forall_forall.
  intros o _ [_ [? H]]. by rewrite lookup_empty in H.
Qed.

Lemma window_orders_no_window start_date end_date vc orders_data :
  str_lt start_date end_date = false →
  window_orders start_date end_date vc orders_data = ∅.
Proof.
  intros Hw. unfold window_orders. apply put_if_fold_none, Forall_forall.
  intros o _ [H _]. by rewrite window_empty in H.
Qed.

Lemma executeQuery5_nothing_joins stod r_name start_date end_date num_threads
    customer_data orders_data lineitem_data supplier_data nation_data
    region_data results :
  well_formed customer_data orders_data lineitem_data supplier_data
    nation_data region_data →
  1 ≤ num_threads →
  Z.of_nat (length lineitem_data) < 2 ^ 64 →
  Forall (λ item,
            ¬ joins (dimensions r_name start_date end_date customer_data
                       orders_data supplier_data nation_data region_data) item)
         lineitem_data →
  executeQuery5 stod r_name start_date end_date num_threads customer_data
    orders_data lineitem_data supplier_data nation_data region_data results
    = Ok (true, results).
Proof.
  intros Hwf HN HM Hno.
  apply (executeQuery5_nothing_added _ _ _ _ _ _ _ _ _ _ _ _ _ HN HM
           (dimension_filter_pure _ _ _ _ _ _ _ _ _ Hwf)).
  pose proof (dimensions_guarded r_name start_date end_date _ _ _ _ _ _ Hwf)
    as Hg.
  destruct Hwf as [_ _ Hli _ _ _]. rewrite Forall_forall in Hli, Hno.
  apply Forall_forall. intros item Hin. apply contribution_skipped.
  - done.
  - by apply has_cols_keys, Hli.
  - by apply Hno.
Qed.

Lemma no_orders_no_join d item : valid_orders d = ∅ → ¬ joins d item.
Proof. intros He (c & s & Ho & _). by rewrite He, lookup_empty in Ho. Qed.

Lemma no_suppliers_no_join d item : valid_suppliers d = ∅ → ¬ joins d item.
Proof. intros He (c & s & _ & Hs & _). by rewrite He, lookup_empty in Hs. Qed.

(** X13.  When one of the six tables is empty, executeQuery5 returns true
    and leaves [results] as it was: no line item joins. *)
Theorem executeQuery5_empty_table (stod : string → exn + float)
    (r_name start_date end_date : string) (num_threads : Z)
    (customer_data orders_data lineitem_data supplier_data nation_data
       region_data : list Row) (results : gmap string float) :
  well_formed customer_data orders_data lineitem_data supplier_data
    nation_data region_data →
  1 ≤ num_threads →
  Z.of_nat (length lineitem_data) < 2 ^ 64 →
  customer_data = [] ∨ orders_data = [] ∨ lineitem_data = [] ∨
  supplier_data = [] ∨ nation_data = [] ∨ region_data = [] →
  executeQuery5 stod r_name start_date end_date num_threads customer_data
    orders_data lineitem_data supplier_data nation_data region_data results
    = Ok (true, results).
Proof.
  intros Hwf HN HM Hempty. apply executeQuery5_nothing_joins; [done..|].
  destruct Hempty as [->|[->|[->|[->|[->| ->]]]]]; [| |by constructor| | |];
    apply Forall_forall; intros item _.
  - apply no_orders_no_join. cbn. apply window_orders_no_customer.
  - by apply no_orders_no_join.
  - by apply no_suppliers_no_join.
  - apply no_suppliers_no_join. cbn. apply members_no_nation.
  - rewrite dimensions_no_region by done. by apply no_orders_no_join.
Qed.

(** X14.  When start_date is not below end_date as a text, no order date
    lies in the window: executeQuery5 returns true and leaves [results] as
    it was. *)
Theorem executeQuery5_empty_window (stod : string → exn + float)
    (r_name start_date end_date : string) (num_threads : Z)
    (customer_data orders_data lineitem_data supplier_data nation_data
       region_data : list Row) (results : gmap string float) :
  well_formed customer_data orders_data lineitem_data supplier_data
    nation_data region_data →
  1 ≤ num_threads →
  Z.of_nat (length lineitem_data) < 2 ^ 64 →
  str_lt start_date end_date = false →
  executeQuery5 stod r_name start_date end_date num_threads customer_data
    orders_data lineitem_data supplier_data nation_data region_data results
    = Ok (true, results).
Proof.
  intros Hwf HN HM Hw. apply executeQuery5_nothing_joins; [done..|].
  apply Forall_forall. intros item _. apply no_orders_no_join. cbn.
  by apply window_orders_no_window.
Qed.

(** ** executeQuery5: what the result holds *)

Lemma contribs_origin stod d items : ∀ cs p,
  contribs stod d items = Ok cs → p ∈ cs →
  ∃ item, item ∈ items ∧ contribution stod d item = Ok (Some p).
Proof.
  induction items as [|x items IH]; intros cs p Hcs Hp; cbn in Hcs.
  - simplify_eq. by apply not_elem_of_nil in Hp.
  - destruct (contribution stod d x) as [c|] eqn:Hx; [|done]. cbn in Hcs.
    destruct (contribs stod d items) as [cs'|] eqn:Hitems; [|done].
    cbn in Hcs. simplify_eq. apply elem_of_app in Hp as [Hp|Hp].
    + destruct c as [q|]; cbn in Hp; [|by apply not_elem_of_nil in Hp].
      apply list_elem_of_singleton in Hp as ->. exists x.
      split; [by left|done].
    + destruct (IH _ _ eq_refl Hp) as (item & Hin & Hitem). exists item.
      split; [by right|done].
Qed.

(** The name a line item adds revenue under is the one the nation map gives
    the nation of its supplier. *)
Lemma contribution_name stod d item name v :
  contribution stod d item = Ok (Some (name, v)) →
  ∃ s_key s_nation,
    valid_suppliers d !! s_key = Some s_nation ∧
    name = default "" (nation_key_to_name d !! s_nation).
Proof.
  unfold contribution. intros H.
  destruct (row_at item "l_orderkey") as [o_key|]; [|done].
  cbn [mbind result_bind] in H.
  destruct (row_at item "l_suppkey") as [s_key|]; [|done].
  cbn [mbind result_bind] in H.
  destruct (valid_orders d !! o_key) as [c_key|]; [|done].
  destruct (valid_suppliers d !! s_key) as [s_nation|] eqn:Hs; [|done].
  destruct (String.eqb _ s_nation); [|done].
  destruct (row_at item "l_extendedprice") as [p|]; [|done].
  cbn [mbind result_bind] in H.
  destruct (call_stod stod p) as [price|]; [|done].
  cbn [mbind result_bind] in H.
  destruct (row_at item "l_discount") as [t|]; [|done].
  cbn [mbind result_bind] in H.
  destruct (call_stod stod t) as [discount|]; [|done].
  cbn in H. simplify_eq. eauto.
Qed.

(** X15.  The names executeQuery5 adds to [results] are names of nations
    of a region called r_name, also when keys repeat in the tables; the
    entries [results] held on entry stay. *)
Theorem executeQuery5_names_of_region (stod : string → exn + float)
    (r_name start_date end_date : string) (num_threads : Z)
    (customer_data orders_data lineitem_data supplier_data nation_data
       region_data : list Row) (results out : gmap string float) :
  well_formed customer_data orders_data lineitem_data supplier_data
    nation_data region_data →
  1 ≤ num_threads →
  Z.of_nat (length lineitem_data) < 2 ^ 64 →
  executeQuery5 stod r_name start_date end_date num_threads customer_data
    orders_data lineitem_data supplier_data nation_data region_data results
    = Ok (true, out) →
  ∀ name,
    (is_Some (results !! name) → is_Some (out !! name)) ∧
    (is_Some (out !! name) →
     is_Some (results !! name) ∨
     ∃ n r, n ∈ nation_data ∧ r ∈ region_data ∧
            fld n "n_name" = name ∧
            fld n "n_regionkey" = fld r "r_regionkey" ∧
            fld r "r_name" = r_name).
Proof.
  intros Hwf HN HM Hrun name.
  pose proof (dimensions_guarded r_name start_date end_date _ _ _ _ _ _ Hwf)
    as [_ Hvs].
  rewrite (executeQuery5_scan _ _ _ _ _ _ _ _ _ _ _ _ _ HN HM
             (dimension_filter_pure _ _ _ _ _ _ _ _ _ Hwf)) in Hrun.
  destruct (contribs stod _ lineitem_data) as [cs|] eqn:Hcs; [|done].
  assert (out = merge_results results
                  (thread_sums stod
                     (dimensions r_name start_date end_date customer_data
                        orders_data supplier_data nation_data region_data)
                     num_threads lineitem_data)) as -> by congruence.
  rewrite merge_results_names.
  rewrite (thread_sums_names stod _ lineitem_data num_threads HN HM cs name Hcs).
  split; [by auto|]. intros [?|Hin]; [by left|]. right.
  apply list_elem_of_fmap in Hin as ([name' v] & -> & Hp). cbn [fst].
  apply (contribs_origin _ _ _ _ _ Hcs) in Hp as (item & _ & Hitem).
  apply contribution_name in Hitem as (s_key & s_nation & Hs & ->).
  destruct (Hvs _ _ Hs) as [nm Hnm]. rewrite Hnm. cbn [nation_key_to_name
    dimensions] in Hnm.
  apply put_if_fold_origin in Hnm as [Hnm|(n & Hn & Hkey & _ & Hname)];
    [by rewrite lookup_empty in Hnm|].
  apply elem_of_region_keys in Hkey as (r & Hr & Hrn & Hrk).
  exists n, r. by rewrite Hrk.
Qed.

(** ** The filter loops on keys that repeat *)

Lemma put_if_fold_keep (P : Row → Prop) `{∀ r, Decision (P r)}
    key_col val_col l k : ∀ m,
  Forall (λ r, fld r key_col = k → ¬ P r) l →
  foldl (put_if P key_col val_col) m l !! k = m !! k.
Proof.
  induction l as [|r l IH]; intros m Hl; [done|].
  apply Forall_cons in Hl as [Hr Hl]. cbn [foldl]. rewrite IH by done.
  unfold put_if. destruct (decide (P r)) as [HP|]; [|done].
  apply lookup_insert_ne. intros Hk. by apply Hr.
Qed.

(** X16.  A customer key that occurs again is overwritten: the map holds
    the nation of the last customer with that key whose nation lies in the
    region. *)
Theorem filter_customers_last_wins (nation_key_to_name : gmap string string)
    (pre post : list Row) (c : Row) :
  Forall (has_cols ["c_custkey"; "c_nationkey"]) (pre ++ c :: post) →
  is_Some (nation_key_to_name !! fld c "c_nationkey") →
  Forall (λ c', fld c' "c_custkey" = fld c "c_custkey" →
                nation_key_to_name !! fld c' "c_nationkey" = None) post →
  ∃ valid_customers,
    filter_customers nation_key_to_name (pre ++ c :: post) = Ok valid_customers ∧
    valid_customers !! fld c "c_custkey" = Some (fld c "c_nationkey").
Proof.
  intros Hcols Hc Hpost. unfold filter_customers.
  rewrite filter_members_pure by done. eexists. split; [done|].
  unfold members. rewrite foldl_app. cbn [foldl].
  rewrite put_if_fold_keep.
  - unfold put_if. rewrite decide_True by done. apply lookup_insert_eq.
  - eapply Forall_impl; [exact Hpost|]. intros c' Hc' Hk [? Hs].
    rewrite Hc' in Hs; done.
Qed.

(** ** The worker and the aggregation *)

(** X17.  A turn of a worker's loop writes no accumulator but its own
    thread's, and leaves the order and supplier maps as they were. *)
Theorem worker_body_own_accumulator (stod : string → exn + float)
    (lineitem_data : list Row) (thread_id i : Z) (st st' : Locals) :
  worker_body stod lineitem_data thread_id st i = Ok st' →
  valid_orders st' = valid_orders st ∧
  valid_suppliers st' = valid_suppliers st ∧
  length (thread_results st') = length (thread_results st) ∧
  ∀ j : nat, j ≠ Z.to_nat thread_id →
    thread_results st' !! j = thread_results st !! j.
Proof.
  unfold worker_body. intros H.
  destruct (lineitem_data !! Z.to_nat i) as [item|]; [|done].
  destruct (row_at item "l_orderkey") as [o_key|]; [|done].
  cbn [mbind result_bind] in H.
  destruct (row_at item "l_suppkey") as [s_key|]; [|done].
  cbn [mbind result_bind] in H.
  destruct (valid_orders st !! o_key) as [c_key|]; [|by simplify_eq].
  destruct (valid_suppliers st !! s_key) as [s_nation|]; [|by simplify_eq].
  destruct (subscript "" (valid_customers st) c_key) as [c_nation vc].
  destruct (String.eqb c_nation s_nation); [|by simplify_eq].
  destruct (row_at item "l_extendedprice") as [p|]; [|done].
  cbn [mbind result_bind] in H.
  destruct (call_stod stod p) as [price|]; [|done].
  cbn [mbind result_bind] in H.
  destruct (row_at item "l_discount") as [t|]; [|done].
  cbn [mbind result_bind] in H.
  destruct (call_stod stod t) as [discount|]; [|done].
  cbn [mbind result_bind] in H.
  destruct (subscript "" (nation_key_to_name st) s_nation) as [n_name nkn].
  destruct (thread_results st !! Z.to_nat thread_id) as [acc|]; [|done].
  simplify_eq. cbn. split_and!; [done|done|by rewrite length_insert|].
  intros j Hj. by rewrite list_lookup_insert_ne.
Qed.

(** X18.  The aggregation of the per-thread maps, name by name: the thread
    maps are taken in thread order, and a map that holds the name adds its
    value to what the entry holds by then, 0.0 when there is no entry yet.
    The names of the result are those of [results] and of the thread maps,
    and an entry that no thread map holds is left as it was. *)
Theorem merge_results_lookup (parts : list (gmap string float))
    (results : gmap string float) (name : string) :
  merge_results results parts !! name =
    foldl (λ total part,
             match part with
             | Some v => Some (default 0 total + v)%float
             | None => total
             end)
          (results !! name) ((λ p, p !! name) <$> parts) ∧
  (is_Some (merge_results results parts !! name) ↔
   is_Some (results !! name) ∨ Exists (λ p, is_Some (p !! name)) parts) ∧
  (Forall (λ p, p !! name = None) parts →
   merge_results results parts !! name = results !! name).
Proof.
  split_and!.
  - apply merge_results_fold.
  - apply merge_results_names.
  - apply merge_results_untouched.
Qed.

(** ** executeQuery5: the line items in batches and in another order *)

Lemma contribs_perm stod d items items' :
  items ≡ₚ items' → ∀ cs,
  contribs stod d items = Ok cs →
  ∃ cs', contribs stod d items' = Ok cs' ∧ cs ≡ₚ cs'.
Proof.
  induction 1 as [|x l l' _ IH|x y l|l l' l'' _ IH1 _ IH2]; intros cs Hcs.
  - by exists cs.
  - cbn in *. destruct (contribution stod d x) as [c|]; [|done]. cbn in *.
    destruct (contribs stod d l) as [cs0|]; [|done]. cbn in Hcs. simplify_eq.
    destruct (IH _ eq_refl) as (cs' & -> & Hperm). cbn.
    eexists. split; [done|]. by rewrite Hperm.
  - cbn in *. destruct (contribution stod d y) as [cy|]; [|done]. cbn in *.
    destruct (contribution stod d x) as [cx|]; [|done]. cbn in *.
    destruct (contribs stod d l) as [cs0|]; [|done]. cbn in *. simplify_eq.
    eexists. split; [done|].
    rewrite !(assoc_L (++)). f_equiv. apply Permutation_app_comm.
  - destruct (IH1 _ Hcs) as (cs' & Hcs' & Hp1).
    destruct (IH2 _ Hcs') as (cs'' & Hcs'' & Hp2).
    exists cs''. split; [done|by etrans].
Qed.

(** After the dimension filter, whether a call returns and which names
    its map holds is a matter of the contributions of the rows. *)
Lemma executeQuery5_names stod r_name start_date end_date num_threads
    customer_data orders_data lineitem_data supplier_data nation_data
    region_data results d :
  1 ≤ num_threads →
  Z.of_nat (length lineitem_data) < 2 ^ 64 →
  dimension_filter r_name start_date end_date customer_data orders_data
    supplier_data nation_data region_data = Ok d →
  match contribs stod d lineitem_data with
  | Ok cs =>
      ∃ out,
        executeQuery5 stod r_name start_date end_date num_threads
          customer_data orders_data lineitem_data supplier_data nation_data
          region_data results = Ok (true, out) ∧
        ∀ name, is_Some (out !! name) ↔
                is_Some (results !! name) ∨ name ∈ cs.*1
  | Err f =>
      executeQuery5 stod r_name start_date end_date num_threads
        customer_data orders_data lineitem_data supplier_data nation_data
        region_data results = Err (thread_failure f)
  end.
Proof.
  intros HN HM Hd.
  rewrite (executeQuery5_scan _ _ _ _ _ _ _ _ _ _ _ _ _ HN HM Hd).
  destruct (contribs stod d lineitem_data) as [cs|f] eqn:Hcs; [|done].
  eexists. split; [done|]. intros name.
  rewrite merge_results_names.
  by rewrite (thread_sums_names stod d lineitem_data num_threads HN HM cs name
                Hcs).
Qed.

(** X19.  A line-item table can be scanned in two batches: a call on the
    whole table returns exactly when a call on a first part returns and a
    second call on the rest, given the map the first call left, returns;
    the two ways leave maps with the same nation names.  The thread counts
    of the three calls are free.  The revenues are sums of the same
    contributions grouped in another way, and may differ. *)
Theorem executeQuery5_in_batches (stod : string → exn + float)
    (r_name start_date end_date : string) (num_threads n1 n2 : Z)
    (customer_data orders_data first rest supplier_data nation_data
       region_data : list Row) (results : gmap string float) :
  1 ≤ num_threads → 1 ≤ n1 → 1 ≤ n2 →
  Z.of_nat (length (first ++ rest)) < 2 ^ 64 →
  let run n lineitem_data :=
    executeQuery5 stod r_name start_date end_date n customer_data
      orders_data lineitem_data supplier_data nation_data region_data in
  (is_Ok (run num_threads (first ++ rest)%list results) ↔
   ∃ partial, run n1 first results = Ok (true, partial) ∧
              is_Ok (run n2 rest partial)) ∧
  (∀ out partial out',
     run num_threads (first ++ rest)%list results = Ok (true, out) →
     run n1 first results = Ok (true, partial) →
     run n2 rest partial = Ok (true, out') →
     ∀ name, is_Some (out !! name) ↔ is_Some (out' !! name)).
Proof.
  intros HN H1 H2 HM run. unfold run. pose proof HM as HM'.
  rewrite length_app in HM'.
  destruct (dimension_filter r_name start_date end_date customer_data
              orders_data supplier_data nation_data region_data)
    as [d|f] eqn:Hd.
  2:{ rewrite !(executeQuery5_filter_fails _ _ _ _ _ _ _ _ _ _ _ _ _ Hd).
      split; [|done]. split; [done|]. by intros (? & ? & ?). }
  pose proof (executeQuery5_names stod _ _ _ num_threads _ _ (first ++ rest)%list
                _ _ _ results d HN HM Hd) as Hall.
  pose proof (executeQuery5_names stod _ _ _ n1 _ _ first _ _ _ results d H1
                ltac:(lia) Hd) as Hfirst.
  rewrite contribs_app in Hall.
  destruct (contribs stod d first) as [cs1|f1]; cbn [mbind result_bind] in Hall.
  2:{ rewrite Hall, Hfirst. split; [|done]. split; [done|].
      by intros (? & ? & ?). }
  destruct Hfirst as (partial & Hfirst & Hnames1). rewrite Hfirst.
  pose proof (executeQuery5_names stod _ _ _ n2 _ _ rest _ _ _ partial d H2
                ltac:(lia) Hd) as Hrest.
  destruct (contribs stod d rest) as [cs2|f2]; cbn [mbind result_bind] in Hall.
  2:{ rewrite Hall. split; [|done]. split; [done|].
      intros (p & [= <-] & Hok). by rewrite Hrest in Hok. }
  destruct Hall as (out & Hall & Hnames).
  destruct Hrest as (out' & Hrest & Hnames2). rewrite Hall. split.
  - split; [|done]. intros _. exists partial. split; [done|].
    by rewrite Hrest.
  - intros ??? [= <-] [= <-] Hout' name. rewrite Hrest in Hout'.
    simplify_eq. rewrite Hnames, Hnames2, Hnames1, fmap_app, elem_of_app.
    tauto.
Qed.

(** X20.  The order of the line items does not decide whether a call
    returns nor which nation names its map holds: on the same rows in any
    other order, and with any thread count, the call returns exactly when
    the first does, with the same names.  The revenues are sums of the same
    contributions in another order, and may differ. *)
Theorem executeQuery5_any_row_order (stod : string → exn + float)
    (r_name start_date end_date : string) (num_threads num_threads' : Z)
    (customer_data orders_data lineitem_data lineitem_data' supplier_data
       nation_data region_data : list Row) (results : gmap string float) :
  lineitem_data ≡ₚ lineitem_data' →
  1 ≤ num_threads → 1 ≤ num_threads' →
  Z.of_nat (length lineitem_data) < 2 ^ 64 →
  let run n items :=
    executeQuery5 stod r_name start_date end_date n customer_data
      orders_data items supplier_data nation_data region_data results in
  (is_Ok (run num_threads lineitem_data) ↔
   is_Ok (run num_threads' lineitem_data')) ∧
  (∀ out out',
     run num_threads lineitem_data = Ok (true, out) →
     run num_threads' lineitem_data' = Ok (true, out') →
     ∀ name, is_Some (out !! name) ↔ is_Some (out' !! name)).
Proof.
  intros Hperm HN HN' HM run. unfold run.
  assert (Z.of_nat (length lineitem_data') < 2 ^ 64) as HM'
    by (by rewrite <-Hperm).
  destruct (dimension_filter r_name start_date end_date customer_data
              orders_data supplier_data nation_data region_data)
    as [d|f] eqn:Hd.
  2:{ by rewrite !(executeQuery5_filter_fails _ _ _ _ _ _ _ _ _ _ _ _ _ Hd). }
  pose proof (executeQuery5_names stod _ _ _ num_threads _ _ lineitem_data
                _ _ _ results d HN HM Hd) as H1.
  pose proof (executeQuery5_names stod _ _ _ num_threads' _ _ lineitem_data'
                _ _ _ results d HN' HM' Hd) as H2.
  destruct (contribs stod d lineitem_data) as [cs|f] eqn:Hcs.
  - destruct (contribs_perm _ _ _ _ Hperm _ Hcs) as (cs' & Hcs' & Hp).
    rewrite Hcs' in H2.
    destruct H1 as (out & -> & Hn1). destruct H2 as (out' & -> & Hn2).
    split; [done|]. intros ?? [= <-] [= <-] name.
    by rewrite Hn1, Hn2, Hp.
  - destruct (contribs stod d lineitem_data') as [cs'|f'] eqn:Hcs'.
    + symmetry in Hperm.
      destruct (contribs_perm _ _ _ _ Hperm _ Hcs') as (? & ? & _).
      congruence.
    + rewrite H1, H2. done.
Qed.

(** ** The threads interleaved: every schedule can be completed *)

Lemma sum_list_cons (x : nat) l : sum_list (x :: l) = (x + sum_list l)%nat.
Proof. done. Qed.

Lemma sum_list_imap_insert (f : nat → Z → nat) (l : list Z) : ∀ (i : nat) x y,
  l !! i = Some x →
  (sum_list (imap f (<[i := y]> l)) + f i x
   = sum_list (imap f l) + f i y)%nat.
Proof.
  revert f. induction l as [|z l IH]; intros f i x y Hi; [done|].
  destruct i as [|i]; cbn in Hi.
  - simplify_eq. change (<[0%nat := y]> (x :: l)) with (y :: l).
    rewrite !imap_cons, !sum_list_cons. lia.
  - change (<[S i := y]> (z :: l)) with (z :: <[i := y]> l).
    rewrite !imap_cons, !sum_list_cons.
    specialize (IH (f ∘ S) i x y Hi).
    change ((f ∘ S) i x) with (f (S i) x) in IH.
    change ((f ∘ S) i y) with (f (S i) y) in IH. lia.
Qed.

Lemma sum_list_imap_zero (f : nat → Z → nat) (l : list Z) : ∀ (i : nat) x,
  sum_list (imap f l) = 0%nat → l !! i = Some x → f i x = 0%nat.
Proof.
  revert f. induction l as [|z l IH]; intros f i x Hsum Hi; [done|].
  rewrite imap_cons, sum_list_cons in Hsum.
  destruct i as [|i]; cbn in Hi.
  - simplify_eq. lia.
  - apply (IH (f ∘ S) i x); [lia|done].
Qed.

Lemma sum_list_imap_positive (f : nat → Z → nat) (l : list Z) :
  sum_list (imap f l) ≠ 0%nat →
  ∃ (i : nat) x, l !! i = Some x ∧ f i x ≠ 0%nat.
Proof.
  revert f. induction l as [|z l IH]; intros f Hsum; [done|].
  rewrite imap_cons, sum_list_cons in Hsum.
  destruct (decide (f 0%nat z = 0%nat)) as [Hz|Hz].
  - destruct (IH (f ∘ S)) as (i & x & Hi & Hx); [lia|].
    by exists (S i), x.
  - by exists 0%nat, z.
Qed.

Section pool_progress.

Variable stod : string → exn + float.
Variable d : Locals.
Variable lineitem_data : list Row.
Variable num_threads : Z.

Hypothesis threads_pos : 1 ≤ num_threads.
Hypothesis items_size_t : Z.of_nat (length lineitem_data) < 2 ^ 64.
Hypothesis guarded : lookups_guarded d.
Hypothesis scan_returns : is_Ok (contribs stod d lineitem_data).

Local Abbreviation total_items := (Z.of_nat (length lineitem_data)).
Local Abbreviation chunk_size := (total_items / num_threads).
Local Abbreviation step :=
  (pool_step stod lineitem_data num_threads total_items chunk_size).
Local Abbreviation runs :=
  (pool_runs stod lineitem_data num_threads total_items chunk_size).
Local Abbreviation invariant := (pool_inv stod d lineitem_data num_threads).
Local Abbreviation finished := (pool_done num_threads total_items chunk_size).
Local Abbreviation remaining :=
  (turns_left num_threads total_items chunk_size).

Lemma turns_left_done p : remaining p = 0%nat → finished p.
Proof.
  intros Hleft i pc Hpc. unfold turns_left in Hleft.
  pose proof (sum_list_imap_zero _ _ _ _ Hleft Hpc) as Hz. cbn in Hz. lia.
Qed.

Lemma pool_takes_turn p :
  invariant p → remaining p ≠ 0%nat →
  ∃ p', step p (Ok p') ∧ (remaining p' < remaining p)%nat.
Proof.
  intros Hinv Hleft. unfold turns_left in Hleft.
  apply sum_list_imap_positive in Hleft as (i & pc & Hpc & Hlt). cbn in Hlt.
  assert (pc < chunk_end num_threads total_items chunk_size (Z.of_nat i))
    as Hlt' by lia.
  pose proof (pool_turn stod lineitem_data num_threads total_items chunk_size
                p i pc Hpc Hlt') as Hstep.
  pose proof (pool_step_safe stod d lineitem_data num_threads threads_pos
                items_size_t guarded _ _ Hinv scan_returns Hstep) as Hok.
  destruct (in_thread (worker_body stod lineitem_data (Z.of_nat i)
                         (pool_locals p) pc)) as [st'|] eqn:Hst; [|done].
  cbn [mbind result_bind] in Hstep. eexists. split; [exact Hstep|].
  unfold turns_left. cbn [pool_next].
  pose proof (sum_list_imap_insert
    (λ (i : nat) pc, Z.to_nat (chunk_end num_threads total_items chunk_size
                                 (Z.of_nat i) - pc))
    (pool_next p) i pc (pc + 1) Hpc) as Hsum.
  cbn in Hsum. lia.
Qed.

Lemma pool_completes (n : nat) : ∀ p,
  invariant p → (remaining p ≤ n)%nat → ∃ p', runs p p' ∧ finished p'.
Proof.
  induction n as [|n IH]; intros p Hinv Hn.
  - exists p. split; [constructor|]. apply turns_left_done. lia.
  - destruct (decide (remaining p = 0%nat)) as [Hz|Hz].
    + exists p. split; [constructor|]. by apply turns_left_done.
    + destruct (pool_takes_turn p Hinv Hz) as (p' & Hstep & Hless).
      destruct (IH p') as (p'' & Hruns & Hdone).
      * by eapply (pool_inv_step stod d lineitem_data num_threads).
      * lia.
      * exists p''. split; [|done]. by econstructor.
Qed.

End pool_progress.

(** X21.  When executeQuery5 returns, the threads cannot get stuck: from
    whatever state an interleaving has reached, turns can be taken until
    every thread is at the end of its range.  When executeQuery5 does not
    return after the filter loops, no interleaving gets there. *)
Theorem pool_runs_to_completion (stod : string → exn + float)
    (r_name start_date end_date : string) (num_threads : Z)
    (customer_data orders_data lineitem_data supplier_data nation_data
       region_data : list Row) (results : gmap string float) (d : Locals) :
  1 ≤ num_threads →
  Z.of_nat (length lineitem_data) < 2 ^ 64 →
  dimension_filter r_name start_date end_date customer_data orders_data
    supplier_data nation_data region_data = Ok d →
  let total_items := Z.of_nat (length lineitem_data) in
  let chunk_size := total_items / num_threads in
  let start :=
    pool_start num_threads chunk_size
      (with_results d (replicate (Z.to_nat num_threads) ∅)) in
  let runs := pool_runs stod lineitem_data num_threads total_items chunk_size in
  let finished := pool_done num_threads total_items chunk_size in
  let returns :=
    is_Ok (executeQuery5 stod r_name start_date end_date num_threads
             customer_data orders_data lineitem_data supplier_data nation_data
             region_data results) in
  (returns → ∀ p, runs start p → ∃ p', runs p p' ∧ finished p') ∧
  ((∃ p, runs start p ∧ finished p) → returns).
Proof.
  intros HN HM Hd total_items chunk_size start runs finished returns.
  pose proof (dimension_filter_guarded _ _ _ _ _ _ _ _ _ Hd) as Hg.
  unfold returns.
  rewrite (executeQuery5_scan _ _ _ _ _ _ _ _ _ _ _ _ _ HN HM Hd).
  pose proof (pool_inv_start stod d lineitem_data num_threads HN HM) as Hstart.
  split.
  - intros Hret p Hruns.
    assert (is_Ok (contribs stod d lineitem_data)) as Hscan
      by (by destruct (contribs stod d lineitem_data)).
    eapply (pool_completes stod d lineitem_data num_threads HN HM Hg Hscan);
      [|done].
    by eapply (pool_inv_runs stod d lineitem_data num_threads HN HM Hg).
  - intros (p & Hruns & Hdone).
    pose proof (pool_inv_runs stod d lineitem_data num_threads HN HM Hg _ _
                  Hstart Hruns) as Hinv.
    destruct (pool_done_contribs stod d lineitem_data num_threads HN HM p
                Hinv Hdone) as [Hok _].
    by destruct (contribs stod d lineitem_data).
Qed.

(** ** outputResults without ties *)

Lemma sorted_perm_unique {A} `{EqDecision A} (comp : A → A → bool) (l1 : list A) :
  ∀ l2,
  (∀ x y, x ∈ l1 → y ∈ l1 → x ≠ y → comp x y = true ∨ comp y x = true) →
  l1 ≡ₚ l2 → sorted_by comp l1 → sorted_by comp l2 → l1 = l2.
Proof.
  induction l1 as [|x l1 IH]; intros l2 Htri Hperm Hs1 Hs2.
  - symmetry. by apply Permutation_nil.
  - destruct l2 as [|y l2]; [by apply Permutation_nil_r in Hperm|].
    apply sorted_by_cons in Hs1 as [Hx Hs1].
    apply sorted_by_cons in Hs2 as [Hy Hs2].
    destruct (decide (x = y)) as [->|Hne].
    + f_equal. apply IH; [|by eapply Permutation_cons_inv|done|done].
      intros a b Ha Hb. apply Htri; by right.
    + exfalso.
      assert (y ∈ l1) as Hyin.
      { assert (y ∈ x :: l1) as Hin by (rewrite Hperm; by left).
        apply elem_of_cons in Hin as [?|?]; [congruence|done]. }
      assert (x ∈ l2) as Hxin.
      { assert (x ∈ y :: l2) as Hin by (rewrite <-Hperm; by left).
        apply elem_of_cons in Hin as [?|?]; [congruence|done]. }
      specialize (Hx _ Hyin). specialize (Hy _ Hxin).
      destruct (Htri x y) as [H|H]; [by left|by right|done|congruence..].
Qed.

(** X22.  When of any two nations one has the smaller revenue (no two
    revenues are equal, 0.0 and -0.0 counting as equal, and none is NaN
    unless it is the only one), the file written is determined by
    [results]: every sort that meets std::sort's contract gives the same
    lines in the same order. *)
Theorem outputResults_no_ties
    (sort1 sort2 : ∀ A : Type, (A → A → bool) → list A → list A)
    (results : gmap string float) :
  sort_contract sort1 → sort_contract sort2 →
  (∀ n1 n2 v1 v2, n1 ≠ n2 →
     results !! n1 = Some v1 → results !! n2 = Some v2 →
     (v1 <? v2)%float = true ∨ (v2 <? v1)%float = true) →
  outputResults sort1 true results = outputResults sort2 true results.
Proof.
  intros H1 H2 Hties. unfold outputResults. do 2 f_equal.
  assert (∀ x y, x ∈ map_items results → y ∈ map_items results → x ≠ y →
            by_revenue_desc x y = true ∨ by_revenue_desc y x = true) as Htotal.
  { intros [n1 v1] [n2 v2] Hin1%elem_of_map_items Hin2%elem_of_map_items Hne.
    unfold by_revenue_desc. cbn [snd].
    destruct (decide (n1 = n2)) as [->|Hn]; [congruence|].
    destruct (Hties n1 n2 v1 v2 Hn Hin1 Hin2); auto. }
  destruct (H1 _ by_revenue_desc (map_items results)
              (by_revenue_desc_strict_weak_total _ Htotal)) as [Hp1 Hs1].
  destruct (H2 _ by_revenue_desc (map_items results)
              (by_revenue_desc_strict_weak_total _ Htotal)) as [Hp2 Hs2].
  apply (sorted_perm_unique by_revenue_desc); [|by rewrite Hp1, Hp2|done..].
  intros x y Hx Hy. rewrite Hp1 in Hx, Hy. by apply Htotal.
Qed.

(** Any two revenues of the map compare when those of its pairs, listed,
    do. *)
Lemma revenues_compare (results : gmap string float) :
  Forall (λ p, Forall (λ q, p.1 = q.1 ∨
                            (p.2 <? q.2)%float || (q.2 <? p.2)%float = true)
                      (map_to_list results))
         (map_to_list results) →
  ∀ n1 n2 v1 v2, n1 ≠ n2 →
    results !! n1 = Some v1 → results !! n2 = Some v2 →
    (v1 <? v2)%float = true ∨ (v2 <? v1)%float = true.
Proof.
  rewrite Forall_forall. intros Hall n1 n2 v1 v2 Hne H1 H2.
  apply elem_of_map_to_list in H1, H2.
  specialize (Hall _ H1). rewrite Forall_forall in Hall.
  destruct (Hall _ H2) as [?|Hc]; [done|].
  by apply orb_true_iff in Hc.
Qed.

(** ** parseArgs on options with their values *)

Lemma given_cons flag f v options :
  given flag ((f, v) :: options) =
    match given flag options with
    | Some x => Some x
    | None => if decide (f = flag) then Some v else None
    end.
Proof.
  unfold given. rewrite filter_cons. cbn [fst].
  destruct (decide (f = flag)) as [->|Hne].
  - rewrite last_cons. by destruct (last _).
  - by destruct (last _).
Qed.

(** The value of a field after an option was read. *)
Local Ltac field_after IH :=
  rewrite given_cons;
  match goal with
  | |- context [given ?f ?l] =>
      destruct (given f l); [exact IH|];
      (rewrite decide_True in * by done) || (rewrite decide_False in * by done);
      exact IH
  end.

Lemma parse_flags_options options : ∀ a a',
  Forall (λ o, o.1 ∈ flags) options →
  parse_flags (option_words options) a = Ok a' →
  arg_r_name a' = default (arg_r_name a) (given "--r_name" options) ∧
  arg_start_date a' = default (arg_start_date a) (given "--start_date" options) ∧
  arg_end_date a' = default (arg_end_date a) (given "--end_date" options) ∧
  arg_table_path a' = default (arg_table_path a) (given "--table_path" options) ∧
  arg_result_path a'
    = default (arg_result_path a) (given "--result_path" options) ∧
  match given "--threads" options with
  | Some v => stoi v = Ok (arg_num_threads a')
  | None => arg_num_threads a' = arg_num_threads a
  end.
Proof.
  induction options as [|[f v] options IH]; intros a a' Hflags Hparse.
  - cbn in Hparse. by simplify_eq.
  - apply Forall_cons in Hflags as [Hf Hflags]. cbn [fst] in Hf.
    change (option_words ((f, v) :: options))
      with (f :: v :: option_words options) in Hparse.
    cbn [parse_flags] in Hparse. unfold flags in Hf.
    repeat (apply elem_of_cons in Hf as [->|Hf]);
      [..|by apply not_elem_of_nil in Hf];
      cbv beta iota delta [String.eqb Ascii.eqb Bool.eqb] in Hparse.
    + destruct (IH _ _ Hflags Hparse) as (I1 & I2 & I3 & I4 & I5 & I6).
      cbn [arg_r_name arg_start_date arg_end_date arg_num_threads
           arg_table_path arg_result_path] in *.
      split_and!; field_after I1 || field_after I2 || field_after I3
                  || field_after I4 || field_after I5 || field_after I6.
    + destruct (IH _ _ Hflags Hparse) as (I1 & I2 & I3 & I4 & I5 & I6).
      cbn [arg_r_name arg_start_date arg_end_date arg_num_threads
           arg_table_path arg_result_path] in *.
      split_and!; field_after I1 || field_after I2 || field_after I3
                  || field_after I4 || field_after I5 || field_after I6.
    + destruct (IH _ _ Hflags Hparse) as (I1 & I2 & I3 & I4 & I5 & I6).
      cbn [arg_r_name arg_start_date arg_end_date arg_num_threads
           arg_table_path arg_result_path] in *.
      split_and!; field_after I1 || field_after I2 || field_after I3
                  || field_after I4 || field_after I5 || field_after I6.
    + destruct (stoi v) as [n|] eqn:Hn; [|done].
      cbn [mbind result_bind] in Hparse.
      destruct (IH _ _ Hflags Hparse) as (I1 & I2 & I3 & I4 & I5 & I6).
      cbn [arg_r_name arg_start_date arg_end_date arg_num_threads
           arg_table_path arg_result_path] in *.
      split_and!; try (field_after I1 || field_after I2 || field_after I3
                       || field_after I4 || field_after I5).
      rewrite given_cons. destruct (given "--threads" options); [done|].
      rewrite decide_True by done. by rewrite Hn, I6.
    + destruct (IH _ _ Hflags Hparse) as (I1 & I2 & I3 & I4 & I5 & I6).
      cbn [arg_r_name arg_start_date arg_end_date arg_num_threads
           arg_table_path arg_result_path] in *.
      split_and!; field_after I1 || field_after I2 || field_after I3
                  || field_after I4 || field_after I5 || field_after I6.
    + destruct (IH _ _ Hflags Hparse) as (I1 & I2 & I3 & I4 & I5 & I6).
      cbn [arg_r_name arg_start_date arg_end_date arg_num_threads
           arg_table_path arg_result_path] in *.
      split_and!; field_after I1 || field_after I2 || field_after I3
                  || field_after I4 || field_after I5 || field_after I6.
Qed.

(** X23.  On a command line made of known options, each followed by its
    value, parseArgs gives every variable the value of the last occurrence
    of its option, whatever the order of the options, and leaves a variable
    whose option is not given as the caller initialised it.  A value is
    taken as it stands, also when it spells an option. *)
Theorem parseArgs_options (program : string) (options : list (string * string))
    (a a' : Args) (b : bool) :
  Forall (λ o, o.1 ∈ flags) options →
  parseArgs (program :: option_words options) a = Ok (b, a') →
  arg_r_name a' = default (arg_r_name a) (given "--r_name" options) ∧
  arg_start_date a' = default (arg_start_date a) (given "--start_date" options) ∧
  arg_end_date a' = default (arg_end_date a) (given "--end_date" options) ∧
  arg_table_path a' = default (arg_table_path a) (given "--table_path" options) ∧
  arg_result_path a'
    = default (arg_result_path a) (given "--result_path" options) ∧
  match given "--threads" options with
  | Some v => stoi v = Ok (arg_num_threads a')
  | None => arg_num_threads a' = arg_num_threads a
  end.
Proof.
  intros Hflags Hparse. apply parse_flags_options; [done|].
  unfold parseArgs in Hparse. cbn [tail] in Hparse.
  destruct (parse_flags (option_words options) a) as [a0|]; [|done].
  cbn in Hparse. destruct (args_rejected a0); by simplify_eq.
Qed.

Lemma parse_flags_last_word options w : ∀ a,
  Forall (λ o, o.1 ∈ flags) options →
  parse_flags (option_words options ++ [w]) a
    = parse_flags (option_words options) a.
Proof.
  induction options as [|[f v] options IH]; intros a Hflags; [done|].
  apply Forall_cons in Hflags as [Hf Hflags]. cbn [fst] in Hf.
  change (option_words ((f, v) :: options) ++ [w])%list
    with (f :: v :: (option_words options ++ [w]))%list.
  change (option_words ((f, v) :: options))
    with (f :: v :: option_words options).
  cbn [parse_flags]. unfold flags in Hf.
  repeat (apply elem_of_cons in Hf as [->|Hf]);
    [..|by apply not_elem_of_nil in Hf];
    cbv beta iota delta [String.eqb Ascii.eqb Bool.eqb].
  4:{ destruct (stoi v) as [n|]; [|reflexivity]. exact (IH _ Hflags). }
  all: exact (IH _ Hflags).
Qed.

(** X24.  A last word that has no word after it is passed over, whether
    it spells an option or not: an option given without its value at the
    end of the command line is no error and sets nothing. *)
Theorem parseArgs_last_word_ignored (program w : string)
    (options : list (string * string)) (a : Args) :
  Forall (λ o, o.1 ∈ flags) options →
  parseArgs (program :: option_words options ++ [w]) a
    = parseArgs (program :: option_words options) a.
Proof.
  intros Hflags. unfold parseArgs. cbn [tail].
  by rewrite parse_flags_last_word.
Qed.

(** ** From parseArgs to the loader and the engine *)

Lemma readTPCHData_returns fs table_path t :
  table_path ≠ "" → is_Ok (readTPCHData fs table_path t).
Proof.
  intros Hne.
  destruct (last_char table_path) as [c|] eqn:Hc;
    [|by apply last_char_None in Hc].
  unfold readTPCHData. rewrite Hc.
  cbn [t_customer t_orders t_lineitem t_supplier t_nation t_region].
  repeat match goal with
         | |- context [loadTable ?f ?t ?c] =>
             destruct (loadTable f t c) as [[] ?]; cbn [negb]; [|done]
         end.
  done.
Qed.

Lemma executeQuery5_with_threads stod starts r_name start_date end_date
    num_threads customer_data orders_data lineitem_data supplier_data
    nation_data region_data results :
  1 ≤ num_threads →
  Z.of_nat (length lineitem_data) < 2 ^ 64 →
  let r :=
    executeQuery5_on stod starts r_name start_date end_date num_threads
      customer_data orders_data lineitem_data supplier_data nation_data
      region_data results in
  (∃ out, r = Ok (true, out)) ∨ r = Err (Throws out_of_range) ∨
  (∃ e, r = Err (Terminate e)) ∨ r = Err (Throws system_error).
Proof.
  intros HN HM r. subst r.
  destruct (dimension_filter r_name start_date end_date customer_data
              orders_data supplier_data nation_data region_data)
    as [d|f] eqn:Hd.
  - pose proof (executeQuery5_on_scan stod starts _ _ _ _ _ _ _ _ _ _ results _
                  HN HM Hd) as Hscan.
    destruct (executeQuery5_on _ _ _ _ _ _ _ _ _ _ _ _ _) as [[b out]|f]
      eqn:Hr.
    + left. exists out. do 2 f_equal.
      rewrite executeQuery5_on_started in Hr by done.
      by apply executeQuery5_returns_true in Hr.
    + right. right.
      destruct Hscan as [(item & e & _ & _ & ->)|(i & Hi & Hsi & ->)].
      * left. by exists e.
      * destruct (i =? 0); [by right|left; by exists system_error].
  - right. left. unfold executeQuery5_on. rewrite Hd. cbn.
    by rewrite (dimension_filter_failure _ _ _ _ _ _ _ _ _ Hd).
Qed.

(** X25.  What parseArgs checks before it returns true is what the calls
    that follow need: the table path is not empty, so that readTPCHData
    reads its last character and returns; the thread count is positive, so
    that executeQuery5 neither divides by zero nor asks for a vector of
    negative size.  The call then returns true, throws std::out_of_range
    from a filter loop, ends the process from a worker thread or a refused
    thread, or throws std::system_error when the first thread is refused. *)
Theorem parseArgs_true_calls_defined (argv : list string) (a a' : Args) :
  parseArgs argv a = Ok (true, a') →
  (∀ fs t, is_Ok (readTPCHData fs (arg_table_path a') t)) ∧
  (∀ stod starts customer_data orders_data lineitem_data supplier_data
     nation_data region_data results,
     Z.of_nat (length lineitem_data) < 2 ^ 64 →
     let r :=
       executeQuery5_on stod starts (arg_r_name a') (arg_start_date a')
         (arg_end_date a') (arg_num_threads a') customer_data orders_data
         lineitem_data supplier_data nation_data region_data results in
     (∃ out, r = Ok (true, out)) ∨ r = Err (Throws out_of_range) ∨
     (∃ e, r = Err (Terminate e)) ∨ r = Err (Throws system_error)).
Proof.
  unfold parseArgs. intros Hparse.
  destruct (parse_flags (tail argv) a) as [a0|]; [|done]. cbn in Hparse.
  destruct (args_rejected a0) eqn:Hrej; simplify_eq.
  assert (¬ args_missing a') as Hok.
  { intros Hmiss%args_rejected_missing. congruence. }
  unfold args_missing in Hok. split.
  - intros fs t. apply readTPCHData_returns. tauto.
  - intros. apply executeQuery5_with_threads; [lia|done].
Qed.

(** * The further properties on the sample data *)

Module Instances.

Import Sample Fixtures.

Lemma fields_split :
  split (terminated "|" ["1"; ""; "ASIA"]) "|" = ["1"; ""; "ASIA"].
Proof. apply (split_terminated_fields "|" ["1"; ""; "ASIA"]). by_evaluation. Defined.

Lemma region_row_lookup :
  (∀ (i : nat) c, region_columns !! i = Some c →
     load_row region_columns ["2"; "ASIA"; "ges"; "more"] !! c
       = ["2"; "ASIA"; "ges"; "more"] !! i) ∧
  (∀ c, c ∉ region_columns →
     load_row region_columns ["2"; "ASIA"; "ges"; "more"] !! c = None).
Proof.
  apply (load_row_lookup region_columns ["2"; "ASIA"; "ges"; "more"]);
    by_evaluation.
Defined.

Lemma region_file_read_back :
  loadTable
    (Some (tbl_text [["2"; "ASIA"; "ges"]; []; ["3"];
                     ["3"; "EUROPE"; "ly"; "more"]]))
    [] region_columns =
  (true,
   ([] ++ (load_row region_columns <$>
             filter (loadable region_columns)
               [["2"; "ASIA"; "ges"]; []; ["3"];
                ["3"; "EUROPE"; "ly"; "more"]]))%list).
Proof.
  apply (loadTable_tbl_text region_columns
           [["2"; "ASIA"; "ges"]; []; ["3"]; ["3"; "EUROPE"; "ly"; "more"]] []).
  by_evaluation.
Defined.

Lemma data_with_and_without_slash :
  readTPCHData fs ("data" ++ "/") no_tables = readTPCHData fs "data" no_tables.
Proof.
  apply (readTPCHData_trailing_slash fs "data" no_tables); by_evaluation.
Defined.

Lemma data_directory_read :
  ∃ b t', readTPCHData fs "data" no_tables = Ok (b, t') ∧
    (b = true ↔
     Forall (λ f : string * list string, is_Some (fs (tbl_dir "data" ++ f.1)))
            tbl_files) ∧
    ∀ (k : nat) name columns old,
      tbl_files !! k = Some (name, columns) →
      tables_list no_tables !! k = Some old →
      tables_list t' !! k =
        Some (if decide (Forall (λ f : string * list string,
                                   is_Some (fs (tbl_dir "data" ++ f.1)))
                                (take k tbl_files))
              then (loadTable (fs (tbl_dir "data" ++ name)) old columns).2
              else old).
Proof.
  apply (readTPCHData_first_missing_file fs "data" no_tables). by_evaluation.
Defined.

(** Three threads are asked for and the host refuses the third. *)
Lemma sample_outcome :
  let r :=
    executeQuery5_on std_stod (λ i, i <? 2) "ASIA" "1994-01-01" "1995-01-01" 3
      customer_data orders_data lineitem_data supplier_data nation_data
      region_data ∅ in
  match dimension_filter "ASIA" "1994-01-01" "1995-01-01" customer_data
          orders_data supplier_data nation_data region_data with
  | Err f => f = Throws out_of_range ∧ r = Err (Throws out_of_range)
  | Ok _ =>
      if decide (3 < 0) then r = Err (Throws length_error)
      else if decide (3 = 0) then r = Err Undefined
      else
        ((∃ out, r = Ok (true, out)) ∧ ∀ i, 0 ≤ i < 3 → (i <? 2) = true) ∨
        (∃ e, r = Err (Terminate e)) ∨
        (r = Err (Throws system_error) ∧ (0 <? 2) = false)
  end.
Proof.
  apply (executeQuery5_outcomes std_stod (λ i, i <? 2) "ASIA" "1994-01-01"
           "1995-01-01" 3 customer_data orders_data lineitem_data
           supplier_data nation_data region_data ∅).
  by_evaluation.
Defined.

Example third_thread_refused :
  executeQuery5_on std_stod (λ i, i <? 2) "ASIA" "1994-01-01" "1995-01-01" 3
    customer_data orders_data lineitem_data supplier_data nation_data
    region_data ∅ = Err (Terminate system_error) ∧
  executeQuery5_on std_stod (λ _, false) "ASIA" "1994-01-01" "1995-01-01" 3
    customer_data orders_data lineitem_data supplier_data nation_data
    region_data ∅ = Err (Throws system_error).
Proof. split; by_evaluation. Qed.

Lemma loaded_directory_outcome :
  let r :=
    executeQuery5_on std_stod (λ _, true) "ASIA" "1994-01-01" "1995-01-01" 2
      (t_customer loaded) (t_orders loaded) (t_lineitem loaded)
      (t_supplier loaded) (t_nation loaded) (t_region loaded) ∅ in
  ∃ d,
    dimension_filter "ASIA" "1994-01-01" "1995-01-01" (t_customer loaded)
      (t_orders loaded) (t_supplier loaded) (t_nation loaded)
      (t_region loaded) = Ok d ∧
    ((∃ out, r = Ok (true, out)) ∨
     (∃ item e,
        item ∈ t_lineitem loaded ∧ joins d item ∧
        (std_stod (fld item "l_extendedprice") = inl e ∨
         std_stod (fld item "l_discount") = inl e) ∧
        r = Err (Terminate e)) ∨
     (∃ i, 0 ≤ i < 2 ∧ (λ _ : Z, true) i = false ∧
           r = Err (if i =? 0 then Throws system_error
                    else Terminate system_error))).
Proof.
  apply (loaded_tables_fail_only_on_numbers std_stod (λ _, true) fs "data" true
           loaded "ASIA" "1994-01-01" "1995-01-01" 2 ∅).
  - vm_compute. reflexivity.
  - lia.
  - by_evaluation.
Defined.

Lemma sample_added_to_earlier_results :
  match executeQuery5 std_stod "ASIA" "1994-01-01" "1995-01-01" 2
          customer_data orders_data lineitem_data supplier_data nation_data
          region_data ∅ with
  | Ok (_, fresh) =>
      ∃ out,
        executeQuery5 std_stod "ASIA" "1994-01-01" "1995-01-01" 2
          customer_data orders_data lineitem_data supplier_data nation_data
          region_data earlier_results = Ok (true, out) ∧
        ∀ name,
          (is_Some (out !! name) ↔
           is_Some (earlier_results !! name) ∨ is_Some (fresh !! name)) ∧
          (fresh !! name = None → out !! name = earlier_results !! name) ∧
          (earlier_results !! name = None → out !! name = fresh !! name)
  | Err f =>
      executeQuery5 std_stod "ASIA" "1994-01-01" "1995-01-01" 2
        customer_data orders_data lineitem_data supplier_data nation_data
        region_data earlier_results = Err f
  end.
Proof.
  apply (executeQuery5_adds_to_results std_stod "ASIA" "1994-01-01"
           "1995-01-01" 2 customer_data orders_data lineitem_data
           supplier_data nation_data region_data earlier_results);
    [lia|by_evaluation].
Defined.

(** INDIA held 10 and gets 95 more, PERU stays, CHINA is new. *)
Example sample_added_values :
  sample_out
  = <["CHINA" := 200%float]> (<["INDIA" := 105%float]>
      (<["PERU" := 1%float]> ∅)).
Proof. by_evaluation. Qed.

Lemma region_without_name_throws :
  executeQuery5 std_stod "ASIA" "1994-01-01" "1995-01-01" 2 customer_data
    orders_data lineitem_data supplier_data nation_data region_without_name ∅
    = Err (Throws out_of_range).
Proof.
  apply (executeQuery5_missing_column std_stod "ASIA" "1994-01-01"
           "1995-01-01" 2 customer_data orders_data lineitem_data
           supplier_data nation_data region_without_name ∅).
  left. exists (row [("r_regionkey", "2")]). split; [by left|by_evaluation].
Defined.

Lemma item_without_key_terminates :
  ∃ e,
    executeQuery5 std_stod "ASIA" "1994-01-01" "1995-01-01" 2 customer_data
      orders_data (lineitem_data ++ [item_without_key]) supplier_data
      nation_data region_data ∅ = Err (Terminate e).
Proof.
  apply (executeQuery5_line_item_without_key std_stod "ASIA" "1994-01-01"
           "1995-01-01" 2 customer_data orders_data
           (lineitem_data ++ [item_without_key]) supplier_data nation_data
           region_data ∅ item_without_key).
  - lia.
  - by_evaluation.
  - vm_compute. exact I.
  - apply elem_of_app. right. by left.
  - left. by_evaluation.
Defined.

Lemma no_supplier_no_revenue :
  executeQuery5 std_stod "ASIA" "1994-01-01" "1995-01-01" 2 customer_data
    orders_data lineitem_data [] nation_data region_data earlier_results
    = Ok (true, earlier_results).
Proof.
  apply (executeQuery5_empty_table std_stod "ASIA" "1994-01-01"
           "1995-01-01" 2 customer_data orders_data lineitem_data []
           nation_data region_data earlier_results).
  - split; by_evaluation.
  - lia.
  - by_evaluation.
  - right. right. right. by left.
Defined.

Lemma inverted_window_no_revenue :
  executeQuery5 std_stod "ASIA" "1995-01-01" "1994-01-01" 2 customer_data
    orders_data lineitem_data supplier_data nation_data region_data
    earlier_results = Ok (true, earlier_results).
Proof.
  apply (executeQuery5_empty_window std_stod "ASIA" "1995-01-01"
           "1994-01-01" 2 customer_data orders_data lineitem_data
           supplier_data nation_data region_data earlier_results).
  - split; by_evaluation.
  - lia.
  - by_evaluation.
  - reflexivity.
Defined.

Lemma sample_names_of_region :
  (is_Some (earlier_results !! "CHINA") → is_Some (sample_out !! "CHINA")) ∧
  (is_Some (sample_out !! "CHINA") →
   is_Some (earlier_results !! "CHINA") ∨
   ∃ n r, n ∈ nation_data ∧ r ∈ region_data ∧
          fld n "n_name" = "CHINA" ∧
          fld n "n_regionkey" = fld r "r_regionkey" ∧
          fld r "r_name" = "ASIA").
Proof.
  apply (executeQuery5_names_of_region std_stod "ASIA" "1994-01-01"
           "1995-01-01" 2 customer_data orders_data lineitem_data
           supplier_data nation_data region_data earlier_results sample_out).
  - split; by_evaluation.
  - lia.
  - by_evaluation.
  - by_evaluation.
Defined.

Lemma last_customer_wins :
  ∃ valid_customers,
    filter_customers (nation_key_to_name d)
      ([row [("c_custkey", "1"); ("c_nationkey", "8")]]
       ++ row [("c_custkey", "1"); ("c_nationkey", "18")] :: [])
      = Ok valid_customers ∧
    valid_customers
      !! fld (row [("c_custkey", "1"); ("c_nationkey", "18")]) "c_custkey"
      = Some (fld (row [("c_custkey", "1"); ("c_nationkey", "18")])
                  "c_nationkey").
Proof.
  apply (filter_customers_last_wins (nation_key_to_name d)
           [row [("c_custkey", "1"); ("c_nationkey", "8")]] []
           (row [("c_custkey", "1"); ("c_nationkey", "18")])).
  - by_evaluation.
  - by_evaluation.
  - constructor.
Defined.

Lemma first_turn_of_thread_0 :
  valid_orders after_turn = valid_orders two_threads ∧
  valid_suppliers after_turn = valid_suppliers two_threads ∧
  length (thread_results after_turn) = length (thread_results two_threads) ∧
  ∀ j : nat, j ≠ Z.to_nat 0 →
    thread_results after_turn !! j = thread_results two_threads !! j.
Proof.
  apply (worker_body_own_accumulator std_stod lineitem_data 0 0
           two_threads after_turn).
  vm_compute. reflexivity.
Defined.

Lemma sample_in_two_batches :
  let run n lineitem_data :=
    executeQuery5 std_stod "ASIA" "1994-01-01" "1995-01-01" n customer_data
      orders_data lineitem_data supplier_data nation_data region_data in
  (is_Ok (run 3 (take 3 lineitem_data ++ drop 3 lineitem_data)%list ∅) ↔
   ∃ partial, run 1 (take 3 lineitem_data) ∅ = Ok (true, partial) ∧
              is_Ok (run 2 (drop 3 lineitem_data) partial)) ∧
  (∀ out partial out',
     run 3 (take 3 lineitem_data ++ drop 3 lineitem_data)%list ∅
       = Ok (true, out) →
     run 1 (take 3 lineitem_data) ∅ = Ok (true, partial) →
     run 2 (drop 3 lineitem_data) partial = Ok (true, out') →
     ∀ name, is_Some (out !! name) ↔ is_Some (out' !! name)).
Proof.
  apply (executeQuery5_in_batches std_stod "ASIA" "1994-01-01"
           "1995-01-01" 3 1 2 customer_data orders_data
           (take 3 lineitem_data) (drop 3 lineitem_data) supplier_data
           nation_data region_data ∅); [lia..|by_evaluation].
Defined.

Lemma sample_rows_reversed :
  let run n items :=
    executeQuery5 std_stod "ASIA" "1994-01-01" "1995-01-01" n customer_data
      orders_data items supplier_data nation_data region_data ∅ in
  (is_Ok (run 3 lineitem_data) ↔ is_Ok (run 2 (reverse lineitem_data))) ∧
  (∀ out out',
     run 3 lineitem_data = Ok (true, out) →
     run 2 (reverse lineitem_data) = Ok (true, out') →
     ∀ name, is_Some (out !! name) ↔ is_Some (out' !! name)).
Proof.
  apply (executeQuery5_any_row_order std_stod "ASIA" "1994-01-01"
           "1995-01-01" 3 2 customer_data orders_data lineitem_data
           (reverse lineitem_data) supplier_data nation_data region_data ∅).
  - symmetry. apply reverse_Permutation.
  - lia.
  - lia.
  - by_evaluation.
Defined.

(** The rows of [lineitem_large] in two orders, one thread: 10^16 when the
    large revenue comes first, 10^16 + 2 when it comes last. *)
Example row_order_changes_revenue :
  executeQuery5 std_stod "ASIA" "1994-01-01" "1995-01-01" 1 customer_data
    orders_data lineitem_large supplier_data nation_data region_data ∅
  = Ok (true, <["INDIA" := 1e16%float]> ∅) ∧
  executeQuery5 std_stod "ASIA" "1994-01-01" "1995-01-01" 1 customer_data
    orders_data (reverse lineitem_large) supplier_data nation_data
    region_data ∅
  = Ok (true, <["INDIA" := 10000000000000002%float]> ∅).
Proof. split; by_evaluation. Qed.

Lemma sample_threads_complete :
  (is_Ok (executeQuery5 std_stod "ASIA" "1994-01-01" "1995-01-01" 3
            customer_data orders_data lineitem_data supplier_data nation_data
            region_data ∅) →
   ∀ p,
     pool_runs std_stod lineitem_data 3
       (Z.of_nat (length lineitem_data)) (Z.of_nat (length lineitem_data) / 3)
       (pool_start 3 (Z.of_nat (length lineitem_data) / 3)
          (with_results d (replicate (Z.to_nat 3) ∅))) p →
     ∃ p',
       pool_runs std_stod lineitem_data 3
         (Z.of_nat (length lineitem_data))
         (Z.of_nat (length lineitem_data) / 3) p p' ∧
       pool_done 3 (Z.of_nat (length lineitem_data))
         (Z.of_nat (length lineitem_data) / 3) p') ∧
  ((∃ p,
      pool_runs std_stod lineitem_data 3
        (Z.of_nat (length lineitem_data)) (Z.of_nat (length lineitem_data) / 3)
        (pool_start 3 (Z.of_nat (length lineitem_data) / 3)
           (with_results d (replicate (Z.to_nat 3) ∅))) p ∧
      pool_done 3 (Z.of_nat (length lineitem_data))
        (Z.of_nat (length lineitem_data) / 3) p) →
   is_Ok (executeQuery5 std_stod "ASIA" "1994-01-01" "1995-01-01" 3
            customer_data orders_data lineitem_data supplier_data nation_data
            region_data ∅)).
Proof.
  apply (pool_runs_to_completion std_stod "ASIA" "1994-01-01" "1995-01-01"
           3 customer_data orders_data lineitem_data supplier_data nation_data
           region_data ∅ d).
  - lia.
  - by_evaluation.
  - vm_compute. reflexivity.
Defined.

Lemma scenario_one_ranking :
  outputResults insertion_sort true scenario_results
  = outputResults insertion_sort_rev true scenario_results.
Proof.
  apply (outputResults_no_ties insertion_sort insertion_sort_rev
           scenario_results).
  - apply insertion_sort_contract.
  - apply insertion_sort_rev_contract.
  - apply revenues_compare. by_evaluation.
Defined.

Lemma options_parsed :
  arg_r_name parsed = default (arg_r_name no_args) (given "--r_name" options) ∧
  arg_start_date parsed
    = default (arg_start_date no_args) (given "--start_date" options) ∧
  arg_end_date parsed
    = default (arg_end_date no_args) (given "--end_date" options) ∧
  arg_table_path parsed
    = default (arg_table_path no_args) (given "--table_path" options) ∧
  arg_result_path parsed
    = default (arg_result_path no_args) (given "--result_path" options) ∧
  match given "--threads" options with
  | Some v => stoi v = Ok (arg_num_threads parsed)
  | None => arg_num_threads parsed = arg_num_threads no_args
  end.
Proof.
  apply (parseArgs_options "query5" options no_args parsed true).
  - by_evaluation.
  - vm_compute. reflexivity.
Defined.

Lemma parsed_options_usable :
  (∀ fs t, is_Ok (readTPCHData fs (arg_table_path parsed) t)) ∧
  (∀ stod starts customer_data orders_data lineitem_data supplier_data
     nation_data region_data results,
     Z.of_nat (length lineitem_data) < 2 ^ 64 →
     let r :=
       executeQuery5_on stod starts (arg_r_name parsed)
         (arg_start_date parsed) (arg_end_date parsed)
         (arg_num_threads parsed) customer_data orders_data lineitem_data
         supplier_data nation_data region_data results in
     (∃ out, r = Ok (true, out)) ∨ r = Err (Throws out_of_range) ∨
     (∃ e, r = Err (Terminate e)) ∨ r = Err (Throws system_error)).
Proof.
  apply (parseArgs_true_calls_defined ("query5" :: option_words options)
           no_args parsed).
  vm_compute. reflexivity.
Defined.

Lemma threads_without_value :
  parseArgs ("query5" :: option_words options ++ ["--threads"]) no_args
  = parseArgs ("query5" :: option_words options) no_args.
Proof.
  apply (parseArgs_last_word_ignored "query5" "--threads" options no_args).
  by_evaluation.
Defined.

End Instances.
